(** * TSGen: a 48-bit timestamp generator with adaptive acquisition

    Shallow embedding of [tsgen.js] (the encoder [toBase64Url48] and the
    controller built by [createTSGen]) and of [tsgen-worker.js] (the worker
    script), followed by the properties proved about them.

    Conventions of the embedding.
    - A JavaScript BigInt is a [Z]; [&] is [Z.land] and [>>] is [Z.shiftr]
      (both are the infinite two's-complement operations of BigInt).
    - A JavaScript Number is a [number]: a finite binary value [m * 2^e],
      NaN or an infinity.  An integral Number is carried as a [Z].  The
      increment of a counter and the conversion [Number(bigint)] round to
      the nearest double ([nearest_double], [Number_of_BigInt]).  Readings
      of [Date.now()] are time values, non-negative and below 2^53, whose
      differences are exact.
    - A JavaScript string of ASCII characters is a [string]; [<] on strings
      is [String.compare] (code-unit lexicographic order).
    - Code that can throw returns a [result]; code that reads or writes the
      closure variables of [createTSGen] runs in the monad [M]. *)

From Stdlib Require Import ZArith List String Ascii Bool Lia Sorted.
Import ListNotations.

Local Open Scope string_scope.
Local Open Scope Z_scope.

(* ------------------------------------------------------------------ *)
(** * JavaScript values and exceptions                                  *)
(* ------------------------------------------------------------------ *)

Module JS.

(** The exceptions the modelled code can raise. *)
Inductive error : Type :=
| RangeError   (* BigInt() of a Number that is not an integer *)
| TypeError    (* property access on null *)
| SpawnError.  (* thrown by the Worker constructor *)

Inductive result (A : Type) : Type :=
| Ok (a : A)
| Err (e : error).
Arguments Ok {A} a.
Arguments Err {A} e.

(** A Number: the finite double [m * 2^e], NaN, or +/- Infinity. *)
Inductive number : Type :=
| Double (m e : Z)
| NaN
| Infinity (negative : bool).

(** The inputs [toBase64Url48] documents: "Number or BigInt". *)
Inductive value : Type :=
| VBigInt (n : Z)
| VNumber (x : number).

(** An integral Number, e.g. the result of [Date.now()]. *)
Definition of_int (z : Z) : value := VNumber (Double z 0).

(** IsIntegralNumber. *)
Definition is_integral (x : number) : bool :=
  match x with
  | Double m e => (0 <=? e) || (m mod 2 ^ (- e) =? 0)
  | NaN => false
  | Infinity _ => false
  end.

(** The mathematical value of an integral Number. *)
Definition int_value (x : number) : Z :=
  match x with
  | Double m e => if 0 <=? e then m * 2 ^ e else m / 2 ^ (- e)
  | NaN => 0
  | Infinity _ => 0
  end.

(** [BigInt(x)] for a Number [x] (NumberToBigInt): a RangeError unless
    [x] is an integer. *)
Definition BigInt (x : number) : result Z :=
  if is_integral x then Ok (int_value x) else Err RangeError.

(** [typeof v === 'bigint' ? v : BigInt(v)]. *)
Definition to_bigint (v : value) : result Z :=
  match v with
  | VBigInt n => Ok n
  | VNumber x => BigInt x
  end.

(** An array with holes: [new Array(k)] has [k] holes. *)
Definition array (A : Type) : Type := list (option A).

Definition new_Array {A : Type} (k : nat) : array A := repeat None k.

(** [a[i] = x]: overwrites slot [i]; beyond the end JavaScript extends the
    array with holes. *)
Fixpoint array_set {A : Type} (a : array A) (i : nat) (x : option A) : array A :=
  match i, a with
  | O, [] => [x]
  | O, _ :: t => x :: t
  | S i', [] => None :: array_set [] i' x
  | S i', h :: t => h :: array_set t i' x
  end.

(** [a.join('')] on an array of one-character strings: holes and
    [undefined] contribute the empty string. *)
Fixpoint join (a : array ascii) : string :=
  match a with
  | [] => EmptyString
  | Some c :: t => String c (join t)
  | None :: t => join t
  end.

(** [s[idx]]: the character at [idx], [undefined] out of range. *)
Definition char_at (s : string) (idx : Z) : option ascii :=
  if idx <? 0 then None else String.get (Z.to_nat idx) s.

(** The double nearest to the integer [z], ties to even, as an integer:
    the rounding of Number arithmetic on integers and of [Number(bigint)].
    Below 2^53 every integer is a double. *)
Definition nearest_double (z : Z) : Z :=
  let a := Z.abs z in
  if a <? 2 ^ 53 then z
  else
    let e := Z.log2 a - 52 in
    let q := a / 2 ^ e in
    let r := a mod 2 ^ e in
    let half := 2 ^ (e - 1) in
    let q' := if (half <? r) || ((r =? half) && Z.odd q) then q + 1 else q in
    Z.sgn z * (q' * 2 ^ e).

(** [Number(b)] for a BigInt [b]: the nearest double, an infinity beyond
    the largest double. *)
Definition Number_of_BigInt (b : Z) : number :=
  let v := nearest_double b in
  if Z.abs v <? 2 ^ 1024 then Double v 0 else Infinity (b <? 0).

(** [x >= y] for a Number [x] and an integral Number [y]. *)
Definition number_ge (x : number) (y : Z) : bool :=
  match x with
  | Double m e => if 0 <=? e then y <=? m * 2 ^ e else y * 2 ^ (- e) <=? m
  | NaN => false
  | Infinity negative => negb negative
  end.

End JS.

Import JS.

(* ------------------------------------------------------------------ *)
(** * The encoder of tsgen.js                                           *)
(* ------------------------------------------------------------------ *)

(** ASCII-sorted 64-character alphabet. *)
Definition ASCII_BASE64_ALPHA : string :=
  "-0123456789ABCDEFGHIJKLMNOPQRSTUVWXYZ_abcdefghijklmnopqrstuvwxyz".

(** The module-load guard
    [if (ASCII_BASE64_ALPHA.length !== 64) throw new Error(...)]:
    [false] means the module throws while loading. *)
Definition alphabet_guard : bool :=
  Nat.eqb (String.length ASCII_BASE64_ALPHA) 64.

(** The loop [for (let i = 0, shift = 42n; i < 8; i++, shift -= 6n)] of
    [toBase64Url48]; [fuel] bounds the number of iterations. *)
Fixpoint encode_loop (fuel : nat) (n : Z) (i : nat) (shift : Z)
    (out : array ascii) : array ascii :=
  match fuel with
  | O => out
  | S fuel' =>
      if Nat.ltb i 8 then
        let idx := Z.land (Z.shiftr n shift) 63 in
        encode_loop fuel' n (S i) (shift - 6)
          (array_set out i (char_at ASCII_BASE64_ALPHA idx))
      else out
  end.

(** The body of [toBase64Url48] once [n] is a BigInt: mask to 48 bits,
    fill the eight slots, join. *)
Definition encode48 (n : Z) : string :=
  let n := Z.land n (Z.shiftl 1 48 - 1) in
  join (encode_loop 8 n 0 42 (new_Array 8)).

(** [toBase64Url48(v)]. *)
Definition toBase64Url48 (v : value) : result string :=
  match to_bigint v with
  | Ok n => Ok (encode48 n)
  | Err e => Err e
  end.

(* ------------------------------------------------------------------ *)
(** * The encoder of tsgen-worker.js                                    *)
(* ------------------------------------------------------------------ *)

Module Worker.

(** "Same alphabet as main". *)
Definition ASCII_BASE64_ALPHA : string :=
  "-0123456789ABCDEFGHIJKLMNOPQRSTUVWXYZ_abcdefghijklmnopqrstuvwxyz".

Fixpoint encode_loop (fuel : nat) (n : Z) (i : nat) (shift : Z)
    (out : array ascii) : array ascii :=
  match fuel with
  | O => out
  | S fuel' =>
      if Nat.ltb i 8 then
        encode_loop fuel' n (S i) (shift - 6)
          (array_set out i
             (char_at ASCII_BASE64_ALPHA (Z.land (Z.shiftr n shift) 63)))
      else out
  end.

(** "local encoder (same algorithm)". *)
Definition toBase64Url48 (v : value) : result string :=
  match to_bigint v with
  | Ok n =>
      let n := Z.land n (Z.shiftl 1 48 - 1) in
      Ok (join (encode_loop 8 n 0 42 (new_Array 8)))
  | Err e => Err e
  end.

End Worker.

(* ------------------------------------------------------------------ *)
(** * Reading an encoded timestamp back                                 *)
(* ------------------------------------------------------------------ *)

(** The ordinal of a character in an alphabet: its position. *)
Fixpoint ordinal_in (alpha : string) (c : ascii) : option Z :=
  match alpha with
  | EmptyString => None
  | String a rest =>
      if Ascii.eqb a c then Some 0
      else match ordinal_in rest c with
           | Some k => Some (k + 1)
           | None => None
           end
  end.

Fixpoint decode_from (acc : Z) (s : string) : option Z :=
  match s with
  | EmptyString => Some acc
  | String c rest =>
      match ordinal_in ASCII_BASE64_ALPHA c with
      | Some d => decode_from (acc * 64 + d) rest
      | None => None
      end
  end.

(** The inverse the specification calls [decode_ordinal]: the characters'
    ordinals read as a base-64 numeral, most significant first.  It is not
    part of the source; it is only used to state the round trip. *)
Definition decode_ordinal (s : string) : option Z := decode_from 0 s.

(** Every character of [s] is one of the 64 symbols. *)
Fixpoint in_alphabet (s : string) : bool :=
  match s with
  | EmptyString => true
  | String c rest =>
      match ordinal_in ASCII_BASE64_ALPHA c with
      | Some _ => in_alphabet rest
      | None => false
      end
  end.

(** A valid EncodedTimestamp: exactly 8 symbols of the alphabet. *)
Definition valid_encoded (s : string) : Prop :=
  String.length s = 8%nat /\ in_alphabet s = true.

(** Lexicographic comparison of strings, as JavaScript's [<] and [<=]. *)
Definition str_lt (a b : string) : Prop := String.compare a b = Lt.
Definition str_le (a b : string) : Prop := String.compare a b <> Gt.

(* ------------------------------------------------------------------ *)
(** * The alphabet as a table, and digit strings                       *)
(* ------------------------------------------------------------------ *)

(** The symbol for a 6-bit group. *)
Definition sym (d : Z) : ascii :=
  match char_at ASCII_BASE64_ALPHA d with
  | Some c => c
  | None => "-"%char
  end.

Definition groups : list Z := map Z.of_nat (seq 0 64).

(** [k] base-64 digits of [n], most significant first, as symbols. *)
Fixpoint enc_digits (k : nat) (n : Z) : string :=
  match k with
  | O => EmptyString
  | S k' => String (sym ((n / 64 ^ Z.of_nat k') mod 64)) (enc_digits k' n)
  end.

(* ------------------------------------------------------------------ *)
(** * The controller of tsgen.js: configuration, state and host         *)
(* ------------------------------------------------------------------ *)

(** The configuration [cfg].  The numeric options are integral Numbers. *)
Record config : Type := mkConfig {
  thresholdCalls : Z;      (* calls *)
  thresholdWindowUs : Z;   (* microseconds *)
  perfCooldownMs : Z;      (* keep the loop alive this long after the last activity *)
  prefer : string          (* 'auto' | 'basic' | 'internal' | 'worker' *)
}.

(** The argument [opts] of [createTSGen]: each property may be absent. *)
Record options : Type := mkOptions {
  opt_thresholdCalls : option Z;
  opt_thresholdWindowUs : option Z;
  opt_perfCooldownMs : option Z;
  opt_prefer : option string
}.

Definition defaultOptions : config :=
  {| thresholdCalls := 5;
     thresholdWindowUs := 5;
     perfCooldownMs := 1000;
     prefer := "auto" |}.

Definition no_options : options :=
  {| opt_thresholdCalls := None; opt_thresholdWindowUs := None;
     opt_perfCooldownMs := None; opt_prefer := None |}.

Definition or_default {A : Type} (o : option A) (d : A) : A :=
  match o with Some a => a | None => d end.

(** [Object.assign({}, defaultOptions, opts)]. *)
Definition Object_assign (d : config) (o : options) : config :=
  {| thresholdCalls := or_default (opt_thresholdCalls o) (thresholdCalls d);
     thresholdWindowUs := or_default (opt_thresholdWindowUs o) (thresholdWindowUs d);
     perfCooldownMs := or_default (opt_perfCooldownMs o) (perfCooldownMs d);
     prefer := or_default (opt_prefer o) (prefer d) |}.

(** What a worker posts to its parent: an encoded timestamp, or the object
    [{ __error: ... }] of its failure handler. *)
Inductive message : Type :=
| MString (s : string)
| MObject.

(** The life of a worker thread. *)
Inductive status : Type :=
| Spawned             (* created, the script has not run yet *)
| Looping             (* the script runs; parked at the [await] of [loop] *)
| Crashed             (* uncaught exception; its 'error' event is pending *)
| Exiting (code : Z)  (* stopped; its 'exit' event is pending *)
| Gone.               (* the 'exit' event has been emitted *)

Record thread : Type := mkThread {
  t_status : status;
  t_lastMs : Z;              (* the script's variable [lastMs] *)
  t_outbox : list message    (* posted, not yet delivered; oldest first *)
}.

(** The closure variables of one [createTSGen] instance, followed by the
    host they run on: the two clocks, the internal-loop tasks the event loop
    holds, the worker threads and the console.

    A clock is its last reading and a tape of the readings to come: a read
    takes the next one from the tape, and repeats the last reading when the
    tape is empty (the clock does not move any more during this turn of the
    event loop).  Every loop of the program reads the variable
    [internalController] each time round, never a reference of its own, so
    the variable holds the object's only field. *)
Record State : Type := mkState {
  cfg : config;  (* the merged configuration [cfg] *)
  cached : string;
  lastMs : Z;
  callsInWindow : Z;
  windowStartNano : Z;
  internalRunning : bool;
  internalController : option bool;  (* [null], or the object [{ stopRequested }] *)
  lastHighActivityAt : Z;
  workerRunning : bool;
  worker : option nat;  (* [null], or the handle of a Worker object *)
  WorkerCtor : bool;  (* whether [node:worker_threads] could be loaded *)
  clock_ms : Z;  (* the last reading of [Date.now()] *)
  tape_ms : list Z;  (* the readings [Date.now()] returns next *)
  clock_ns : Z;  (* the last reading of [process.hrtime.bigint()] *)
  tape_ns : list Z;  (* the readings it returns next *)
  spawn_fails : bool;  (* whether [new WorkerCtor(...)] throws *)
  tasks : list Z;  (* internal-loop tasks parked at their [await], by [localLastMs] *)
  threads : list thread;  (* the worker threads created so far, by handle *)
  console : list string  (* what [console.error] has printed, latest first *)
}.

Definition set_cached (v : string) (s : State) : State :=
  {| cfg := cfg s;
     cached := v;
     lastMs := lastMs s;
     callsInWindow := callsInWindow s;
     windowStartNano := windowStartNano s;
     internalRunning := internalRunning s;
     internalController := internalController s;
     lastHighActivityAt := lastHighActivityAt s;
     workerRunning := workerRunning s;
     worker := worker s;
     WorkerCtor := WorkerCtor s;
     clock_ms := clock_ms s;
     tape_ms := tape_ms s;
     clock_ns := clock_ns s;
     tape_ns := tape_ns s;
     spawn_fails := spawn_fails s;
     tasks := tasks s;
     threads := threads s;
     console := console s |}.

Definition set_lastMs (v : Z) (s : State) : State :=
  {| cfg := cfg s;
     cached := cached s;
     lastMs := v;
     callsInWindow := callsInWindow s;
     windowStartNano := windowStartNano s;
     internalRunning := internalRunning s;
     internalController := internalController s;
     lastHighActivityAt := lastHighActivityAt s;
     workerRunning := workerRunning s;
     worker := worker s;
     WorkerCtor := WorkerCtor s;
     clock_ms := clock_ms s;
     tape_ms := tape_ms s;
     clock_ns := clock_ns s;
     tape_ns := tape_ns s;
     spawn_fails := spawn_fails s;
     tasks := tasks s;
     threads := threads s;
     console := console s |}.

Definition set_callsInWindow (v : Z) (s : State) : State :=
  {| cfg := cfg s;
     cached := cached s;
     lastMs := lastMs s;
     callsInWindow := v;
     windowStartNano := windowStartNano s;
     internalRunning := internalRunning s;
     internalController := internalController s;
     lastHighActivityAt := lastHighActivityAt s;
     workerRunning := workerRunning s;
     worker := worker s;
     WorkerCtor := WorkerCtor s;
     clock_ms := clock_ms s;
     tape_ms := tape_ms s;
     clock_ns := clock_ns s;
     tape_ns := tape_ns s;
     spawn_fails := spawn_fails s;
     tasks := tasks s;
     threads := threads s;
     console := console s |}.

Definition set_windowStartNano (v : Z) (s : State) : State :=
  {| cfg := cfg s;
     cached := cached s;
     lastMs := lastMs s;
     callsInWindow := callsInWindow s;
     windowStartNano := v;
     internalRunning := internalRunning s;
     internalController := internalController s;
     lastHighActivityAt := lastHighActivityAt s;
     workerRunning := workerRunning s;
     worker := worker s;
     WorkerCtor := WorkerCtor s;
     clock_ms := clock_ms s;
     tape_ms := tape_ms s;
     clock_ns := clock_ns s;
     tape_ns := tape_ns s;
     spawn_fails := spawn_fails s;
     tasks := tasks s;
     threads := threads s;
     console := console s |}.

Definition set_internalRunning (v : bool) (s : State) : State :=
  {| cfg := cfg s;
     cached := cached s;
     lastMs := lastMs s;
     callsInWindow := callsInWindow s;
     windowStartNano := windowStartNano s;
     internalRunning := v;
     internalController := internalController s;
     lastHighActivityAt := lastHighActivityAt s;
     workerRunning := workerRunning s;
     worker := worker s;
     WorkerCtor := WorkerCtor s;
     clock_ms := clock_ms s;
     tape_ms := tape_ms s;
     clock_ns := clock_ns s;
     tape_ns := tape_ns s;
     spawn_fails := spawn_fails s;
     tasks := tasks s;
     threads := threads s;
     console := console s |}.

Definition set_internalController (v : option bool) (s : State) : State :=
  {| cfg := cfg s;
     cached := cached s;
     lastMs := lastMs s;
     callsInWindow := callsInWindow s;
     windowStartNano := windowStartNano s;
     internalRunning := internalRunning s;
     internalController := v;
     lastHighActivityAt := lastHighActivityAt s;
     workerRunning := workerRunning s;
     worker := worker s;
     WorkerCtor := WorkerCtor s;
     clock_ms := clock_ms s;
     tape_ms := tape_ms s;
     clock_ns := clock_ns s;
     tape_ns := tape_ns s;
     spawn_fails := spawn_fails s;
     tasks := tasks s;
     threads := threads s;
     console := console s |}.

Definition set_lastHighActivityAt (v : Z) (s : State) : State :=
  {| cfg := cfg s;
     cached := cached s;
     lastMs := lastMs s;
     callsInWindow := callsInWindow s;
     windowStartNano := windowStartNano s;
     internalRunning := internalRunning s;
     internalController := internalController s;
     lastHighActivityAt := v;
     workerRunning := workerRunning s;
     worker := worker s;
     WorkerCtor := WorkerCtor s;
     clock_ms := clock_ms s;
     tape_ms := tape_ms s;
     clock_ns := clock_ns s;
     tape_ns := tape_ns s;
     spawn_fails := spawn_fails s;
     tasks := tasks s;
     threads := threads s;
     console := console s |}.

Definition set_workerRunning (v : bool) (s : State) : State :=
  {| cfg := cfg s;
     cached := cached s;
     lastMs := lastMs s;
     callsInWindow := callsInWindow s;
     windowStartNano := windowStartNano s;
     internalRunning := internalRunning s;
     internalController := internalController s;
     lastHighActivityAt := lastHighActivityAt s;
     workerRunning := v;
     worker := worker s;
     WorkerCtor := WorkerCtor s;
     clock_ms := clock_ms s;
     tape_ms := tape_ms s;
     clock_ns := clock_ns s;
     tape_ns := tape_ns s;
     spawn_fails := spawn_fails s;
     tasks := tasks s;
     threads := threads s;
     console := console s |}.

Definition set_worker (v : option nat) (s : State) : State :=
  {| cfg := cfg s;
     cached := cached s;
     lastMs := lastMs s;
     callsInWindow := callsInWindow s;
     windowStartNano := windowStartNano s;
     internalRunning := internalRunning s;
     internalController := internalController s;
     lastHighActivityAt := lastHighActivityAt s;
     workerRunning := workerRunning s;
     worker := v;
     WorkerCtor := WorkerCtor s;
     clock_ms := clock_ms s;
     tape_ms := tape_ms s;
     clock_ns := clock_ns s;
     tape_ns := tape_ns s;
     spawn_fails := spawn_fails s;
     tasks := tasks s;
     threads := threads s;
     console := console s |}.

Definition set_clock_ms (v : Z) (s : State) : State :=
  {| cfg := cfg s;
     cached := cached s;
     lastMs := lastMs s;
     callsInWindow := callsInWindow s;
     windowStartNano := windowStartNano s;
     internalRunning := internalRunning s;
     internalController := internalController s;
     lastHighActivityAt := lastHighActivityAt s;
     workerRunning := workerRunning s;
     worker := worker s;
     WorkerCtor := WorkerCtor s;
     clock_ms := v;
     tape_ms := tape_ms s;
     clock_ns := clock_ns s;
     tape_ns := tape_ns s;
     spawn_fails := spawn_fails s;
     tasks := tasks s;
     threads := threads s;
     console := console s |}.

Definition set_tape_ms (v : list Z) (s : State) : State :=
  {| cfg := cfg s;
     cached := cached s;
     lastMs := lastMs s;
     callsInWindow := callsInWindow s;
     windowStartNano := windowStartNano s;
     internalRunning := internalRunning s;
     internalController := internalController s;
     lastHighActivityAt := lastHighActivityAt s;
     workerRunning := workerRunning s;
     worker := worker s;
     WorkerCtor := WorkerCtor s;
     clock_ms := clock_ms s;
     tape_ms := v;
     clock_ns := clock_ns s;
     tape_ns := tape_ns s;
     spawn_fails := spawn_fails s;
     tasks := tasks s;
     threads := threads s;
     console := console s |}.

Definition set_clock_ns (v : Z) (s : State) : State :=
  {| cfg := cfg s;
     cached := cached s;
     lastMs := lastMs s;
     callsInWindow := callsInWindow s;
     windowStartNano := windowStartNano s;
     internalRunning := internalRunning s;
     internalController := internalController s;
     lastHighActivityAt := lastHighActivityAt s;
     workerRunning := workerRunning s;
     worker := worker s;
     WorkerCtor := WorkerCtor s;
     clock_ms := clock_ms s;
     tape_ms := tape_ms s;
     clock_ns := v;
     tape_ns := tape_ns s;
     spawn_fails := spawn_fails s;
     tasks := tasks s;
     threads := threads s;
     console := console s |}.

Definition set_tape_ns (v : list Z) (s : State) : State :=
  {| cfg := cfg s;
     cached := cached s;
     lastMs := lastMs s;
     callsInWindow := callsInWindow s;
     windowStartNano := windowStartNano s;
     internalRunning := internalRunning s;
     internalController := internalController s;
     lastHighActivityAt := lastHighActivityAt s;
     workerRunning := workerRunning s;
     worker := worker s;
     WorkerCtor := WorkerCtor s;
     clock_ms := clock_ms s;
     tape_ms := tape_ms s;
     clock_ns := clock_ns s;
     tape_ns := v;
     spawn_fails := spawn_fails s;
     tasks := tasks s;
     threads := threads s;
     console := console s |}.

Definition set_spawn_fails (v : bool) (s : State) : State :=
  {| cfg := cfg s;
     cached := cached s;
     lastMs := lastMs s;
     callsInWindow := callsInWindow s;
     windowStartNano := windowStartNano s;
     internalRunning := internalRunning s;
     internalController := internalController s;
     lastHighActivityAt := lastHighActivityAt s;
     workerRunning := workerRunning s;
     worker := worker s;
     WorkerCtor := WorkerCtor s;
     clock_ms := clock_ms s;
     tape_ms := tape_ms s;
     clock_ns := clock_ns s;
     tape_ns := tape_ns s;
     spawn_fails := v;
     tasks := tasks s;
     threads := threads s;
     console := console s |}.

Definition set_tasks (v : list Z) (s : State) : State :=
  {| cfg := cfg s;
     cached := cached s;
     lastMs := lastMs s;
     callsInWindow := callsInWindow s;
     windowStartNano := windowStartNano s;
     internalRunning := internalRunning s;
     internalController := internalController s;
     lastHighActivityAt := lastHighActivityAt s;
     workerRunning := workerRunning s;
     worker := worker s;
     WorkerCtor := WorkerCtor s;
     clock_ms := clock_ms s;
     tape_ms := tape_ms s;
     clock_ns := clock_ns s;
     tape_ns := tape_ns s;
     spawn_fails := spawn_fails s;
     tasks := v;
     threads := threads s;
     console := console s |}.

Definition set_threads (v : list thread) (s : State) : State :=
  {| cfg := cfg s;
     cached := cached s;
     lastMs := lastMs s;
     callsInWindow := callsInWindow s;
     windowStartNano := windowStartNano s;
     internalRunning := internalRunning s;
     internalController := internalController s;
     lastHighActivityAt := lastHighActivityAt s;
     workerRunning := workerRunning s;
     worker := worker s;
     WorkerCtor := WorkerCtor s;
     clock_ms := clock_ms s;
     tape_ms := tape_ms s;
     clock_ns := clock_ns s;
     tape_ns := tape_ns s;
     spawn_fails := spawn_fails s;
     tasks := tasks s;
     threads := v;
     console := console s |}.

Definition set_console (v : list string) (s : State) : State :=
  {| cfg := cfg s;
     cached := cached s;
     lastMs := lastMs s;
     callsInWindow := callsInWindow s;
     windowStartNano := windowStartNano s;
     internalRunning := internalRunning s;
     internalController := internalController s;
     lastHighActivityAt := lastHighActivityAt s;
     workerRunning := workerRunning s;
     worker := worker s;
     WorkerCtor := WorkerCtor s;
     clock_ms := clock_ms s;
     tape_ms := tape_ms s;
     clock_ns := clock_ns s;
     tape_ns := tape_ns s;
     spawn_fails := spawn_fails s;
     tasks := tasks s;
     threads := threads s;
     console := v |}.

(** The acquisition state of the specification, read off the two flags in
    the order [get] tests them.  With both flags down the controller
    computes directly; the specification's Idle is this same state. *)
Inductive strategy : Type := CooperativeLoop | WorkerThread.

Inductive ControllerState : Type :=
| DirectCompute
| Promoted (st : strategy).

Definition controller_state (s : State) : ControllerState :=
  if workerRunning s then Promoted WorkerThread
  else if internalRunning s then Promoted CooperativeLoop
  else DirectCompute.

(* ------------------------------------------------------------------ *)
(** * The monad of the controller code                                  *)
(* ------------------------------------------------------------------ *)

(** A computation ends normally, throws, or has not finished within the
    fuel of one of its loops. *)
Inductive outcome (A : Type) : Type :=
| Done (a : A) (s : State)
| Throw (e : error) (s : State)
| OutOfFuel.
Arguments Done {A} a s.
Arguments Throw {A} e s.
Arguments OutOfFuel {A}.

Definition M (A : Type) : Type := State -> outcome A.

Definition ret {A : Type} (a : A) : M A := fun s => Done a s.

Definition bind {A B : Type} (m : M A) (k : A -> M B) : M B :=
  fun s =>
    match m s with
    | Done a s' => k a s'
    | Throw e s' => Throw e s'
    | OutOfFuel => OutOfFuel
    end.

Definition throw {A : Type} (e : error) : M A := fun s => Throw e s.

Definition out_of_fuel {A : Type} : M A := fun _ => OutOfFuel.

(** [try { m } catch (e) { h e }]. *)
Definition try_catch {A : Type} (m : M A) (h : error -> M A) : M A :=
  fun s =>
    match m s with
    | Throw e s' => h e s'
    | r => r
    end.

Definition read {A : Type} (f : State -> A) : M A := fun s => Done (f s) s.

Definition write (f : State -> State) : M unit := fun s => Done tt (f s).

Definition lift {A : Type} (r : result A) : M A :=
  match r with
  | Ok a => ret a
  | Err e => throw e
  end.

Declare Scope js_scope.
Delimit Scope js_scope with js.
Notation "x <- m ;; k" := (bind m (fun x => k))
  (at level 61, m at next level, right associativity) : js_scope.
Notation "m ;; k" := (bind m (fun _ => k))
  (at level 61, right associativity) : js_scope.
Local Open Scope js_scope.

(* ------------------------------------------------------------------ *)
(** * The host: clocks, console, worker threads                         *)
(* ------------------------------------------------------------------ *)

(** [Date.now()]. *)
Definition Date_now : M Z :=
  fun s =>
    match tape_ms s with
    | [] => Done (clock_ms s) s
    | t :: rest => Done t (set_tape_ms rest (set_clock_ms t s))
    end.

(** [process.hrtime.bigint()]. *)
Definition hrtime_bigint : M Z :=
  fun s =>
    match tape_ns s with
    | [] => Done (clock_ns s) s
    | t :: rest => Done t (set_tape_ns rest (set_clock_ns t s))
    end.

Definition console_error (line : string) : M unit :=
  write (fun s => set_console (line :: console s) s).

(** Enough fuel for a loop that reads the millisecond clock once per
    iteration and stops at the first reading that repeats. *)
Definition fuel_of (s : State) : nat := S (S (List.length (tape_ms s))).

Fixpoint list_update {A : Type} (l : list A) (i : nat) (x : A) : list A :=
  match l, i with
  | [], _ => []
  | _ :: t, O => x :: t
  | h :: t, S i' => h :: list_update t i' x
  end.

Fixpoint list_remove {A : Type} (l : list A) (i : nat) : list A :=
  match l, i with
  | [], _ => []
  | _ :: t, O => t
  | h :: t, S i' => h :: list_remove t i'
  end.

Definition get_thread (h : nat) (s : State) : option thread :=
  nth_error (threads s) h.

Definition put_thread (h : nat) (t : thread) (s : State) : State :=
  set_threads (list_update (threads s) h t) s.

(** Update thread [h], if there is one. *)
Definition on_thread (h : nat) (f : thread -> thread) : M unit :=
  write (fun s =>
    match get_thread h s with
    | Some t => put_thread h (f t) s
    | None => s
    end).

Definition with_status (st : status) (t : thread) : thread :=
  {| t_status := st; t_lastMs := t_lastMs t; t_outbox := t_outbox t |}.

Definition with_lastMs (ms : Z) (t : thread) : thread :=
  {| t_status := t_status t; t_lastMs := ms; t_outbox := t_outbox t |}.

Definition with_outbox (o : list message) (t : thread) : thread :=
  {| t_status := t_status t; t_lastMs := t_lastMs t; t_outbox := o |}.

(** [new WorkerCtor(workerPath, { eval: false })]: throws, or creates a
    thread and returns its handle. *)
Definition new_WorkerCtor : M nat :=
  fun s =>
    if spawn_fails s then Throw SpawnError s
    else Done (List.length (threads s))
              (set_threads (threads s ++ [mkThread Spawned 0 []]) s).

(** [worker.terminate()]: the thread stops as soon as possible and will
    exit with code 1.  What it had posted stays in the queue: a 'message'
    event can still deliver it before the 'exit' event. *)
Definition terminate (h : nat) : M unit :=
  on_thread h (fun t =>
    match t_status t with
    | Gone => t
    | Exiting c => t
    | _ => with_status (Exiting 1) t
    end).

(** [parentPort.postMessage(m)] in thread [h]. *)
Definition postMessage (h : nat) (m : message) : M unit :=
  on_thread h (fun t => with_outbox (t_outbox t ++ [m]) t).

(** [process.exit(code)] in thread [h]. *)
Definition process_exit (h : nat) (code : Z) : M unit :=
  on_thread h (with_status (Exiting code)).

(* ------------------------------------------------------------------ *)
(** * The worker script, tsgen-worker.js                                *)
(* ------------------------------------------------------------------ *)

Module WorkerScript.

Definition get_lastMs (h : nat) : M Z :=
  read (fun s => match get_thread h s with
                 | Some t => t_lastMs t
                 | None => 0
                 end).

Definition set_lastMs (h : nat) (ms : Z) : M unit :=
  on_thread h (with_lastMs ms).

(** [loop], from the head of [while (true)] to its next [await]. *)
Fixpoint loop (fuel : nat) (h : nat) : M unit :=
  match fuel with
  | O => out_of_fuel
  | S fuel' =>
      now <- Date_now ;;
      last <- get_lastMs h ;;
      if negb (now =? last) then
        set_lastMs h now ;;
        enc <- lift (Worker.toBase64Url48 (of_int now)) ;;
        postMessage h (MString enc) ;;
        loop fuel' h
      else
        ret tt   (* yield *)
  end.

(** [loop().catch(...)]: on a failure, report it and exit with code 1. *)
Definition run_loop (h : nat) : M unit :=
  fuel <- read fuel_of ;;
  try_catch (loop fuel h)
    (fun _ => postMessage h MObject ;; process_exit h 1).

(** The script from its first line: the initial send, then the loop.  An
    exception outside [loop] is uncaught. *)
Definition main (h : nat) : M unit :=
  try_catch
    (now <- Date_now ;;
     set_lastMs h now ;;
     enc <- lift (Worker.toBase64Url48 (of_int now)) ;;
     postMessage h (MString enc) ;;
     on_thread h (with_status Looping) ;;
     run_loop h)
    (fun _ => on_thread h (with_status Crashed)).

End WorkerScript.

(* ------------------------------------------------------------------ *)
(** * The controller of tsgen.js: the functions of createTSGen          *)
(* ------------------------------------------------------------------ *)

(** Both branches of the [isNode] choice are [Date.now()]. *)
Definition platformGetNowMs : M Z := Date_now.

(** A monotonic nanosecond counter ([process.hrtime.bigint()] on Node). *)
Definition platformGetNano : M Z := hrtime_bigint.

(** [toBase64Url48(ms)] on a reading of the millisecond clock. *)
Definition encode_ms (ms : Z) : M string := lift (toBase64Url48 (of_int ms)).

(** "mark call frequency - returns whether threshold exceeded". *)
Definition markCall : M bool :=
  c <- read callsInWindow ;;
  write (set_callsInWindow (nearest_double (c + 1))) ;;
  nowN <- platformGetNano ;;
  start <- read windowStartNano ;;
  let elapsedUs := Number_of_BigInt (Z.quot (nowN - start) 1000) in
  window <- read (fun s => thresholdWindowUs (cfg s)) ;;
  if number_ge elapsedUs window then
    calls <- read callsInWindow ;;
    write (set_callsInWindow 0) ;;
    write (set_windowStartNano nowN) ;;
    limit <- read (fun s => thresholdCalls (cfg s)) ;;
    ret (calls >=? limit)
  else
    ret false.

Definition updateCachedNow : M unit :=
  ms <- platformGetNowMs ;;
  write (set_lastMs ms) ;;
  enc <- encode_ms ms ;;
  write (set_cached enc).

(** "BASIC get: compute on each call". *)
Definition basicGet : M string :=
  ms <- platformGetNowMs ;;
  encode_ms ms.

(** [internalController.stopRequested], a TypeError on [null]. *)
Definition get_stopRequested : M bool :=
  c <- read internalController ;;
  match c with
  | Some b => ret b
  | None => throw TypeError
  end.

(** [internalController.stopRequested = true]. *)
Definition request_stop : M unit :=
  c <- read internalController ;;
  match c with
  | Some _ => write (set_internalController (Some true))
  | None => throw TypeError
  end.

(** "auto-stop if idle": the last statement of the loop body. *)
Definition idle_check : M unit :=
  now <- Date_now ;;
  last <- read lastHighActivityAt ;;
  cooldown <- read (fun s => perfCooldownMs (cfg s)) ;;
  if now - last >? cooldown then request_stop else ret tt.

(** Where the asynchronous function of [startInternalLoop] stands when it
    gives control back. *)
Inductive task_state : Type :=
| Awaiting (localLastMs : Z)   (* parked at [await new Promise(...)] *)
| Finished.                    (* ran to its end *)

(** The [while] loop from its head, up to the next [await] or to the end of
    the function. *)
Fixpoint internal_loop (fuel : nat) (localLastMs : Z) : M task_state :=
  match fuel with
  | O => out_of_fuel
  | S fuel' =>
      stop <- get_stopRequested ;;
      if stop then
        write (set_internalRunning false) ;;
        ret Finished
      else
        nowMs <- platformGetNowMs ;;
        if negb (nowMs =? localLastMs) then
          enc <- encode_ms nowMs ;;
          write (set_cached enc) ;;
          idle_check ;;
          internal_loop fuel' nowMs
        else
          ret (Awaiting localLastMs)
  end.

(** The function from its first line. *)
Definition internal_start : M task_state :=
  fuel <- read fuel_of ;;
  localLastMs <- platformGetNowMs ;;
  enc <- encode_ms localLastMs ;;
  write (set_cached enc) ;;
  internal_loop fuel localLastMs.

(** The function from the [await] it was parked at. *)
Definition internal_resume (localLastMs : Z) : M task_state :=
  fuel <- read fuel_of ;;
  idle_check ;;
  internal_loop fuel localLastMs.

(** [(async () => { ... })().catch(...)]: the body runs until it awaits,
    returns or throws; a task that awaits is handed to the event loop, an
    exception goes to the [catch] handler. *)
Definition run_async (body : M task_state) : M unit :=
  fun s =>
    match body s with
    | Done (Awaiting localLastMs) s' =>
        Done tt (set_tasks (tasks s' ++ [localLastMs]) s')
    | Done Finished s' => Done tt s'
    | Throw _ s' =>
        (write (set_internalRunning false) ;;
         console_error "tsgen internal loop error") s'
    | OutOfFuel => OutOfFuel
    end.

(** "INTERNAL LOOP (same-thread) - updates cached every ms". *)
Definition startInternalLoop : M unit :=
  running <- read internalRunning ;;
  if running then ret tt
  else
    write (set_internalRunning true) ;;
    now <- Date_now ;;
    write (set_lastHighActivityAt now) ;;
    write (set_internalController (Some false)) ;;
    run_async internal_start.

Definition stopInternalLoop : M unit :=
  c <- read internalController ;;
  match c with
  | Some _ => write (set_internalController (Some true))
  | None => ret tt
  end ;;
  write (set_internalRunning false).

Definition stopWorker : M unit :=
  try_catch
    (w <- read worker ;;
     match w with
     | Some h => terminate h
     | None => ret tt
     end)
    (fun _ => ret tt) ;;
  (* finally *)
  write (set_worker None) ;;
  write (set_workerRunning false).

(** [worker.on('message', ...)]. *)
Definition on_message (msg : message) : M unit :=
  match msg with
  | MString str => write (set_cached str)
  | MObject => ret tt
  end ;;
  now <- Date_now ;;
  write (set_lastHighActivityAt now).

(** [worker.on('error', ...)]. *)
Definition on_error : M unit :=
  console_error "tsgen worker error" ;;
  stopWorker ;;
  startInternalLoop.

(** [worker.on('exit', ...)]. *)
Definition on_exit (code : Z) : M unit :=
  write (set_workerRunning false) ;;
  write (set_worker None) ;;
  if negb (code =? 0) then startInternalLoop else ret tt.

(** "WORKER-NODE (worker_threads)".  The three handlers are registered on
    every worker that is created; [step] below calls them. *)
Definition startWorker : M unit :=
  running <- read workerRunning ;;
  if running then
    now <- Date_now ;;
    write (set_lastHighActivityAt now)
  else
    ctor <- read WorkerCtor ;;
    if negb ctor then startInternalLoop
    else
      now <- Date_now ;;
      write (set_lastHighActivityAt now) ;;
      created <- try_catch
                   (h <- new_WorkerCtor ;;
                    write (set_worker (Some h)) ;;
                    ret true)
                   (fun _ =>
                      console_error
                        "tsgen: worker start failed, falling back to internal loop" ;;
                      startInternalLoop ;;
                      ret false) ;;
      if created then write (set_workerRunning true) else ret tt.

(** "decide which perf mode to use". *)
Definition requestPerf : M unit :=
  now <- Date_now ;;
  write (set_lastHighActivityAt now) ;;
  p <- read (fun s => prefer (cfg s)) ;;
  if String.eqb p "basic" then ret tt
  else if String.eqb p "worker" then startWorker
  else if String.eqb p "internal" then startInternalLoop
  else
    ctor <- read WorkerCtor ;;
    if ctor then startWorker else startInternalLoop.

(** "public get() - hot path optimized". *)
Definition get : M string :=
  wr <- read workerRunning ;;
  if wr then
    now <- Date_now ;;
    write (set_lastHighActivityAt now) ;;
    _ <- markCall ;;
    read cached
  else
    ir <- read internalRunning ;;
    if ir then
      now <- Date_now ;;
      write (set_lastHighActivityAt now) ;;
      _ <- markCall ;;
      read cached
    else
      shouldStartPerf <- markCall ;;
      (if shouldStartPerf then requestPerf else ret tt) ;;
      basicGet.

(** [start(mode)]; [None] is a call without argument. *)
Definition start (mode : option string) : M unit :=
  match mode with
  | Some m =>
      if String.eqb m "worker" then startWorker
      else if String.eqb m "internal" then startInternalLoop
      else requestPerf
  | None => requestPerf
  end.

Definition stop : M unit :=
  stopInternalLoop ;;
  stopWorker.

(** What [createTSGen] starts from: the host, and the variables it declares
    with a constant. *)
Record host : Type := mkHost {
  host_WorkerCtor : bool;
  host_clock_ms : Z;
  host_ms_readings : list Z;
  host_clock_ns : Z;
  host_ns_readings : list Z
}.

Definition declare (c : config) (h : host) : State :=
  {| cfg := c;
     cached := "";
     lastMs := 0;
     callsInWindow := 0;
     windowStartNano := 0;
     internalRunning := false;
     internalController := None;
     lastHighActivityAt := 0;
     workerRunning := false;
     worker := None;
     WorkerCtor := host_WorkerCtor h;
     clock_ms := host_clock_ms h;
     tape_ms := host_ms_readings h;
     clock_ns := host_clock_ns h;
     tape_ns := host_ns_readings h;
     spawn_fails := false;
     tasks := [];
     threads := [];
     console := [] |}.

(** [createTSGen(opts)]: the instance is the state it leaves. *)
Definition createTSGen (opts : options) (h : host) : outcome unit :=
  (ms <- platformGetNowMs ;;
   enc <- encode_ms ms ;;
   write (set_cached enc) ;;
   ms' <- platformGetNowMs ;;
   write (set_lastMs ms') ;;
   ns <- platformGetNano ;;
   write (set_windowStartNano ns))
  (declare (Object_assign defaultOptions opts) h).

(* ------------------------------------------------------------------ *)
(** * Runs: calls of the interface and turns of the event loop          *)
(* ------------------------------------------------------------------ *)

Inductive action : Type :=
| CallGet                              (* get() *)
| CallStart (mode : option string)     (* start(mode) *)
| CallStop                             (* stop() *)
| ResumeLoop (i : nat)                 (* the event loop resumes parked task [i] *)
| RunWorker (h : nat)                  (* thread [h] runs to its next yield *)
| DeliverMessage (h : nat)             (* 'message' event of worker [h] *)
| DeliverError (h : nat)               (* 'error' event of worker [h] *)
| DeliverExit (h : nat) (code : Z).    (* 'exit' event of worker [h] *)

(** One turn: what happens, and what the host answers during it. *)
Record event : Type := mkEvent {
  act : action;
  ms_readings : list Z;    (* the readings of [Date.now()] *)
  ns_readings : list Z;    (* the readings of [process.hrtime.bigint()] *)
  spawn_throws : bool      (* whether a Worker constructor call throws *)
}.

Definition resume_loop (i : nat) : M unit :=
  ts <- read tasks ;;
  match nth_error ts i with
  | Some localLastMs =>
      write (set_tasks (list_remove ts i)) ;;
      run_async (internal_resume localLastMs)
  | None => ret tt
  end.

Definition run_worker (h : nat) : M unit :=
  t <- read (get_thread h) ;;
  match t with
  | Some th =>
      match t_status th with
      | Spawned => WorkerScript.main h
      | Looping => WorkerScript.run_loop h
      | _ => ret tt
      end
  | None => ret tt
  end.

Definition deliver_message (h : nat) : M unit :=
  t <- read (get_thread h) ;;
  match t with
  | Some th =>
      match t_status th, t_outbox th with
      | Gone, _ => ret tt
      | _, msg :: rest =>
          on_thread h (with_outbox rest) ;;
          on_message msg
      | _, [] => ret tt
      end
  | None => ret tt
  end.

Definition deliver_error (h : nat) : M unit :=
  t <- read (get_thread h) ;;
  match t with
  | Some th =>
      match t_status th with
      | Spawned | Looping | Crashed =>
          on_thread h (with_status (Exiting 1)) ;;
          on_error
      | _ => ret tt
      end
  | None => ret tt
  end.

(** A thread that is stopping exits with its own code; a running one may
    exit on its own, with the code of the event. *)
Definition deliver_exit (h : nat) (code : Z) : M unit :=
  t <- read (get_thread h) ;;
  match t with
  | Some th =>
      match t_status th with
      | Exiting c =>
          on_thread h (fun t => mkThread Gone (t_lastMs t) []) ;;
          on_exit c
      | Spawned | Looping =>
          on_thread h (fun t => mkThread Gone (t_lastMs t) []) ;;
          on_exit code
      | _ => ret tt
      end
  | None => ret tt
  end.

Definition load (e : event) (s : State) : State :=
  set_spawn_fails (spawn_throws e)
    (set_tape_ns (ns_readings e) (set_tape_ms (ms_readings e) s)).

(** One turn of the event loop; a [get()] returns its string. *)
Definition step (e : event) : M (option string) :=
  fun s =>
    (match act e with
     | CallGet => v <- get ;; ret (Some v)
     | CallStart mode => start mode ;; ret None
     | CallStop => stop ;; ret None
     | ResumeLoop i => resume_loop i ;; ret None
     | RunWorker h => run_worker h ;; ret None
     | DeliverMessage h => deliver_message h ;; ret None
     | DeliverError h => deliver_error h ;; ret None
     | DeliverExit h code => deliver_exit h code ;; ret None
     end) (load e s).

(** A run: the states it goes through, from the first. *)
Fixpoint run (evs : list event) (s : State) : outcome (list State) :=
  match evs with
  | [] => Done [s] s
  | e :: rest =>
      match step e s with
      | Done _ s' =>
          match run rest s' with
          | Done l s'' => Done (s :: l) s''
          | Throw x s'' => Throw x s''
          | OutOfFuel => OutOfFuel
          end
      | Throw x s' => Throw x s'
      | OutOfFuel => OutOfFuel
      end
  end.

(** The states a controller can be in. *)
Inductive reachable : State -> Prop :=
| reach_create (opts : options) (h : host) (s : State) :
    createTSGen opts h = Done tt s -> reachable s
| reach_step (s : State) (e : event) (v : option string) (s' : State) :
    reachable s -> step e s = Done v s' -> reachable s'.

(* ------------------------------------------------------------------ *)
(** * Notions used to state the properties                              *)
(* ------------------------------------------------------------------ *)

(** The inputs that denote an integer: a BigInt, or an integral Number. *)
Definition is_integer_input (v : value) : bool :=
  match v with
  | VBigInt _ => true
  | VNumber x => is_integral x
  end.

Definition integer_of (v : value) : Z :=
  match v with
  | VBigInt n => n
  | VNumber x => int_value x
  end.

(** The rate window of the specification and its [record_call], written
    from the specification's algorithm: increment the counter; read the
    elapsed time since the window start; if it has reached the window,
    evaluate [counter >= threshold_calls], reset the counter to 0 and the
    window start to now, and return the evaluation; otherwise return false
    without resetting.  Times are in nanoseconds, the window in whole
    microseconds. *)
Record RateWindow : Type := mkRateWindow {
  count_in_window : Z;
  window_start : Z
}.

Definition record_call (threshold_calls threshold_window now : Z)
    (w : RateWindow) : bool * RateWindow :=
  let counter := count_in_window w + 1 in
  let elapsed := Z.quot (now - window_start w) 1000 in
  if threshold_window <=? elapsed then
    (threshold_calls <=? counter, mkRateWindow 0 now)
  else
    (false, mkRateWindow counter (window_start w)).

Definition rate_window (s : State) : RateWindow :=
  mkRateWindow (callsInWindow s) (windowStartNano s).

(** The reading the nanosecond clock gives next. *)
Definition next_ns (s : State) : Z :=
  match tape_ns s with
  | [] => clock_ns s
  | t :: _ => t
  end.

(** [k] calls of [markCall] in a row. *)
Fixpoint burst (k : nat) : M (list bool) :=
  match k with
  | O => ret []
  | S k' =>
      b <- markCall ;;
      bs <- burst k' ;;
      ret (b :: bs)
  end.

(** What the call-rate monitor answers to the next call. *)
Definition signal (s : State) : bool :=
  match markCall s with
  | Done b _ => b
  | _ => false
  end.

(** The Numbers of the next call of the monitor are below 2^53, where every
    integer is a double: the counter after its increment, and the
    microseconds elapsed since the window start. *)
Definition exact_numbers (s : State) : Prop :=
  Z.abs (callsInWindow s + 1) < 2 ^ 53 /\
  Z.abs (Z.quot (next_ns s - windowStartNano s) 1000) < 2 ^ 53.

(** [start('worker')] and [start('internal')]: the explicit controls that
    bypass the configuration. *)
Definition explicit_start (e : event) : bool :=
  match act e with
  | CallStart (Some m) => String.eqb m "worker" || String.eqb m "internal"
  | _ => false
  end.

(** No background refresher exists: no parked loop task, no worker thread. *)
Definition no_refresher (s : State) : Prop :=
  tasks s = [] /\ threads s = [].

(** The reading the millisecond clock gives next, and the host after a
    read of either clock. *)
Definition next_ms (s : State) : Z :=
  match tape_ms s with
  | [] => clock_ms s
  | t :: _ => t
  end.

Definition tick_ms (s : State) : State :=
  match tape_ms s with
  | [] => s
  | t :: rest => set_tape_ms rest (set_clock_ms t s)
  end.

Definition tick_ns (s : State) : State :=
  match tape_ns s with
  | [] => s
  | t :: rest => set_tape_ns rest (set_clock_ns t s)
  end.

(** Weakest precondition: [m] run from [s] ends in [Q] when it returns, in
    [E] when it throws, and does not run out of fuel. *)
Definition wp {A : Type} (m : M A) (Q : A -> State -> Prop)
    (E : error -> State -> Prop) (s : State) : Prop :=
  match m s with
  | Done a s' => Q a s'
  | Throw e s' => E e s'
  | OutOfFuel => False
  end.

Definition no_throw : error -> State -> Prop := fun _ _ => False.

(** A configuration the specification calls invalid: zero calls, a negative
    window. *)
Definition invalid_options : options :=
  {| opt_thresholdCalls := Some 0;
     opt_thresholdWindowUs := Some (-5);
     opt_perfCooldownMs := None;
     opt_prefer := None |}.

(** A host with worker threads, at millisecond 1700000000000. *)
Definition sample_host : host :=
  {| host_WorkerCtor := true;
     host_clock_ms := 1700000000000;
     host_ms_readings := [];
     host_clock_ns := 0;
     host_ns_readings := [] |}.

(** The invariant of a controller configured with [prefer: 'basic'] that
    was never started explicitly. *)
Definition stays_basic (s : State) : Prop :=
  prefer (cfg s) = "basic" /\
  workerRunning s = false /\ internalRunning s = false /\
  worker s = None /\ tasks s = [] /\ threads s = [].

Definition basic_options : options :=
  {| opt_thresholdCalls := None; opt_thresholdWindowUs := None;
     opt_perfCooldownMs := None; opt_prefer := Some "basic" |}.

(** An event that draws nothing from the host. *)
Definition quiet (a : action) : event :=
  {| act := a; ms_readings := []; ns_readings := []; spawn_throws := false |}.

(** A [get()] at nanosecond [ns]. *)
Definition get_at (ns : Z) : event :=
  {| act := CallGet; ms_readings := []; ns_readings := [ns];
     spawn_throws := false |}.

(** Seven calls within six microseconds: the fifth to seventh would
    promote under any other policy. *)
Definition rapid_gets : list event :=
  map get_at [100; 200; 300; 400; 5100; 5200; 5300; 10300; 10400].

(** What the invariants below look at. *)
Definition view (s : State) :
    string * list thread * Z * list Z * option bool :=
  (cached s, threads s, clock_ms s, tape_ms s, internalController s).

(** Enough fuel for a loop that stands at its head with [local] as the last
    reading it acted on. *)
Definition fuel_ok (fuel : nat) (local : Z) (s : State) : Prop :=
  (List.length (tape_ms s) + 2 <= fuel)%nat \/
  (tape_ms s = [] /\ local = clock_ms s /\ (1 <= fuel)%nat).

(** The state after a write to the cache when a message is delivered. *)
Definition accept (msg : message) (s : State) : State :=
  match msg with
  | MString x => set_cached x s
  | MObject => s
  end.

(** A message that can be stored in the cache: a string is a valid
    EncodedTimestamp. *)
Definition message_ok (m : message) : Prop :=
  match m with
  | MString x => valid_encoded x
  | MObject => True
  end.

(** The cache holds a valid EncodedTimestamp, and so does every string a
    worker has posted. *)
Definition cache_valid (s : State) : Prop :=
  valid_encoded (cached s) /\
  Forall (fun t => Forall message_ok (t_outbox t)) (threads s).

(** The controller [createTSGen()] builds on the sample host. *)
Definition sample_instance : State :=
  match createTSGen no_options sample_host with
  | Done _ s => s
  | _ => declare defaultOptions sample_host
  end.

Definition worker_options : options :=
  {| opt_thresholdCalls := None; opt_thresholdWindowUs := None;
     opt_perfCooldownMs := None; opt_prefer := Some "worker" |}.

(** An event during which the millisecond clock gives [ms]. *)
Definition at_ms (a : action) (ms : list Z) : event :=
  {| act := a; ms_readings := ms; ns_readings := []; spawn_throws := false |}.

(** The controller of [createTSGen({ prefer: 'worker' })] on the sample
    host. *)
Definition worker_instance : State :=
  match createTSGen worker_options sample_host with
  | Done _ s => s
  | _ => declare defaultOptions sample_host
  end.

(** [start('worker')]; the worker runs and its first message arrives;
    [stop()]. *)
Definition started_then_stopped : list event :=
  [ at_ms (CallStart (Some "worker")) [1700000000001];
    at_ms (RunWorker 0) [1700000000002];
    quiet (DeliverMessage 0);
    quiet CallStop ].

(** The 'exit' event of the worker that [stop()] terminated. *)
Definition exit_of_terminated : event :=
  at_ms (DeliverExit 0 0) [1700000000005].

(** The state a run ends in. *)
Definition final (evs : list event) (s : State) : option State :=
  match run evs s with
  | Done _ s' => Some s'
  | _ => None
  end.

(** No reading of the list is more than [cooldown] after an earlier one. *)
Fixpoint within_cooldown (cooldown : Z) (l : list Z) : Prop :=
  match l with
  | [] => True
  | a :: rest =>
      Forall (fun b => b - a <= cooldown) rest /\ within_cooldown cooldown rest
  end.

(** The idle cooldown does not expire within the turn: of the readings the
    millisecond clock gives in this turn, none is more than
    [perfCooldownMs] after an earlier one. *)
Definition no_idle_gap (s : State) : Prop :=
  within_cooldown (perfCooldownMs (cfg s)) (tape_ms s).

(** [m] ends normally with the controller in Promoted(CooperativeLoop); if
    no internal loop was running, a new loop task is parked in the event
    loop and the cache has been written afresh with a valid encoding. *)
Definition ends_in_loop {A : Type} (m : M A) (s : State) : Prop :=
  exists a s',
    m s = Done a s' /\
    controller_state s' = Promoted CooperativeLoop /\
    (internalRunning s = false ->
       (exists l, tasks s' = (tasks s ++ [l])%list) /\
       cached s' = encode48 (clock_ms s')).

(** A worker that is running. *)
Definition alive (t : thread) : bool :=
  match t_status t with
  | Spawned | Looping | Crashed => true
  | _ => false
  end.

(** The code the 'exit' handler receives for thread [t] when the event
    carries [code]. *)
Definition exit_code (t : thread) (code : Z) : option Z :=
  match t_status t with
  | Exiting c => Some c
  | Spawned | Looping => Some code
  | _ => None
  end.

(** What holds at the head of the internal loop, [local] being the reading
    it last acted on, while the cooldown counted from the activity timer
    [a] cannot expire: the stop flag is down, and the readings to come are
    within the cooldown of [a], unless the clock stands still at [local]. *)
Definition at_head (a cooldown local : Z) (s : State) : Prop :=
  internalController s = Some false /\
  perfCooldownMs (cfg s) = cooldown /\
  lastHighActivityAt s = a /\
  Forall (fun b => b - a <= cooldown) (tape_ms s) /\
  (clock_ms s - a <= cooldown \/ (tape_ms s = [] /\ local = clock_ms s)).

(** What the loop keeps while it runs. *)
Definition same_control (s s' : State) : Prop :=
  cfg s' = cfg s /\
  internalRunning s' = internalRunning s /\
  internalController s' = internalController s /\
  lastHighActivityAt s' = lastHighActivityAt s /\
  workerRunning s' = workerRunning s /\ worker s' = worker s /\
  tasks s' = tasks s /\ threads s' = threads s.

(** [start('worker')] about to run while the Worker constructor throws;
    the clock ticks four times during the turn. *)
Definition spawn_failing : State :=
  load {| act := CallStart (Some "worker");
          ms_readings := [1700000000001; 1700000000002; 1700000000003;
                          1700000000004; 1700000000005];
          ns_readings := [];
          spawn_throws := true |}
       worker_instance.

(** The same call in a turn that stalls for two seconds after the loop has
    taken its first reading. *)
Definition stalled_fallback : State :=
  load {| act := CallStart (Some "worker");
          ms_readings := [1700000000001; 1700000000001; 1700000000001;
                          1700000002002];
          ns_readings := [];
          spawn_throws := true |}
       worker_instance.

(** The state [start('worker')] leaves there. *)
Definition stalled_fallback_end : State :=
  Eval vm_compute in
    match startWorker stalled_fallback with
    | Done _ s => s
    | _ => stalled_fallback
    end.

(** A controller whose worker runs. *)
Definition with_worker : State :=
  match final [ at_ms (CallStart (Some "worker")) [1700000000001];
                at_ms (RunWorker 0) [1700000000002] ] worker_instance with
  | Some s => s
  | None => worker_instance
  end.

(** The turn in which an event of that worker is delivered; the clock ticks
    twice during the turn. *)
Definition failing_worker : State :=
  load (at_ms (DeliverError 0)
          [1700000000003; 1700000000004; 1700000000005])
       with_worker.

(** The fifth [get()] of a window, six microseconds after its start, while
    the Worker constructor throws. *)
Definition busy_get : State :=
  load {| act := CallGet;
          ms_readings := [1700000000001; 1700000000002; 1700000000003;
                          1700000000004; 1700000000005; 1700000000006];
          ns_readings := [6000];
          spawn_throws := true |}
       (set_callsInWindow 4 worker_instance).

(** A non-decreasing sequence of 48-bit readings, none below [lo]. *)
Fixpoint nondecreasing_from (lo : Z) (l : list Z) : Prop :=
  match l with
  | [] => True
  | x :: rest => lo <= x < 2 ^ 48 /\ nondecreasing_from x rest
  end.

(** The millisecond clock is a 48-bit non-decreasing clock: from the reading
    the host starts with, through the readings of construction, to those of
    every turn of the run, in this order. *)
Definition clock_nondecreasing (h : host) (evs : list event) : Prop :=
  0 <= host_clock_ms h < 2 ^ 48 /\
  nondecreasing_from (host_clock_ms h)
    (host_ms_readings h ++ List.concat (map ms_readings evs))%list.

(** A single refresher has been at work: no worker thread was ever created
    (the cache is refreshed by internal loops only), or one worker thread
    was and no internal loop was ever started.  [threads] only grows, and
    [internalController] never goes back to [null]. *)
Definition single_refresher (s : State) : Prop :=
  threads s = [] \/
  (internalController s = None /\ exists t, threads s = [t]).

(** The strings of an outbox encode non-decreasing readings between [lo]
    and [hi]. *)
Fixpoint pending_from (lo hi : Z) (o : list message) : Prop :=
  match o with
  | [] => True
  | MObject :: rest => pending_from lo hi rest
  | MString x :: rest =>
      exists m, x = encode48 m /\ lo <= m <= hi /\ pending_from m hi rest
  end.

(** The invariant of a run with a non-decreasing clock, [future] being the
    readings of the turns to come: the cache encodes a reading [m] between
    [lo] and the clock, and what the worker has posted comes after [m], in
    order -- as long as a single refresher has been at work. *)
Definition ordered (lo : Z) (future : list Z) (s : State) : Prop :=
  0 <= lo /\ 0 <= clock_ms s < 2 ^ 48 /\
  nondecreasing_from (clock_ms s) (tape_ms s ++ future)%list /\
  (single_refresher s ->
   exists m,
     lo <= m <= clock_ms s /\ cached s = encode48 m /\
     Forall (fun t => pending_from m (clock_ms s) (t_outbox t)) (threads s)).

(** The encoding of a 48-bit reading that is at least [lo]. *)
Definition above (lo : Z) (x : string) : Prop :=
  exists m, x = encode48 m /\ lo <= m < 2 ^ 48.

(** The strings that the calls of [get()] served from the cache (the
    Promoted path) return along a run, in order. *)
Fixpoint promoted_gets (evs : list event) (s : State) : list string :=
  match evs with
  | [] => []
  | e :: rest =>
      match step e s with
      | Done v s' =>
          match act e, controller_state s, v with
          | CallGet, Promoted _, Some x => x :: promoted_gets rest s'
          | _, _, _ => promoted_gets rest s'
          end
      | _ => []
      end
  end.

(** A run on the sample host in which an internal loop and a worker both
    refresh the cache: [start('internal')], [start('worker')]; the worker
    posts the encoding of millisecond ...001; the loop then writes that of
    ...002; a [get()]; the worker's message is delivered; a [get()]. *)
Definition race : list event :=
  [ quiet (CallStart (Some "internal"));
    quiet (CallStart (Some "worker"));
    at_ms (RunWorker 0) [1700000000001];
    at_ms (ResumeLoop 0) [1700000000002];
    quiet CallGet;
    quiet (DeliverMessage 0);
    quiet CallGet ].

(** A run on the sample host in which the worker is the only refresher:
    [start('worker')], then twice: the worker runs one millisecond later,
    its message is delivered, a [get()]. *)
Definition worker_only : list event :=
  [ quiet (CallStart (Some "worker"));
    at_ms (RunWorker 0) [1700000000001];
    quiet (DeliverMessage 0);
    quiet CallGet;
    at_ms (RunWorker 0) [1700000000002];
    quiet (DeliverMessage 0);
    quiet CallGet ].

(** The states the run [worker_only] goes through, and the last one. *)
Definition worker_only_states : list State :=
  Eval vm_compute in
    match run worker_only worker_instance with
    | Done l _ => l
    | _ => []
    end.

Definition worker_only_final : State :=
  Eval vm_compute in
    match final worker_only worker_instance with
    | Some s => s
    | None => worker_instance
    end.

(** The state [stop()] leaves in the run [started_then_stopped], and the
    state after the worker's 'exit' event. *)
Definition stopped_state : State :=
  Eval vm_compute in
    match final started_then_stopped worker_instance with
    | Some s => s
    | None => worker_instance
    end.

Definition state_after_exit : State :=
  Eval vm_compute in
    match step exit_of_terminated stopped_state with
    | Done _ s => s
    | _ => stopped_state
    end.

(* ------------------------------------------------------------------ *)
(** * Notions used to state the further properties                      *)
(* ------------------------------------------------------------------ *)

(** A message whose string encodes a reading between [lo] and [hi]. *)
Definition message_between (lo hi : Z) (m : message) : Prop :=
  match m with
  | MString x => exists r, x = encode48 r /\ lo <= r <= hi
  | MObject => True
  end.

(** The cache and every posted string encode readings between [lo] and the
    clock, and the clock is a non-decreasing 48-bit clock that has reached
    [floor]; [future] is what the turns to come will read. *)
Definition lagging (lo floor : Z) (future : list Z) (s : State) : Prop :=
  0 <= lo /\ lo <= floor /\ floor <= clock_ms s < 2 ^ 48 /\
  nondecreasing_from (clock_ms s) (tape_ms s ++ future)%list /\
  (exists r, cached s = encode48 r /\ lo <= r <= clock_ms s) /\
  Forall (fun t => Forall (message_between lo (clock_ms s)) (t_outbox t))
         (threads s).

(** What the calls of [get()] return along a run, each with the reading of
    the millisecond clock when it returns. *)
Fixpoint get_results (evs : list event) (s : State) : list (string * Z) :=
  match evs with
  | [] => []
  | e :: rest =>
      match step e s with
      | Done v s' =>
          match act e, v with
          | CallGet, Some x => (x, clock_ms s') :: get_results rest s'
          | _, _ => get_results rest s'
          end
      | _ => []
      end
  end.

(** The strings returned by the calls of [get()] that computed directly
    (both flags down), in order. *)
Fixpoint direct_gets (evs : list event) (s : State) : list string :=
  match evs with
  | [] => []
  | e :: rest =>
      match step e s with
      | Done v s' =>
          match act e, controller_state s, v with
          | CallGet, DirectCompute, Some x => x :: direct_gets rest s'
          | _, _, _ => direct_gets rest s'
          end
      | _ => []
      end
  end.

(** [n] calls of [get()] in a row, without a turn of the event loop in
    between, as in the loops of bench.js. *)
Fixpoint gets (n : nat) : M (list string) :=
  match n with
  | O => ret []
  | S n' =>
      v <- get ;;
      vs <- gets n' ;;
      ret (v :: vs)
  end.

(** The fields of the controller that [get()] on the Promoted path and the
    telemetry leave alone. *)
Definition same_refreshers (s s' : State) : Prop :=
  cfg s' = cfg s /\ cached s' = cached s /\
  internalRunning s' = internalRunning s /\
  internalController s' = internalController s /\
  workerRunning s' = workerRunning s /\ worker s' = worker s /\
  WorkerCtor s' = WorkerCtor s /\ spawn_fails s' = spawn_fails s /\
  tasks s' = tasks s /\ threads s' = threads s.

(** Three calls of [get()], one millisecond apart. *)
Definition spaced_gets : list event :=
  [ at_ms CallGet [1700000000001];
    at_ms CallGet [1700000000002];
    at_ms CallGet [1700000000003] ].

(** The controller of [createTSGen({ prefer: 'basic' })] on the sample
    host. *)
Definition basic_instance : State :=
  match createTSGen basic_options sample_host with
  | Done _ s => s
  | _ => declare defaultOptions sample_host
  end.

(** [bench(name, gen, loops)] of bench.js without its report: the warm-up
    calls, then the timed calls between two readings of the nanosecond
    counter; the strings of the timed calls are kept. *)
Definition bench (loops : nat) : M (list string) :=
  _ <- gets 2000 ;;
  t0 <- platformGetNano ;;
  vs <- gets loops ;;
  t1 <- platformGetNano ;;
  ret vs.

(** A controller whose internal loop is parked: [start('internal')] on the
    sample host. *)
Definition with_loop : State :=
  match final [quiet (CallStart (Some "internal"))] sample_instance with
  | Some s => s
  | None => sample_instance
  end.

(** The turn that resumes the parked loop five seconds after the last
    call. *)
Definition late_resume : State :=
  load (at_ms (ResumeLoop 0) [1700000005000]) with_loop.

(** The fifth [get()] of a window, six microseconds after its start, on the
    default controller of the sample host. *)
Definition hot_get : State :=
  load {| act := CallGet;
          ms_readings := [1700000000001];
          ns_readings := [6000];
          spawn_throws := false |}
       (set_callsInWindow 4 sample_instance).

(** What a turn of worker thread [h] leaves alone: every variable of the
    controller, and the other threads. *)
Definition only_thread (h : nat) (s s' : State) : Prop :=
  cfg s' = cfg s /\ cached s' = cached s /\
  internalRunning s' = internalRunning s /\
  internalController s' = internalController s /\
  lastHighActivityAt s' = lastHighActivityAt s /\
  workerRunning s' = workerRunning s /\ worker s' = worker s /\
  tasks s' = tasks s /\ console s' = console s /\
  List.length (threads s') = List.length (threads s) /\
  forall h', h' <> h -> get_thread h' s' = get_thread h' s.

(** What thread [t] has become after a turn in which it posted the strings
    [posted]: it is looping, its [lastMs] is the clock, and [posted] has
    been appended to what it had posted before; the last string posted is
    the encoding of the clock. *)
Definition caught_up (t : thread) (posted : list string) (t' : thread)
    (s' : State) : Prop :=
  t_status t' = Looping /\
  t_lastMs t' = clock_ms s' /\
  t_outbox t' = (t_outbox t ++ map MString posted)%list /\
  (posted = [] -> t_lastMs t' = t_lastMs t) /\
  (posted <> [] -> last posted "" = encode48 (clock_ms s')).

(** The first run of the worker of [with_worker]'s controller. *)
Definition first_worker_turn : State :=
  match final [ at_ms (CallStart (Some "worker")) [1700000000001] ]
              worker_instance with
  | Some s => load (at_ms (RunWorker 0) [1700000000002; 1700000000003]) s
  | None => worker_instance
  end.

(** Turns that deliver the messages of worker [h], one each. *)
Definition deliveries (h : nat) (evs : list event) : Prop :=
  Forall (fun e => act e = DeliverMessage h) evs.

(** The two 'message' events that follow [first_worker_turn]. *)
Definition two_deliveries : list event :=
  [ quiet (DeliverMessage 0); quiet (DeliverMessage 0) ].

(** An explicit [start] on the 'basic' controller of the sample host, in a
    turn during which the clock ticks twice. *)
Definition spaced_start : State :=
  load (at_ms (CallStart (Some "internal"))
          [1700000000001; 1700000000002; 1700000000003])
       basic_instance.

(** What the internal loop never writes. *)
Definition loop_frame (s s' : State) : Prop :=
  cfg s' = cfg s /\ lastHighActivityAt s' = lastHighActivityAt s /\
  workerRunning s' = workerRunning s /\ worker s' = worker s /\
  WorkerCtor s' = WorkerCtor s /\ spawn_fails s' = spawn_fails s /\
  tasks s' = tasks s /\ threads s' = threads s /\ console s' = console s.

(** The flags agree with what they stand for: the worker flag is up exactly
    when a worker handle is held, the handle is that of a thread that was
    created, and while the internal flag is up a loop task is parked and
    the stop flag is down. *)
Definition flags_consistent (s : State) : Prop :=
  (workerRunning s = true <-> worker s <> None) /\
  (forall h, worker s = Some h -> (h < List.length (threads s))%nat) /\
  (internalRunning s = true ->
     internalController s = Some false /\ tasks s <> []).

(** A worker that has posted its first message, not yet delivered. *)
Definition pending_message : State := with_worker.

(** [start('worker')], [stop()] and [start('worker')] again, before the
    'exit' event of the first worker: thread 0 is stopping, thread 1 is the
    worker in use. *)
Definition restarted_worker : State :=
  match final [ at_ms (CallStart (Some "worker")) [1700000000001];
                quiet CallStop;
                at_ms (CallStart (Some "worker")) [1700000000002] ]
              worker_instance with
  | Some s => s
  | None => worker_instance
  end.
(* ================================================================== *)
(** * Properties of the encoder                                         *)
(* ================================================================== *)

Example encode48_zero : encode48 0 = "--------".
Proof. reflexivity. Qed.

Example encode48_sample : encode48 1700000000000 = "-NjEtLV-".
Proof. vm_compute. reflexivity. Qed.

(** ** The alphabet as a table *)


Lemma in_groups (d : Z) : 0 <= d < 64 -> In d groups.
Proof.
  intros Hd. unfold groups.
  replace d with (Z.of_nat (Z.to_nat d)) by lia.
  apply in_map, in_seq. lia.
Qed.

(** A property checked on the 64 groups holds on each of them. *)
Lemma groups_forall (P : Z -> bool) :
  forallb P groups = true -> forall d, 0 <= d < 64 -> P d = true.
Proof.
  intros H d Hd. rewrite forallb_forall in H. apply H, in_groups, Hd.
Qed.

Lemma char_at_sym (d : Z) :
  0 <= d < 64 -> char_at ASCII_BASE64_ALPHA d = Some (sym d).
Proof.
  revert d. 
  assert (H : forallb (fun d => match char_at ASCII_BASE64_ALPHA d with
                                | Some c => Ascii.eqb c (sym d)
                                | None => false
                                end) groups = true) by (vm_compute; reflexivity).
  intros d Hd. pose proof (groups_forall _ H d Hd) as Hc. cbv beta in Hc.
  destruct (char_at ASCII_BASE64_ALPHA d) as [c|]; [|discriminate].
  apply Ascii.eqb_eq in Hc. now subst.
Qed.

Lemma ordinal_sym (d : Z) :
  0 <= d < 64 -> ordinal_in ASCII_BASE64_ALPHA (sym d) = Some d.
Proof.
  revert d.
  assert (H : forallb (fun d => match ordinal_in ASCII_BASE64_ALPHA (sym d) with
                                | Some k => k =? d
                                | None => false
                                end) groups = true) by (vm_compute; reflexivity).
  intros d Hd. pose proof (groups_forall _ H d Hd) as Hc. cbv beta in Hc.
  destruct (ordinal_in ASCII_BASE64_ALPHA (sym d)) as [k|]; [|discriminate].
  apply Z.eqb_eq in Hc. now subst.
Qed.

(** The alphabet is strictly ASCII-ordered. *)
Lemma sym_lt (i j : Z) :
  0 <= i -> i < j -> j < 64 -> Ascii.compare (sym i) (sym j) = Lt.
Proof.
  intros Hi Hij Hj.
  assert (H : forallb (fun i => forallb (fun j =>
                 implb (i <? j)
                       (match Ascii.compare (sym i) (sym j) with
                        | Lt => true | _ => false end)) groups) groups = true)
    by (vm_compute; reflexivity).
  pose proof (groups_forall _ H i ltac:(lia)) as Hc. cbv beta in Hc.
  pose proof (groups_forall _ Hc j ltac:(lia)) as Hd. cbv beta in Hd.
  replace (i <? j) with true in Hd by (symmetry; apply Z.ltb_lt; lia).
  simpl in Hd. now destruct (Ascii.compare (sym i) (sym j)).
Qed.

Lemma ascii_compare_refl (c : ascii) : Ascii.compare c c = Eq.
Proof. unfold Ascii.compare. apply N.compare_refl. Qed.

(** ** The eight groups of a 48-bit value *)


Lemma group_div (n s : Z) :
  0 <= s -> Z.land (Z.shiftr n s) 63 = (n / 2 ^ s) mod 64.
Proof.
  intros Hs. rewrite Z.shiftr_div_pow2 by assumption.
  change 63 with (Z.ones 6). rewrite Z.land_ones by lia. reflexivity.
Qed.

Lemma mask48 (n : Z) : Z.land n (Z.shiftl 1 48 - 1) = n mod 2 ^ 48.
Proof.
  change (Z.shiftl 1 48 - 1) with (Z.ones 48). apply Z.land_ones. lia.
Qed.

Lemma group_range (n s : Z) : 0 <= s -> 0 <= Z.land (Z.shiftr n s) 63 < 64.
Proof. intros Hs. rewrite group_div by assumption. apply Z.mod_pos_bound. lia. Qed.

(** The loop of the encoder produces the eight symbols in order. *)
Lemma encode48_digits (n : Z) : encode48 n = enc_digits 8 (n mod 2 ^ 48).
Proof.
  unfold encode48. rewrite mask48. set (m := n mod 2 ^ 48).
  cbn [encode_loop Nat.ltb Nat.leb new_Array repeat array_set].
  repeat match goal with
  | |- context [char_at ASCII_BASE64_ALPHA (Z.land (Z.shiftr m ?s) 63)] =>
      rewrite (char_at_sym (Z.land (Z.shiftr m s) 63))
        by (apply group_range; vm_compute; discriminate);
      rewrite (group_div m s) by (vm_compute; discriminate)
  end.
  reflexivity.
Qed.

Lemma pow64_pos (k : nat) : 0 < 64 ^ Z.of_nat k.
Proof. apply Z.pow_pos_nonneg; lia. Qed.

Lemma pow64_succ (k : nat) : 64 ^ Z.of_nat (S k) = 64 ^ Z.of_nat k * 64.
Proof. rewrite Nat2Z.inj_succ, Z.pow_succ_r by lia. lia. Qed.

(** The low [k] digits only depend on the value modulo [64^k]. *)
Lemma enc_digits_low (k : nat) (n q : Z) :
  enc_digits k (n + q * 64 ^ Z.of_nat k) = enc_digits k n.
Proof.
  revert n q. induction k as [|k IH]; intros n q; [reflexivity|].
  cbn [enc_digits]. f_equal.
  - f_equal. rewrite pow64_succ.
    replace (n + q * (64 ^ Z.of_nat k * 64))
      with (n + (q * 64) * 64 ^ Z.of_nat k) by lia.
    rewrite Z.div_add by (pose proof (pow64_pos k); lia).
    apply Z.mod_add. lia.
  - rewrite pow64_succ.
    replace (n + q * (64 ^ Z.of_nat k * 64))
      with (n + (q * 64) * 64 ^ Z.of_nat k) by lia.
    apply IH.
Qed.

Lemma enc_digits_mod (k : nat) (n : Z) :
  enc_digits k (n mod 64 ^ Z.of_nat k) = enc_digits k n.
Proof.
  pose proof (pow64_pos k) as Hp.
  rewrite (Z.div_mod n (64 ^ Z.of_nat k)) at 2 by lia.
  rewrite Z.add_comm, (Z.mul_comm (64 ^ Z.of_nat k)).
  symmetry. apply enc_digits_low.
Qed.

Lemma enc_digits_length (k : nat) (n : Z) : String.length (enc_digits k n) = k.
Proof. induction k as [|k IH]; cbn; [reflexivity | now rewrite IH]. Qed.

Lemma enc_digits_in_alphabet (k : nat) (n : Z) : in_alphabet (enc_digits k n) = true.
Proof.
  induction k as [|k IH]; [reflexivity|].
  cbn [enc_digits in_alphabet].
  rewrite ordinal_sym by (apply Z.mod_pos_bound; lia). exact IH.
Qed.

(** Reading the digits back gives the value modulo [64^k]. *)
Lemma decode_enc_digits (k : nat) (n acc : Z) :
  decode_from acc (enc_digits k n)
  = Some (acc * 64 ^ Z.of_nat k + n mod 64 ^ Z.of_nat k).
Proof.
  revert acc. induction k as [|k IH]; intros acc.
  - cbn. rewrite Z.mod_1_r. f_equal. lia.
  - cbn [enc_digits decode_from].
    rewrite ordinal_sym by (apply Z.mod_pos_bound; lia).
    rewrite IH, pow64_succ. f_equal.
    pose proof (pow64_pos k) as Hp.
    rewrite (Z.rem_mul_r n (64 ^ Z.of_nat k) 64) by lia. lia.
Qed.

(** Numeric order of the values is lexicographic order of the digits. *)
Lemma enc_digits_lt (k : nat) (a b : Z) :
  0 <= a -> a < b -> b < 64 ^ Z.of_nat k ->
  String.compare (enc_digits k a) (enc_digits k b) = Lt.
Proof.
  revert a b. induction k as [|k IH]; intros a b Ha Hab Hb.
  - cbn in Hb. lia.
  - pose proof (pow64_pos k) as Hp. rewrite pow64_succ in Hb.
    cbn [enc_digits String.compare].
    assert (Hda : 0 <= a / 64 ^ Z.of_nat k < 64)
      by (split; [apply Z.div_pos; lia | apply Z.div_lt_upper_bound; lia]).
    assert (Hdb : 0 <= b / 64 ^ Z.of_nat k < 64)
      by (split; [apply Z.div_pos; lia | apply Z.div_lt_upper_bound; lia]).
    rewrite (Z.mod_small (a / _) 64), (Z.mod_small (b / _) 64) by assumption.
    assert (Hle : a / 64 ^ Z.of_nat k <= b / 64 ^ Z.of_nat k)
      by (apply Z.div_le_mono; lia).
    destruct (Z.eq_dec (a / 64 ^ Z.of_nat k) (b / 64 ^ Z.of_nat k)) as [Heq|Hne].
    + rewrite Heq, ascii_compare_refl.
      rewrite <- (enc_digits_mod k a), <- (enc_digits_mod k b).
      apply IH.
      * apply Z.mod_pos_bound; lia.
      * pose proof (Z.div_mod a (64 ^ Z.of_nat k)).
        pose proof (Z.div_mod b (64 ^ Z.of_nat k)). nia.
      * apply Z.mod_pos_bound; lia.
    + rewrite sym_lt by lia. reflexivity.
Qed.

Lemma encode48_length (n : Z) : String.length (encode48 n) = 8%nat.
Proof. rewrite encode48_digits. apply enc_digits_length. Qed.

Lemma encode48_in_alphabet (n : Z) : in_alphabet (encode48 n) = true.
Proof. rewrite encode48_digits. apply enc_digits_in_alphabet. Qed.

Lemma encode48_valid (n : Z) : valid_encoded (encode48 n).
Proof. split; [apply encode48_length | apply encode48_in_alphabet]. Qed.

Lemma encode48_mask (n : Z) : encode48 n = encode48 (n mod 2 ^ 48).
Proof. rewrite !encode48_digits. now rewrite Z.mod_mod by lia. Qed.

Lemma decode_encode48 (n : Z) : decode_ordinal (encode48 n) = Some (n mod 2 ^ 48).
Proof.
  unfold decode_ordinal. rewrite encode48_digits, decode_enc_digits.
  change (64 ^ Z.of_nat 8) with (2 ^ 48). rewrite Z.mod_mod by lia. reflexivity.
Qed.

Lemma encode48_lt (a b : Z) :
  0 <= a -> a < b -> b < 2 ^ 48 -> str_lt (encode48 a) (encode48 b).
Proof.
  intros Ha Hab Hb. unfold str_lt. rewrite !encode48_digits.
  rewrite !Z.mod_small by lia. apply enc_digits_lt; assumption.
Qed.

Lemma str_compare_refl (s : string) : String.compare s s = Eq.
Proof.
  induction s as [|c s IH]; [reflexivity|].
  cbn. now rewrite ascii_compare_refl.
Qed.

Lemma encode48_le (a b : Z) :
  0 <= a -> a <= b -> b < 2 ^ 48 -> str_le (encode48 a) (encode48 b).
Proof.
  intros Ha Hab Hb. unfold str_le.
  destruct (Z.eq_dec a b) as [->|Hne].
  - rewrite str_compare_refl. discriminate.
  - rewrite (encode48_lt a b) by lia. discriminate.
Qed.

Lemma toBase64Url48_int (z : Z) : toBase64Url48 (of_int z) = Ok (encode48 z).
Proof.
  unfold toBase64Url48, of_int, to_bigint, BigInt, is_integral, int_value.
  cbn. rewrite ?Z.mul_1_r. reflexivity.
Qed.

(* ================================================================== *)
(** * The encoder: the claims                                           *)
(* ================================================================== *)

(** C1. The encoder is injective and strictly order-preserving over the
    48-bit domain: for 48-bit integers [n1] and [n2], the ordinals of
    [toBase64Url48(n1)] read back give [n1], equal encodings come from
    equal integers, and [n1 < n2] gives [encode(n1) < encode(n2)] in
    lexicographic order. *)
Theorem encoder_roundtrip_and_order (n1 n2 : Z) :
  0 <= n1 < 2 ^ 48 -> 0 <= n2 < 2 ^ 48 ->
  exists s1 s2,
    toBase64Url48 (VBigInt n1) = Ok s1 /\
    toBase64Url48 (VBigInt n2) = Ok s2 /\
    toBase64Url48 (of_int n1) = Ok s1 /\
    decode_ordinal s1 = Some n1 /\
    (s1 = s2 -> n1 = n2) /\
    (n1 < n2 -> str_lt s1 s2).
Proof.
  intros H1 H2. exists (encode48 n1), (encode48 n2).
  split; [reflexivity|]. split; [reflexivity|].
  split; [apply toBase64Url48_int|].
  split.
  - rewrite decode_encode48. f_equal. apply Z.mod_small. exact H1.
  - split.
    + intros Heq.
      assert (Hd : decode_ordinal (encode48 n1) = decode_ordinal (encode48 n2))
        by now rewrite Heq.
      rewrite !decode_encode48, !Z.mod_small in Hd by assumption.
      now inversion Hd.
    + intros Hlt. apply encode48_lt; lia.
Qed.

Lemma encoder_roundtrip_and_order_witness :
  0 <= 1700000000000 < 2 ^ 48 /\ 0 <= 1700000000001 < 2 ^ 48 /\
  exists s1 s2,
    toBase64Url48 (VBigInt 1700000000000) = Ok s1 /\
    toBase64Url48 (VBigInt 1700000000001) = Ok s2 /\
    toBase64Url48 (of_int 1700000000000) = Ok s1 /\
    decode_ordinal s1 = Some 1700000000000 /\
    (s1 = s2 -> 1700000000000 = 1700000000001) /\
    (1700000000000 < 1700000000001 -> str_lt s1 s2).
Proof.
  split; [lia|]. split; [lia|].
  apply (encoder_roundtrip_and_order 1700000000000 1700000000001); lia.
Defined.

(** C2. The encoder is total on its domain: on every input that denotes an
    integer (a BigInt, or an integer-valued Number), of any sign and
    magnitude, it does not throw, keeps only the low 48 bits of the
    integer, and returns a string of exactly 8 symbols of the alphabet. *)
Theorem encoder_total_on_integers (v : value) :
  is_integer_input v = true ->
  toBase64Url48 v = Ok (encode48 (integer_of v)) /\
  toBase64Url48 v = toBase64Url48 (VBigInt (Z.land (integer_of v) (2 ^ 48 - 1))) /\
  String.length (encode48 (integer_of v)) = 8%nat /\
  in_alphabet (encode48 (integer_of v)) = true.
Proof.
  intros Hv.
  assert (H : toBase64Url48 v = Ok (encode48 (integer_of v))).
  { destruct v as [n|x]; [reflexivity|].
    unfold toBase64Url48, to_bigint, BigInt. cbn in Hv. now rewrite Hv. }
  split; [exact H|]. split.
  - rewrite H. cbn [toBase64Url48 to_bigint]. f_equal.
    change (2 ^ 48 - 1) with (Z.shiftl 1 48 - 1). rewrite mask48.
    apply encode48_mask.
  - split; [apply encode48_length | apply encode48_in_alphabet].
Qed.

Lemma encoder_total_on_integers_witness :
  is_integer_input (VNumber (Double (-3) 50)) = true /\
  toBase64Url48 (VNumber (Double (-3) 50))
  = Ok (encode48 (integer_of (VNumber (Double (-3) 50)))) /\
  toBase64Url48 (VNumber (Double (-3) 50))
  = toBase64Url48
      (VBigInt (Z.land (integer_of (VNumber (Double (-3) 50))) (2 ^ 48 - 1))) /\
  String.length (encode48 (integer_of (VNumber (Double (-3) 50)))) = 8%nat /\
  in_alphabet (encode48 (integer_of (VNumber (Double (-3) 50)))) = true.
Proof.
  split; [reflexivity|].
  apply (encoder_total_on_integers (VNumber (Double (-3) 50))). reflexivity.
Defined.

(** C10. The encoder of the worker script is extensionally equal to the
    encoder of the main module: the two alphabets are the same string, on
    every input both give the same result, and a result that is a string
    has 8 symbols of the alphabet. *)
Theorem worker_encoder_agrees (v : value) :
  Worker.ASCII_BASE64_ALPHA = ASCII_BASE64_ALPHA /\
  Worker.toBase64Url48 v = toBase64Url48 v /\
  match Worker.toBase64Url48 v with
  | Ok s => String.length s = 8%nat /\ in_alphabet s = true
  | Err _ => is_integer_input v = false
  end.
Proof.
  split; [reflexivity|].
  assert (H : Worker.toBase64Url48 v = toBase64Url48 v).
  { unfold Worker.toBase64Url48, toBase64Url48.
    destruct (to_bigint v) as [n|e]; reflexivity. }
  split; [exact H|]. rewrite H.
  destruct v as [n|x].
  - cbn. split; [apply encode48_length | apply encode48_in_alphabet].
  - unfold toBase64Url48, to_bigint, BigInt. cbn [is_integer_input].
    destruct (is_integral x).
    + split; [apply encode48_length | apply encode48_in_alphabet].
    + reflexivity.
Qed.

(* ================================================================== *)
(** * Reasoning about the controller code                               *)
(* ================================================================== *)

Arguments encode48 : simpl never.
Arguments nearest_double : simpl never.
Arguments Number_of_BigInt : simpl never.
Arguments number_ge : simpl never.

Section WP.
Context {A : Type}.
Implicit Types (Q : A -> State -> Prop) (E : error -> State -> Prop).

Lemma wp_ret (a : A) Q E s : Q a s -> wp (ret a) Q E s.
Proof. exact (fun H => H). Qed.

Lemma wp_throw (e : error) Q E s : E e s -> wp (@throw A e) Q E s.
Proof. exact (fun H => H). Qed.

Lemma wp_read (f : State -> A) Q E s : Q (f s) s -> wp (read f) Q E s.
Proof. exact (fun H => H). Qed.

Lemma wp_mono (m : M A) Q Q' E E' s :
  wp m Q E s ->
  (forall a s', Q a s' -> Q' a s') ->
  (forall e s', E e s' -> E' e s') ->
  wp m Q' E' s.
Proof.
  unfold wp. intros H HQ HE. destruct (m s); auto.
Qed.

Lemma wp_post (m : M A) Q Q' E s :
  wp m Q E s -> (forall a s', Q a s' -> Q' a s') -> wp m Q' E s.
Proof. intros H HQ. eapply wp_mono; eauto. Qed.

Lemma wp_catch (m : M A) (h : error -> M A) Q E s :
  wp m Q (fun e s' => wp (h e) Q E s') s -> wp (try_catch m h) Q E s.
Proof. unfold wp, try_catch. destruct (m s); auto. Qed.

Lemma wp_done (m : M A) Q s :
  wp m Q no_throw s -> exists a s', m s = Done a s' /\ Q a s'.
Proof.
  unfold wp, no_throw. destruct (m s) as [a s'|e s'|]; intros H;
    [eauto | contradiction | contradiction].
Qed.

Lemma wp_of_done (m : M A) Q E s a s' :
  m s = Done a s' -> Q a s' -> wp m Q E s.
Proof. unfold wp. intros -> H. exact H. Qed.

Lemma wp_lift_ok (a : A) Q E s : Q a s -> wp (lift (Ok a)) Q E s.
Proof. exact (fun H => H). Qed.

End WP.

Lemma wp_bind {A B : Type} (m : M A) (k : A -> M B) Q E s :
  wp m (fun a s' => wp (k a) Q E s') E s -> wp (bind m k) Q E s.
Proof. unfold wp, bind. destruct (m s); auto. Qed.

Lemma wp_write (f : State -> State) (Q : unit -> State -> Prop) E s :
  Q tt (f s) -> wp (write f) Q E s.
Proof. exact (fun H => H). Qed.

Lemma wp_Date_now (Q : Z -> State -> Prop) E s :
  Q (next_ms s) (tick_ms s) -> wp Date_now Q E s.
Proof.
  unfold wp, Date_now, next_ms, tick_ms. destruct (tape_ms s); auto.
Qed.

Lemma wp_hrtime (Q : Z -> State -> Prop) E s :
  Q (next_ns s) (tick_ns s) -> wp hrtime_bigint Q E s.
Proof.
  unfold wp, hrtime_bigint, next_ns, tick_ns. destruct (tape_ns s); auto.
Qed.

Lemma wp_encode_ms (ms : Z) (Q : string -> State -> Prop) E s :
  Q (encode48 ms) s -> wp (encode_ms ms) Q E s.
Proof. unfold encode_ms. rewrite toBase64Url48_int. exact (fun H => H). Qed.

Lemma wp_console_error (line : string) (Q : unit -> State -> Prop) E s :
  Q tt (set_console (line :: console s) s) -> wp (console_error line) Q E s.
Proof. exact (fun H => H). Qed.

Lemma wp_new_WorkerCtor (Q : nat -> State -> Prop) E s :
  (if spawn_fails s then E SpawnError s
   else Q (List.length (threads s))
          (set_threads (threads s ++ [mkThread Spawned 0 []]) s)) ->
  wp new_WorkerCtor Q E s.
Proof. unfold wp, new_WorkerCtor. destruct (spawn_fails s); auto. Qed.

(** One step of symbolic execution. *)
Ltac wp_step :=
  lazymatch goal with
  | |- wp (bind _ _) _ _ _ => apply wp_bind
  | |- wp (ret _) _ _ _ => apply wp_ret
  | |- wp (read _) _ _ _ => apply wp_read
  | |- wp (write _) _ _ _ => apply wp_write
  | |- wp (throw _) _ _ _ => apply wp_throw
  | |- wp (lift (Ok _)) _ _ _ => apply wp_lift_ok
  | |- wp (try_catch _ _) _ _ _ => apply wp_catch
  | |- wp Date_now _ _ _ => apply wp_Date_now
  | |- wp platformGetNowMs _ _ _ => apply wp_Date_now
  | |- wp hrtime_bigint _ _ _ => apply wp_hrtime
  | |- wp platformGetNano _ _ _ => apply wp_hrtime
  | |- wp (encode_ms _) _ _ _ => apply wp_encode_ms
  | |- wp (console_error _) _ _ _ => apply wp_console_error
  end.

Ltac wp_run := cbv beta; repeat (wp_step; cbv beta).

(** The fields a clock read leaves alone. *)
Section Ticks.
Variable s : State.

Lemma tick_ms_cfg : cfg (tick_ms s) = cfg s.
Proof. unfold tick_ms. destruct (tape_ms s); reflexivity. Qed.

Lemma tick_ms_cached : cached (tick_ms s) = cached s.
Proof. unfold tick_ms. destruct (tape_ms s); reflexivity. Qed.

Lemma tick_ms_lastMs : lastMs (tick_ms s) = lastMs s.
Proof. unfold tick_ms. destruct (tape_ms s); reflexivity. Qed.

Lemma tick_ms_callsInWindow : callsInWindow (tick_ms s) = callsInWindow s.
Proof. unfold tick_ms. destruct (tape_ms s); reflexivity. Qed.

Lemma tick_ms_windowStartNano : windowStartNano (tick_ms s) = windowStartNano s.
Proof. unfold tick_ms. destruct (tape_ms s); reflexivity. Qed.

Lemma tick_ms_internalRunning : internalRunning (tick_ms s) = internalRunning s.
Proof. unfold tick_ms. destruct (tape_ms s); reflexivity. Qed.

Lemma tick_ms_internalController : internalController (tick_ms s) = internalController s.
Proof. unfold tick_ms. destruct (tape_ms s); reflexivity. Qed.

Lemma tick_ms_lastHighActivityAt : lastHighActivityAt (tick_ms s) = lastHighActivityAt s.
Proof. unfold tick_ms. destruct (tape_ms s); reflexivity. Qed.

Lemma tick_ms_workerRunning : workerRunning (tick_ms s) = workerRunning s.
Proof. unfold tick_ms. destruct (tape_ms s); reflexivity. Qed.

Lemma tick_ms_worker : worker (tick_ms s) = worker s.
Proof. unfold tick_ms. destruct (tape_ms s); reflexivity. Qed.

Lemma tick_ms_WorkerCtor : WorkerCtor (tick_ms s) = WorkerCtor s.
Proof. unfold tick_ms. destruct (tape_ms s); reflexivity. Qed.

Lemma tick_ms_clock_ns : clock_ns (tick_ms s) = clock_ns s.
Proof. unfold tick_ms. destruct (tape_ms s); reflexivity. Qed.

Lemma tick_ms_tape_ns : tape_ns (tick_ms s) = tape_ns s.
Proof. unfold tick_ms. destruct (tape_ms s); reflexivity. Qed.

Lemma tick_ms_spawn_fails : spawn_fails (tick_ms s) = spawn_fails s.
Proof. unfold tick_ms. destruct (tape_ms s); reflexivity. Qed.

Lemma tick_ms_tasks : tasks (tick_ms s) = tasks s.
Proof. unfold tick_ms. destruct (tape_ms s); reflexivity. Qed.

Lemma tick_ms_threads : threads (tick_ms s) = threads s.
Proof. unfold tick_ms. destruct (tape_ms s); reflexivity. Qed.

Lemma tick_ms_console : console (tick_ms s) = console s.
Proof. unfold tick_ms. destruct (tape_ms s); reflexivity. Qed.

Lemma tick_ms_clock : clock_ms (tick_ms s) = next_ms s.
Proof. unfold tick_ms, next_ms. destruct (tape_ms s); reflexivity. Qed.

Lemma tick_ns_cfg : cfg (tick_ns s) = cfg s.
Proof. unfold tick_ns. destruct (tape_ns s); reflexivity. Qed.

Lemma tick_ns_cached : cached (tick_ns s) = cached s.
Proof. unfold tick_ns. destruct (tape_ns s); reflexivity. Qed.

Lemma tick_ns_lastMs : lastMs (tick_ns s) = lastMs s.
Proof. unfold tick_ns. destruct (tape_ns s); reflexivity. Qed.

Lemma tick_ns_callsInWindow : callsInWindow (tick_ns s) = callsInWindow s.
Proof. unfold tick_ns. destruct (tape_ns s); reflexivity. Qed.

Lemma tick_ns_windowStartNano : windowStartNano (tick_ns s) = windowStartNano s.
Proof. unfold tick_ns. destruct (tape_ns s); reflexivity. Qed.

Lemma tick_ns_internalRunning : internalRunning (tick_ns s) = internalRunning s.
Proof. unfold tick_ns. destruct (tape_ns s); reflexivity. Qed.

Lemma tick_ns_internalController : internalController (tick_ns s) = internalController s.
Proof. unfold tick_ns. destruct (tape_ns s); reflexivity. Qed.

Lemma tick_ns_lastHighActivityAt : lastHighActivityAt (tick_ns s) = lastHighActivityAt s.
Proof. unfold tick_ns. destruct (tape_ns s); reflexivity. Qed.

Lemma tick_ns_workerRunning : workerRunning (tick_ns s) = workerRunning s.
Proof. unfold tick_ns. destruct (tape_ns s); reflexivity. Qed.

Lemma tick_ns_worker : worker (tick_ns s) = worker s.
Proof. unfold tick_ns. destruct (tape_ns s); reflexivity. Qed.

Lemma tick_ns_WorkerCtor : WorkerCtor (tick_ns s) = WorkerCtor s.
Proof. unfold tick_ns. destruct (tape_ns s); reflexivity. Qed.

Lemma tick_ns_clock_ms : clock_ms (tick_ns s) = clock_ms s.
Proof. unfold tick_ns. destruct (tape_ns s); reflexivity. Qed.

Lemma tick_ns_tape_ms : tape_ms (tick_ns s) = tape_ms s.
Proof. unfold tick_ns. destruct (tape_ns s); reflexivity. Qed.

Lemma tick_ns_spawn_fails : spawn_fails (tick_ns s) = spawn_fails s.
Proof. unfold tick_ns. destruct (tape_ns s); reflexivity. Qed.

Lemma tick_ns_tasks : tasks (tick_ns s) = tasks s.
Proof. unfold tick_ns. destruct (tape_ns s); reflexivity. Qed.

Lemma tick_ns_threads : threads (tick_ns s) = threads s.
Proof. unfold tick_ns. destruct (tape_ns s); reflexivity. Qed.

Lemma tick_ns_console : console (tick_ns s) = console s.
Proof. unfold tick_ns. destruct (tape_ns s); reflexivity. Qed.

Lemma tick_ns_clock : clock_ns (tick_ns s) = next_ns s.
Proof. unfold tick_ns, next_ns. destruct (tape_ns s); reflexivity. Qed.

End Ticks.

Create Rewrite HintDb tick.

#[global] Hint Rewrite
  tick_ms_cfg tick_ms_cached tick_ms_lastMs tick_ms_callsInWindow
  tick_ms_windowStartNano tick_ms_internalRunning tick_ms_internalController tick_ms_lastHighActivityAt
  tick_ms_workerRunning tick_ms_worker tick_ms_WorkerCtor tick_ms_clock_ns
  tick_ms_tape_ns tick_ms_spawn_fails tick_ms_tasks tick_ms_threads
  tick_ms_console tick_ms_clock tick_ns_cfg tick_ns_cached
  tick_ns_lastMs tick_ns_callsInWindow tick_ns_windowStartNano tick_ns_internalRunning
  tick_ns_internalController tick_ns_lastHighActivityAt tick_ns_workerRunning tick_ns_worker
  tick_ns_WorkerCtor tick_ns_clock_ms tick_ns_tape_ms tick_ns_spawn_fails
  tick_ns_tasks tick_ns_threads tick_ns_console tick_ns_clock : tick.

Ltac tick_simpl := repeat (progress (cbn; autorewrite with tick)).

(* ================================================================== *)
(** * The call-rate monitor                                             *)
(* ================================================================== *)

Lemma nearest_double_exact (z : Z) :
  Z.abs z < 2 ^ 53 -> nearest_double z = z.
Proof.
  intros H. unfold nearest_double. cbv zeta.
  apply Z.ltb_lt in H. now rewrite H.
Qed.

Lemma Number_of_BigInt_exact (z : Z) :
  Z.abs z < 2 ^ 53 -> Number_of_BigInt z = Double z 0.
Proof.
  intros H. unfold Number_of_BigInt. cbv zeta.
  rewrite (nearest_double_exact z H).
  assert (H' : Z.abs z < 2 ^ 1024).
  { eapply Z.lt_trans; [exact H|]. apply Z.pow_lt_mono_r; lia. }
  apply Z.ltb_lt in H'. now rewrite H'.
Qed.

Lemma number_ge_int (z w : Z) : number_ge (Double z 0) w = (w <=? z).
Proof. unfold number_ge. cbn. now rewrite Z.mul_1_r. Qed.

Lemma tick_ns_set_callsInWindow (c : Z) (s : State) :
  tick_ns (set_callsInWindow c s) = set_callsInWindow c (tick_ns s).
Proof.
  unfold tick_ns. cbn. destruct (tape_ns s); reflexivity.
Qed.

Lemma set_callsInWindow_twice (c c' : Z) (s : State) :
  set_callsInWindow c (set_callsInWindow c' s) = set_callsInWindow c s.
Proof. reflexivity. Qed.

Lemma set_windowStartNano_same (s : State) :
  set_windowStartNano (windowStartNano s) s = s.
Proof. destruct s. reflexivity. Qed.

(** Whatever the Numbers, [markCall] ends normally and writes the counter
    and the window start only. *)
Lemma markCall_shape (s : State) :
  exists w c,
    markCall s =
    Done (signal s) (set_windowStartNano w (set_callsInWindow c (tick_ns s))).
Proof.
  assert (H : wp markCall
                (fun _ s' => exists w c,
                   s' = set_windowStartNano w (set_callsInWindow c (tick_ns s)))
                no_throw s).
  { unfold markCall. wp_run.
    rewrite tick_ns_set_callsInWindow.
    match goal with
    | |- context [number_ge ?x ?y] => destruct (number_ge x y)
    end; wp_run.
    - rewrite set_callsInWindow_twice. eauto.
    - eexists. eexists. symmetry.
      apply (set_windowStartNano_same (set_callsInWindow _ (tick_ns s))). }
  unfold wp in H. unfold signal.
  destruct (markCall s) as [b s'|e s'|]; try contradiction.
  destruct H as (w & c & ->). eauto.
Qed.

Lemma markCall_done (s : State) :
  exact_numbers s ->
  let r := record_call (thresholdCalls (cfg s)) (thresholdWindowUs (cfg s))
                       (next_ns s) (rate_window s) in
  markCall s =
  Done (fst r)
       (set_windowStartNano (window_start (snd r))
          (set_callsInWindow (count_in_window (snd r)) (tick_ns s))).
Proof.
  unfold exact_numbers, markCall, record_call, rate_window, bind, read, write,
    ret, platformGetNano, hrtime_bigint, next_ns, tick_ns.
  destruct s as [c ca lm ciw wsn ir ic lh wr w ctor cm tm cn tn sf ts th co].
  cbn. intros (Hc & He). rewrite (nearest_double_exact _ Hc).
  destruct tn as [|t tn]; cbn in He |- *;
    rewrite (Number_of_BigInt_exact _ He), number_ge_int.
  - destruct (thresholdWindowUs c <=? Z.quot (cn - wsn) 1000); cbn;
      [rewrite Z.geb_leb|]; reflexivity.
  - destruct (thresholdWindowUs c <=? Z.quot (t - wsn) 1000); cbn;
      [rewrite Z.geb_leb|]; reflexivity.
Qed.

Lemma markCall_within_window (s : State) :
  Z.abs (Z.quot (next_ns s - windowStartNano s) 1000) < 2 ^ 53 ->
  Z.quot (next_ns s - windowStartNano s) 1000 < thresholdWindowUs (cfg s) ->
  markCall s =
  Done false (set_windowStartNano (windowStartNano s)
                (set_callsInWindow (nearest_double (callsInWindow s + 1))
                   (tick_ns s))).
Proof.
  unfold markCall, bind, read, write, ret, platformGetNano, hrtime_bigint,
    next_ns, tick_ns.
  destruct s as [c ca lm ciw wsn ir ic lh wr w ctor cm tm cn tn sf ts th co].
  cbn. intros He H.
  destruct tn as [|t tn]; cbn in He, H |- *;
    rewrite (Number_of_BigInt_exact _ He), number_ge_int;
    (match goal with
     | |- context [?a <=? ?b] =>
         replace (a <=? b) with false by (symmetry; apply Z.leb_gt; exact H)
     end);
    reflexivity.
Qed.

Lemma burst_within_window (k : nat) : forall s : State,
  (forall t, In t (clock_ns s :: tape_ns s) ->
             Z.abs (Z.quot (t - windowStartNano s) 1000) < 2 ^ 53 /\
             Z.quot (t - windowStartNano s) 1000 < thresholdWindowUs (cfg s)) ->
  exists s',
    burst k s = Done (repeat false k) s' /\
    windowStartNano s' = windowStartNano s /\
    (0 <= callsInWindow s -> callsInWindow s + Z.of_nat k < 2 ^ 53 ->
     callsInWindow s' = callsInWindow s + Z.of_nat k).
Proof.
  induction k as [|k IH]; intros s Hs.
  - exists s. cbn. repeat split; intros; lia.
  - cbn [burst repeat]. unfold bind at 1.
    assert (Hn : In (next_ns s) (clock_ns s :: tape_ns s))
      by (unfold next_ns; destruct (tape_ns s); cbn; auto).
    rewrite markCall_within_window by (apply Hs; exact Hn).
    set (s1 := set_windowStartNano _ _).
    destruct (IH s1) as (s' & Hrun & Hstart & Hcount).
    { intros t Ht. subst s1. revert Ht. tick_simpl. intros Ht.
      apply Hs. unfold next_ns, tick_ns in Ht.
      destruct (tape_ns s) as [|t0 tn] eqn:Htn; cbn in Ht |- *;
        rewrite ?Htn in Ht; cbn in Ht; tauto. }
    exists s'. unfold bind. rewrite Hrun. cbn.
    subst s1. revert Hcount Hstart. tick_simpl. intros Hcount Hstart.
    split; [reflexivity|]. split; [exact Hstart|].
    intros H0 Hk.
    rewrite nearest_double_exact in Hcount by lia.
    rewrite Hcount by lia. lia.
Qed.

(** C4. [markCall] is the [record_call] of the specification wherever its
    Numbers are exact, that is with fewer than 2^53 calls counted and fewer
    than 2^53 microseconds elapsed: it returns what that algorithm returns
    on the counter, the window start and the nanosecond reading, leaves the
    counter and the window start as the algorithm does, and touches nothing
    else of the controller; and a burst of any number [k] of calls, all made
    before the window has elapsed, returns false [k] times, leaves the
    window start alone and only counts. *)
Theorem markCall_implements_record_call (s : State) :
  let r := record_call (thresholdCalls (cfg s)) (thresholdWindowUs (cfg s))
                       (next_ns s) (rate_window s) in
  (exact_numbers s ->
   exists s',
     markCall s = Done (fst r) s' /\
     rate_window s' = snd r /\
     cached s' = cached s /\
     controller_state s' = controller_state s /\
     tasks s' = tasks s /\ threads s' = threads s) /\
  (forall k : nat,
     (forall t, In t (clock_ns s :: tape_ns s) ->
                Z.abs (Z.quot (t - windowStartNano s) 1000) < 2 ^ 53 /\
                Z.quot (t - windowStartNano s) 1000
                < thresholdWindowUs (cfg s)) ->
     exists s',
       burst k s = Done (repeat false k) s' /\
       windowStartNano s' = windowStartNano s /\
       (0 <= callsInWindow s -> callsInWindow s + Z.of_nat k < 2 ^ 53 ->
        callsInWindow s' = callsInWindow s + Z.of_nat k)).
Proof.
  intros r. split.
  - intros Hex. eexists. split; [apply (markCall_done s Hex)|].
    fold r. unfold rate_window, controller_state. tick_simpl.
    destruct (snd r); repeat split; reflexivity.
  - intros k Hk. apply burst_within_window. exact Hk.
Qed.

Lemma markCall_implements_record_call_witness :
  let s := set_tape_ns [1000; 2000; 3000]
             (declare defaultOptions sample_host) in
  let late := set_callsInWindow 4 (set_tape_ns [6000] s) in
  (exact_numbers late /\
   exists s',
     markCall late = Done true s' /\
     rate_window s' = mkRateWindow 0 6000 /\
     cached s' = cached late /\
     controller_state s' = controller_state late /\
     tasks s' = tasks late /\ threads s' = threads late) /\
  (forall t, In t (clock_ns s :: tape_ns s) ->
             Z.abs (Z.quot (t - windowStartNano s) 1000) < 2 ^ 53 /\
             Z.quot (t - windowStartNano s) 1000
             < thresholdWindowUs (cfg s)) /\
  exists s',
    burst 100 s = Done (repeat false 100) s' /\
    windowStartNano s' = windowStartNano s /\
    (0 <= callsInWindow s -> callsInWindow s + Z.of_nat 100 < 2 ^ 53 ->
     callsInWindow s' = callsInWindow s + Z.of_nat 100).
Proof.
  intros s late.
  assert (Hex : exact_numbers late) by (vm_compute; split; reflexivity).
  assert (H : forall t, In t (clock_ns s :: tape_ns s) ->
              Z.abs (Z.quot (t - windowStartNano s) 1000) < 2 ^ 53 /\
              Z.quot (t - windowStartNano s) 1000
              < thresholdWindowUs (cfg s)).
  { intros t Ht. cbn in Ht.
    destruct Ht as [<-|[<-|[<-|[<-|[]]]]]; split; reflexivity. }
  split; [|split].
  - split; [exact Hex|].
    exact (proj1 (markCall_implements_record_call late) Hex).
  - exact H.
  - exact (proj2 (markCall_implements_record_call s) 100%nat H).
Defined.

Lemma wp_markCall (Q : bool -> State -> Prop) E s :
  (forall b s',
     cfg s' = cfg s -> cached s' = cached s ->
     internalRunning s' = internalRunning s ->
     internalController s' = internalController s ->
     lastHighActivityAt s' = lastHighActivityAt s ->
     workerRunning s' = workerRunning s -> worker s' = worker s ->
     WorkerCtor s' = WorkerCtor s -> clock_ms s' = clock_ms s ->
     tape_ms s' = tape_ms s -> spawn_fails s' = spawn_fails s ->
     tasks s' = tasks s -> threads s' = threads s ->
     Q b s') ->
  wp markCall Q E s.
Proof.
  intros H. unfold wp.
  destruct (markCall_shape s) as (w & c & ->).
  apply H; tick_simpl; reflexivity.
Qed.

(* ================================================================== *)
(** * Construction                                                      *)
(* ================================================================== *)

(** C9, as stated, fails: a configuration with [thresholdCalls: 0] and
    [thresholdWindowUs: -5] is accepted; no error is raised and the
    controller is built with these values. *)
Lemma createTSGen_accepts_invalid_options :
  exists s,
    createTSGen invalid_options sample_host = Done tt s /\
    thresholdCalls (cfg s) = 0 /\ thresholdWindowUs (cfg s) = -5.
Proof. eexists. repeat split. Qed.

(** C9, amended. Construction validates nothing and cannot fail: whatever
    the options, [createTSGen] returns a controller whose configuration is
    the defaults overridden by the options given, in the DirectCompute state
    with no background refresher and a valid cached timestamp.  The only
    check is made once, when the module loads, on the built-in alphabet, and
    it passes. *)
Theorem createTSGen_accepts_any_options (opts : options) (h : host) :
  alphabet_guard = true /\
  exists s,
    createTSGen opts h = Done tt s /\
    cfg s = Object_assign defaultOptions opts /\
    controller_state s = DirectCompute /\
    tasks s = [] /\ threads s = [] /\
    String.length (cached s) = 8%nat /\ in_alphabet (cached s) = true.
Proof.
  split; [reflexivity|].
  unfold createTSGen.
  match goal with |- exists s, ?m ?s0 = Done tt s /\ @?Q s =>
    destruct (wp_done m (fun _ => Q) s0) as ([] & s & Hs & HQ);
      [|exists s; split; [exact Hs | exact HQ]]
  end.
  wp_run. unfold controller_state. tick_simpl.
  repeat split; auto using encode48_length, encode48_in_alphabet.
Qed.

(* ================================================================== *)
(** * The policy 'basic'                                                *)
(* ================================================================== *)

Lemma wp_requestPerf_basic (Q : unit -> State -> Prop) E s :
  prefer (cfg s) = "basic" ->
  Q tt (set_lastHighActivityAt (next_ms s) (tick_ms s)) ->
  wp requestPerf Q E s.
Proof.
  intros Hp HQ. unfold requestPerf. wp_run. tick_simpl. rewrite Hp. cbn.
  wp_run. exact HQ.
Qed.

Lemma stays_basic_load (e : event) (s : State) :
  stays_basic s -> stays_basic (load e s).
Proof. exact (fun H => H). Qed.

Lemma step_stays_basic (e : event) (s : State) :
  stays_basic s -> explicit_start e = false ->
  exists v s', step e s = Done v s' /\ stays_basic s'.
Proof.
  intros Hs He. apply (stays_basic_load e) in Hs.
  unfold step. apply wp_done. revert Hs. generalize (load e s). clear s.
  intros s (Hp & Hw & Hi & Hwk & Hts & Hth).
  unfold explicit_start in He.
  destruct (act e) as [|mode| |i|h|h|h|h code].
  - (* get() *)
    unfold get. wp_run. rewrite Hw. wp_run. rewrite Hi. wp_run.
    apply wp_markCall. intros b s' Hc _ Hi' _ _ Hw' Hwk' _ _ _ _ Hts' Hth'.
    assert (Hs' : stays_basic s') by (unfold stays_basic; repeat split; congruence).
    destruct Hs' as (Hp1 & Hw1 & Hi1 & Hwk1 & Hts1 & Hth1).
    wp_run. destruct b.
    + apply wp_requestPerf_basic; [assumption|].
      unfold basicGet. wp_run. unfold stays_basic. tick_simpl. tauto.
    + unfold basicGet. wp_run. unfold stays_basic. tick_simpl. tauto.
  - (* start(mode) *)
    wp_run. unfold start.
    assert (Hr : wp requestPerf (fun _ s' => wp (ret (@None string))
                  (fun _ s'' => stays_basic s'') no_throw s') no_throw s).
    { apply wp_requestPerf_basic; [assumption|].
      wp_run. unfold stays_basic. tick_simpl. tauto. }
    destruct mode as [m|]; [|exact Hr].
    destruct (String.eqb m "worker"); [discriminate|].
    destruct (String.eqb m "internal"); [discriminate|]. exact Hr.
  - (* stop() *)
    unfold stop, stopInternalLoop, stopWorker. wp_run.
    destruct (internalController s); wp_run; tick_simpl; rewrite Hwk;
      wp_run; unfold stays_basic; tick_simpl; tauto.
  - unfold resume_loop. wp_run. rewrite Hts. destruct i; cbn; wp_run;
      unfold stays_basic; tauto.
  - unfold run_worker, get_thread. wp_run. rewrite Hth.
    destruct h; cbn; wp_run; unfold stays_basic; tauto.
  - unfold deliver_message, get_thread. wp_run. rewrite Hth.
    destruct h; cbn; wp_run; unfold stays_basic; tauto.
  - unfold deliver_error, get_thread. wp_run. rewrite Hth.
    destruct h; cbn; wp_run; unfold stays_basic; tauto.
  - unfold deliver_exit, get_thread. wp_run. rewrite Hth.
    destruct h; cbn; wp_run; unfold stays_basic; tauto.
Qed.

Lemma run_stays_basic (evs : list event) : forall s : State,
  stays_basic s ->
  Forall (fun e => explicit_start e = false) evs ->
  exists states s',
    run evs s = Done states s' /\ Forall stays_basic states.
Proof.
  induction evs as [|e evs IH]; intros s Hs Hevs.
  - exists [s], s. split; [reflexivity|]. constructor; [exact Hs | constructor].
  - inversion Hevs as [|? ? He Hrest]; subst.
    destruct (step_stays_basic e s Hs He) as (v & s1 & Hstep & Hs1).
    destruct (IH s1 Hs1 Hrest) as (states & s' & Hrun & Hall).
    exists (s :: states), s'. cbn [run]. rewrite Hstep, Hrun.
    split; [reflexivity|]. constructor; assumption.
Qed.

Lemma createTSGen_stays_basic (opts : options) (h : host) (s : State) :
  opt_prefer opts = Some "basic" ->
  createTSGen opts h = Done tt s -> stays_basic s.
Proof.
  intros Hp Hc. unfold createTSGen in Hc.
  match type of Hc with ?m ?s0 = _ =>
    assert (Hw : wp m (fun _ s' => stays_basic s') no_throw s0)
  end.
  { wp_run. unfold stays_basic, Object_assign. tick_simpl. rewrite Hp.
    repeat split; reflexivity. }
  unfold wp in Hw. rewrite Hc in Hw. exact Hw.
Qed.

(** C5. Under [prefer: 'basic'] nothing but an explicit [start('worker')]
    or [start('internal')] promotes.  From construction on, every sequence
    of [get()] calls at any frequency -- and of [stop()], [start()] without
    a strategy, and turns of the event loop -- runs without error, and in
    every state it goes through the controller is in DirectCompute with no
    loop task and no worker thread. *)
Theorem basic_never_promotes (opts : options) (h : host) (s0 : State)
    (evs : list event) :
  opt_prefer opts = Some "basic" ->
  createTSGen opts h = Done tt s0 ->
  Forall (fun e => explicit_start e = false) evs ->
  exists states s',
    run evs s0 = Done states s' /\
    Forall (fun s => controller_state s = DirectCompute /\
                     tasks s = [] /\ threads s = []) states.
Proof.
  intros Hp Hc Hevs.
  destruct (run_stays_basic evs s0 (createTSGen_stays_basic _ _ _ Hp Hc) Hevs)
    as (states & s' & Hrun & Hall).
  exists states, s'. split; [exact Hrun|].
  eapply Forall_impl; [|exact Hall].
  intros s (_ & Hw & Hi & _ & Hts & Hth).
  unfold controller_state. rewrite Hw, Hi. auto.
Qed.

Lemma basic_never_promotes_witness :
  opt_prefer basic_options = Some "basic" /\
  Forall (fun e => explicit_start e = false) rapid_gets /\
  exists s0,
    createTSGen basic_options sample_host = Done tt s0 /\
    exists states s',
      run rapid_gets s0 = Done states s' /\
      Forall (fun s => controller_state s = DirectCompute /\
                       tasks s = [] /\ threads s = []) states.
Proof.
  assert (He : Forall (fun e => explicit_start e = false) rapid_gets)
    by (repeat constructor).
  split; [reflexivity|]. split; [exact He|].
  eexists. split; [reflexivity|].
  exact (basic_never_promotes basic_options sample_host _ rapid_gets
           eq_refl eq_refl He).
Defined.

(* ================================================================== *)
(** * Invariants that every step of the program keeps                   *)
(* ================================================================== *)

(** A property of the cache, the clock and the worker threads that the
    primitive writes of the program keep is kept by every function of the
    controller and of the worker script, none of which throws to the event
    loop or runs out of fuel. *)
Section Stable.

Variable I : State -> Prop.

Hypothesis I_view : forall s s', view s = view s' -> I s -> I s'.
Hypothesis I_tick : forall s, I s -> I (tick_ms s).
Hypothesis I_now : forall s,
  I s -> internalController s <> None \/ threads s = [] ->
  I (set_cached (encode48 (clock_ms s)) s).
Hypothesis I_controller : forall s b, I s -> I (set_internalController (Some b) s).
Hypothesis I_spawn : forall s,
  I s -> I (set_threads (threads s ++ [mkThread Spawned 0 []]) s).
Hypothesis I_meta : forall s h t st ms,
  I s -> get_thread h s = Some t ->
  I (put_thread h (mkThread st ms (t_outbox t)) s).
Hypothesis I_clear : forall s h t st ms,
  I s -> get_thread h s = Some t -> I (put_thread h (mkThread st ms []) s).
Hypothesis I_post : forall s h t,
  I s -> get_thread h s = Some t ->
  I (put_thread h
       (with_outbox (t_outbox t ++ [MString (encode48 (clock_ms s))]) t) s).
Hypothesis I_post_object : forall s h t,
  I s -> get_thread h s = Some t ->
  I (put_thread h (with_outbox (t_outbox t ++ [MObject]) t) s).
Hypothesis I_deliver : forall s h t msg rest,
  I s -> get_thread h s = Some t -> t_outbox t = msg :: rest ->
  I (accept msg (put_thread h (with_outbox rest t) s)).

(** Drop a write to a field the invariant does not look at. *)
Ltac peel :=
  lazymatch goal with
  | |- I (?f ?v ?s) => refine (I_view s (f v s) eq_refl _)
  end.

Ltac peels :=
  cbv beta; repeat (first [assumption | peel]);
  try (apply I_tick; assumption).


Lemma idle_check_keeps s :
  I s ->
  wp idle_check
     (fun _ s' => I s' /\ tape_ms s' = tape_ms (tick_ms s) /\
                  clock_ms s' = next_ms s)
     (fun _ s' => I s') s.
Proof.
  intros Hs. unfold idle_check, request_stop. wp_run.
  destruct (_ >? _).
  - wp_run. destruct (internalController (tick_ms s)) eqn:Hc; wp_run.
    + split; [apply I_controller, I_tick, Hs|]. tick_simpl. auto.
    + apply I_tick, Hs.
  - wp_run. split; [apply I_tick, Hs|]. tick_simpl. auto.
Qed.

Lemma tick_ms_tape_length s :
  (List.length (tape_ms (tick_ms s)) <= List.length (tape_ms s))%nat.
Proof.
  unfold tick_ms. destruct (tape_ms s) eqn:E; cbn; rewrite ?E; cbn; lia.
Qed.

Lemma tick_ms_tape_nil s : tape_ms s = [] -> tick_ms s = s.
Proof. unfold tick_ms. now intros ->. Qed.

Lemma tick_ms_tape_cons s :
  tape_ms s <> [] ->
  (S (List.length (tape_ms (tick_ms s))) = List.length (tape_ms s))%nat.
Proof.
  unfold tick_ms. destruct (tape_ms s) eqn:E; cbn; rewrite ?E; congruence.
Qed.

Lemma next_ms_nil s : tape_ms s = [] -> next_ms s = clock_ms s.
Proof. unfold next_ms. now intros ->. Qed.

(** One more turn of a loop costs one unit of fuel. *)
Lemma fuel_ok_next fuel local s s2 :
  fuel_ok (S fuel) local s ->
  next_ms s <> local ->
  (List.length (tape_ms s2) <= List.length (tape_ms (tick_ms s)))%nat ->
  (tape_ms s = [] -> clock_ms s2 = clock_ms s) ->
  fuel_ok fuel (next_ms s) s2.
Proof.
  intros [Hf|(Hnil & Hloc & _)] Hne Hlen Hclk.
  - destruct (tape_ms s) as [|t r] eqn:Htape.
    + right. rewrite (tick_ms_tape_nil s Htape), Htape in Hlen.
      rewrite (next_ms_nil s Htape), Hclk by reflexivity.
      cbn in Hf, Hlen. repeat split; [|lia].
      destruct (tape_ms s2); [reflexivity | cbn in Hlen; lia].
    + left. pose proof (tick_ms_tape_cons s) as Hl. rewrite Htape in Hl.
      specialize (Hl ltac:(discriminate)). cbn in Hl, Hf. lia.
  - exfalso. apply Hne. rewrite next_ms_nil by assumption. congruence.
Qed.

Lemma internal_loop_keeps (fuel : nat) : forall (local : Z) (s : State),
  I s -> fuel_ok fuel local s ->
  wp (internal_loop fuel local) (fun _ s' => I s') (fun _ s' => I s') s.
Proof.
  induction fuel as [|fuel IH]; intros local s Hs Hf.
  - exfalso. destruct Hf as [Hf|(_ & _ & Hf)]; lia.
  - cbn [internal_loop]. unfold get_stopRequested. wp_run.
    destruct (internalController s) as [stop|] eqn:Hc; wp_run; [|exact Hs].
    destruct stop; wp_run; [peels|].
    destruct (next_ms s =? local) eqn:Hcmp; cbn [negb]; wp_run;
      [apply I_tick, Hs|].
    apply Z.eqb_neq in Hcmp.
    assert (H1 : I (set_cached (encode48 (next_ms s)) (tick_ms s))).
    { rewrite <- (tick_ms_clock s). apply I_now; [apply I_tick, Hs|].
      left. rewrite tick_ms_internalController, Hc. discriminate. }
    eapply wp_mono; [apply (idle_check_keeps _ H1) | | auto].
    cbv beta. intros _ s' (Hs' & Ht' & Hc').
    apply IH; [exact Hs'|].
    apply (fuel_ok_next fuel local s s'); [assumption | assumption | |].
    + rewrite Ht'. etransitivity; [apply tick_ms_tape_length|]. cbn. lia.
    + intros Hnil. rewrite Hc'. unfold next_ms. cbn.
      rewrite (tick_ms_tape_nil s Hnil), Hnil. reflexivity.
Qed.

Lemma fuel_of_ok local s s' :
  (List.length (tape_ms s') <= List.length (tape_ms s))%nat ->
  fuel_ok (fuel_of s) local s'.
Proof. intros H. left. unfold fuel_of. lia. Qed.

Lemma internal_start_keeps s :
  I s -> internalController s <> None ->
  wp internal_start (fun _ s' => I s') (fun _ s' => I s') s.
Proof.
  intros Hs Hc. unfold internal_start. wp_run.
  apply internal_loop_keeps.
  - rewrite <- (tick_ms_clock s). apply I_now; [apply I_tick, Hs|].
    left. now rewrite tick_ms_internalController.
  - apply fuel_of_ok. cbn. apply tick_ms_tape_length.
Qed.

Lemma internal_resume_keeps local s :
  I s -> wp (internal_resume local) (fun _ s' => I s') (fun _ s' => I s') s.
Proof.
  intros Hs. unfold internal_resume. wp_run.
  eapply wp_mono; [apply (idle_check_keeps _ Hs) | | auto].
  cbv beta. intros _ s' (Hs' & Ht' & _).
  apply internal_loop_keeps; [exact Hs'|].
  apply fuel_of_ok. rewrite Ht'. apply tick_ms_tape_length.
Qed.

Lemma run_async_keeps (body : M task_state) s :
  wp body (fun _ s' => I s') (fun _ s' => I s') s ->
  wp (run_async body) (fun _ s' => I s') no_throw s.
Proof.
  unfold wp, run_async. destruct (body s) as [[l|] s'|e s'|]; auto.
  - intros Hs'. peels.
  - intros Hs'. cbn. peels.
Qed.

Lemma startInternalLoop_keeps s :
  I s -> wp startInternalLoop (fun _ s' => I s') no_throw s.
Proof.
  intros Hs. unfold startInternalLoop. wp_run.
  destruct (internalRunning s); wp_run; [exact Hs|].
  apply run_async_keeps, internal_start_keeps.
  - apply I_controller. peels. apply I_tick. peels.
  - discriminate.
Qed.

Lemma stopInternalLoop_keeps s :
  I s -> wp stopInternalLoop (fun _ s' => I s') no_throw s.
Proof.
  intros Hs. unfold stopInternalLoop. wp_run.
  destruct (internalController s); wp_run; peels.
  now apply I_controller.
Qed.

Lemma on_thread_meta_keeps h (f : thread -> thread) s :
  (forall t, t_outbox (f t) = t_outbox t) ->
  I s -> wp (on_thread h f) (fun _ s' => I s') no_throw s.
Proof.
  intros Hf Hs. unfold on_thread. wp_run.
  destruct (get_thread h s) as [t|] eqn:Ht; [|exact Hs].
  pose proof (I_meta s h t (t_status (f t)) (t_lastMs (f t)) Hs Ht) as H.
  rewrite <- (Hf t) in H. now destruct (f t).
Qed.

Lemma terminate_keeps h s : I s -> wp (terminate h) (fun _ s' => I s') no_throw s.
Proof.
  intros Hs. unfold terminate. apply on_thread_meta_keeps; [|exact Hs].
  intros t. destruct (t_status t); reflexivity.
Qed.

Lemma stopWorker_keeps s : I s -> wp stopWorker (fun _ s' => I s') no_throw s.
Proof.
  intros Hs. unfold stopWorker. wp_run.
  destruct (worker s) as [h|].
  - eapply wp_mono; [apply (terminate_keeps h _ Hs) | | intros ? ? []].
    cbv beta. intros _ s' Hs'. wp_run. peels.
  - wp_run. peels.
Qed.

Lemma stop_keeps s : I s -> wp stop (fun _ s' => I s') no_throw s.
Proof.
  intros Hs. unfold stop. wp_run.
  eapply wp_post; [apply (stopInternalLoop_keeps _ Hs)|].
  cbv beta. intros _ s'. apply stopWorker_keeps.
Qed.

Lemma on_error_keeps s : I s -> wp on_error (fun _ s' => I s') no_throw s.
Proof.
  intros Hs. unfold on_error. wp_run.
  eapply wp_post; [apply stopWorker_keeps; peels|].
  cbv beta. intros _ s'. apply startInternalLoop_keeps.
Qed.

Lemma on_exit_keeps code s : I s -> wp (on_exit code) (fun _ s' => I s') no_throw s.
Proof.
  intros Hs. unfold on_exit. wp_run.
  destruct (negb (code =? 0)); [apply startInternalLoop_keeps|wp_run]; peels.
Qed.

Lemma startWorker_keeps s : I s -> wp startWorker (fun _ s' => I s') no_throw s.
Proof.
  intros Hs. unfold startWorker. wp_run.
  destruct (workerRunning s); wp_run; [peels; now apply I_tick|].
  destruct (WorkerCtor s); cbn [negb]; [|now apply startInternalLoop_keeps].
  wp_run. apply wp_new_WorkerCtor.
  assert (H1 : I (set_lastHighActivityAt (next_ms s) (tick_ms s)))
    by (peels; now apply I_tick).
  destruct (spawn_fails _).
  - wp_run.
    eapply wp_post; [apply startInternalLoop_keeps; peels|].
    cbv beta. intros _ s' Hs'. wp_run. exact Hs'.
  - wp_run. peels. now apply I_spawn.
Qed.

Lemma requestPerf_keeps s : I s -> wp requestPerf (fun _ s' => I s') no_throw s.
Proof.
  intros Hs. unfold requestPerf. wp_run.
  assert (H1 : I (set_lastHighActivityAt (next_ms s) (tick_ms s)))
    by (peels; now apply I_tick).
  destruct (String.eqb _ "basic"); wp_run; [exact H1|].
  destruct (String.eqb _ "worker"); [now apply startWorker_keeps|].
  destruct (String.eqb _ "internal"); [now apply startInternalLoop_keeps|].
  wp_run.
  destruct (WorkerCtor _); [now apply startWorker_keeps
                           |now apply startInternalLoop_keeps].
Qed.

Lemma markCall_keeps s :
  I s ->
  wp markCall (fun _ s' => I s' /\ cached s' = cached s) no_throw s.
Proof.
  intros Hs. unfold wp. destruct (markCall_shape s) as (w & c & ->).
  split; [|tick_simpl; reflexivity].
  peels. refine (I_view s _ _ Hs). unfold view. now autorewrite with tick.
Qed.

Lemma start_keeps mode s : I s -> wp (start mode) (fun _ s' => I s') no_throw s.
Proof.
  intros Hs. unfold start. destruct mode as [m|]; [|now apply requestPerf_keeps].
  destruct (String.eqb m "worker"); [now apply startWorker_keeps|].
  destruct (String.eqb m "internal"); [now apply startInternalLoop_keeps|].
  now apply requestPerf_keeps.
Qed.

(** [get()] returns the cache on the Promoted path, the encoding of the
    clock otherwise. *)
Lemma get_keeps s :
  I s ->
  wp get
     (fun v s' => I s' /\
        match controller_state s with
        | Promoted _ => v = cached s
        | DirectCompute => v = encode48 (clock_ms s')
        end)
     no_throw s.
Proof.
  intros Hs. unfold get, controller_state. wp_run.
  assert (H1 : I (set_lastHighActivityAt (next_ms s) (tick_ms s)))
    by (peels; now apply I_tick).
  destruct (workerRunning s); wp_run.
  { eapply wp_post; [apply (markCall_keeps _ H1)|]. cbv beta.
    intros _ s' (Hs' & Hc). wp_run. split; [exact Hs'|].
    rewrite Hc. tick_simpl. reflexivity. }
  destruct (internalRunning s); wp_run.
  { eapply wp_post; [apply (markCall_keeps _ H1)|]. cbv beta.
    intros _ s' (Hs' & Hc). wp_run. split; [exact Hs'|].
    rewrite Hc. tick_simpl. reflexivity. }
  eapply wp_post; [apply (markCall_keeps _ Hs)|]. cbv beta.
  intros b s' (Hs' & _). wp_run.
  assert (Hb : forall s1, I s1 ->
            wp basicGet (fun v s2 => I s2 /\ v = encode48 (clock_ms s2))
               no_throw s1).
  { intros s1 H. unfold basicGet. wp_run. split; [now apply I_tick|].
    now rewrite tick_ms_clock. }
  destruct b; wp_run; [|now apply Hb].
  eapply wp_post; [apply (requestPerf_keeps _ Hs')|]. cbv beta.
  intros _ s2 Hs2. now apply Hb.
Qed.

Lemma get_put_thread h t t' s :
  get_thread h s = Some t -> get_thread h (put_thread h t' s) = Some t'.
Proof.
  unfold get_thread, put_thread. cbn. generalize (threads s). clear s.
  induction h as [|h IH]; intros [|x l]; cbn; try discriminate; auto.
Qed.

Lemma worker_encode (ms : Z) :
  Worker.toBase64Url48 (of_int ms) = Ok (encode48 ms).
Proof.
  assert (H : Worker.toBase64Url48 (of_int ms) = toBase64Url48 (of_int ms)).
  { unfold Worker.toBase64Url48, toBase64Url48.
    destruct (to_bigint (of_int ms)); reflexivity. }
  rewrite H. apply toBase64Url48_int.
Qed.

Lemma postMessage_keeps h s :
  I s ->
  wp (postMessage h (MString (encode48 (clock_ms s)))) (fun _ s' => I s')
     no_throw s.
Proof.
  intros Hs. unfold postMessage, on_thread. wp_run.
  destruct (get_thread h s) as [t|] eqn:Ht; [|exact Hs].
  now apply I_post.
Qed.

Lemma worker_loop_keeps (fuel : nat) : forall (h : nat) (t : thread) (s : State),
  I s -> get_thread h s = Some t -> fuel_ok fuel (t_lastMs t) s ->
  wp (WorkerScript.loop fuel h) (fun _ s' => I s') (fun _ s' => I s') s.
Proof.
  induction fuel as [|fuel IH]; intros h t s Hs Ht Hf.
  - exfalso. destruct Hf as [Hf|(_ & _ & Hf)]; lia.
  - cbn [WorkerScript.loop]. unfold WorkerScript.get_lastMs. wp_run.
    unfold get_thread. rewrite tick_ms_threads. fold (get_thread h s).
    rewrite Ht.
    destruct (next_ms s =? t_lastMs t) eqn:Hcmp; cbn [negb]; wp_run;
      [apply I_tick, Hs|].
    apply Z.eqb_neq in Hcmp.
    unfold WorkerScript.set_lastMs, on_thread at 1. wp_run.
    assert (Ht1 : get_thread h (tick_ms s) = Some t)
      by (unfold get_thread; now rewrite tick_ms_threads).
    rewrite Ht1. rewrite worker_encode. wp_run.
    set (t1 := with_lastMs (next_ms s) t).
    set (s1 := put_thread h t1 (tick_ms s)).
    assert (Hs1 : I s1).
    { subst s1 t1. pose proof (I_meta (tick_ms s) h t (t_status t) (next_ms s)
                                 (I_tick s Hs) Ht1) as H. exact H. }
    assert (Hg1 : get_thread h s1 = Some t1) by (eapply get_put_thread; eauto).
    assert (Hc1 : clock_ms s1 = next_ms s)
      by (subst s1; cbn; apply tick_ms_clock).
    rewrite <- Hc1.
    unfold postMessage, on_thread. wp_run. rewrite Hg1.
    set (t2 := with_outbox _ t1). set (s2 := put_thread h t2 s1).
    apply (IH h t2 s2).
    + subst s2 t2. now apply I_post.
    + eapply get_put_thread; eauto.
    + subst t2 t1. cbn [with_outbox with_lastMs t_lastMs].
      apply (fuel_ok_next fuel (t_lastMs t) s s2); [assumption | assumption | |].
      * subst s2 s1. cbn. lia.
      * intros Hnil. subst s2 s1. cbn. now rewrite (tick_ms_tape_nil s Hnil).
Qed.

Lemma worker_run_loop_keeps h t s :
  I s -> get_thread h s = Some t ->
  wp (WorkerScript.run_loop h) (fun _ s' => I s') no_throw s.
Proof.
  intros Hs Ht. unfold WorkerScript.run_loop. wp_run.
  eapply wp_mono; [apply (worker_loop_keeps _ h t s Hs Ht) | auto |].
  - apply fuel_of_ok. lia.
  - cbv beta. intros _ s' Hs'. unfold postMessage, process_exit. wp_run.
    unfold on_thread at 1. wp_run.
    destruct (get_thread h s') as [t'|] eqn:Ht'.
    + apply on_thread_meta_keeps; [reflexivity|]. now apply I_post_object.
    + apply on_thread_meta_keeps; [reflexivity|]. assumption.
Qed.

Lemma worker_main_keeps h t s :
  I s -> get_thread h s = Some t ->
  wp (WorkerScript.main h) (fun _ s' => I s') no_throw s.
Proof.
  intros Hs Ht. unfold WorkerScript.main. wp_run.
  unfold WorkerScript.set_lastMs, on_thread at 1. wp_run.
  assert (Ht1 : get_thread h (tick_ms s) = Some t)
    by (unfold get_thread; now rewrite tick_ms_threads).
  rewrite Ht1. rewrite worker_encode. wp_run.
  set (t1 := with_lastMs (next_ms s) t).
  set (s1 := put_thread h t1 (tick_ms s)).
  assert (Hs1 : I s1).
  { subst s1 t1. exact (I_meta (tick_ms s) h t (t_status t) (next_ms s)
                           (I_tick s Hs) Ht1). }
  assert (Hg1 : get_thread h s1 = Some t1) by (eapply get_put_thread; eauto).
  assert (Hc1 : clock_ms s1 = next_ms s)
    by (subst s1; cbn; apply tick_ms_clock).
  rewrite <- Hc1.
  unfold postMessage, on_thread. wp_run. rewrite Hg1.
  set (t2 := with_outbox _ t1). set (s2 := put_thread h t2 s1).
  assert (Hs2 : I s2) by (subst s2 t2; now apply I_post).
  assert (Hg2 : get_thread h s2 = Some t2) by (eapply get_put_thread; eauto).
  rewrite Hg2.
  eapply wp_mono; [eapply (worker_run_loop_keeps h) | auto | intros ? ? []].
  - exact (I_meta s2 h t2 Looping (t_lastMs t2) Hs2 Hg2).
  - eapply get_put_thread; eauto.
Qed.

Lemma run_worker_keeps h s :
  I s -> wp (run_worker h) (fun _ s' => I s') no_throw s.
Proof.
  intros Hs. unfold run_worker. wp_run.
  destruct (get_thread h s) as [t|] eqn:Ht; wp_run; [|exact Hs].
  destruct (t_status t); wp_run; try exact Hs.
  - now apply (worker_main_keeps h t).
  - now apply (worker_run_loop_keeps h t).
Qed.

Lemma on_message_keeps msg s :
  I (accept msg s) -> wp (on_message msg) (fun _ s' => I s') no_throw s.
Proof.
  intros Hs. unfold on_message. wp_run.
  destruct msg; wp_run; peels.
Qed.

Lemma deliver_message_keeps h s :
  I s -> wp (deliver_message h) (fun _ s' => I s') no_throw s.
Proof.
  intros Hs. unfold deliver_message. wp_run.
  destruct (get_thread h s) as [t|] eqn:Ht; wp_run; [|exact Hs].
  assert (H : forall msg rest, t_outbox t = msg :: rest ->
            wp (on_thread h (with_outbox rest) ;; on_message msg)
               (fun _ s' => I s') no_throw s).
  { intros msg rest Ho. wp_run. unfold on_thread. wp_run. rewrite Ht.
    apply on_message_keeps. now apply I_deliver. }
  destruct (t_status t), (t_outbox t) as [|msg rest]; wp_run;
    try exact Hs; now apply H.
Qed.

Lemma deliver_error_keeps h s :
  I s -> wp (deliver_error h) (fun _ s' => I s') no_throw s.
Proof.
  intros Hs. unfold deliver_error. wp_run.
  destruct (get_thread h s) as [t|] eqn:Ht; wp_run; [|exact Hs].
  assert (H : wp (on_thread h (with_status (Exiting 1)) ;; on_error)
                 (fun _ s' => I s') no_throw s).
  { wp_run. eapply wp_post; [now apply on_thread_meta_keeps|].
    cbv beta. intros _ s'. apply on_error_keeps. }
  destruct (t_status t); wp_run; try exact Hs; exact H.
Qed.

Lemma deliver_exit_keeps h code s :
  I s -> wp (deliver_exit h code) (fun _ s' => I s') no_throw s.
Proof.
  intros Hs. unfold deliver_exit. wp_run.
  destruct (get_thread h s) as [t|] eqn:Ht; wp_run; [|exact Hs].
  assert (H : forall c,
            wp (on_thread h (fun t => mkThread Gone (t_lastMs t) []) ;; on_exit c)
               (fun _ s' => I s') no_throw s).
  { intros c. wp_run. unfold on_thread. wp_run. rewrite Ht.
    apply on_exit_keeps. now apply (I_clear s h t). }
  destruct (t_status t); wp_run; try exact Hs; apply H.
Qed.

Lemma resume_loop_keeps i s :
  I s -> wp (resume_loop i) (fun _ s' => I s') no_throw s.
Proof.
  intros Hs. unfold resume_loop. wp_run.
  destruct (nth_error (tasks s) i) as [l|]; wp_run; [|exact Hs].
  apply run_async_keeps, internal_resume_keeps. peels.
Qed.

(** Every turn of the event loop ends normally and keeps the invariant; a
    [get()] returns the cache on the Promoted path and the encoding of the
    clock otherwise. *)
Lemma step_keeps (e : event) (s : State) :
  I (load e s) ->
  exists v s',
    step e s = Done v s' /\ I s' /\
    (act e = CallGet ->
       match controller_state s with
       | Promoted _ => v = Some (cached s)
       | DirectCompute => v = Some (encode48 (clock_ms s'))
       end).
Proof.
  intros Hs. unfold step. apply wp_done.
  destruct (act e) as [|mode| |i|h|h|h|h code]; wp_run.
  - eapply wp_post; [apply (get_keeps _ Hs)|]. cbv beta.
    intros v s' (Hs' & Hv). wp_run. split; [exact Hs'|]. intros _.
    change (controller_state (load e s)) with (controller_state s) in Hv.
    change (cached (load e s)) with (cached s) in Hv.
    destruct (controller_state s); now rewrite Hv.
  - eapply wp_post; [apply (start_keeps mode _ Hs)|]. cbv beta.
    intros _ s' Hs'. wp_run. split; [exact Hs' | discriminate].
  - eapply wp_post; [apply (stop_keeps _ Hs)|]. cbv beta.
    intros _ s' Hs'. wp_run. split; [exact Hs' | discriminate].
  - eapply wp_post; [apply (resume_loop_keeps i _ Hs)|]. cbv beta.
    intros _ s' Hs'. wp_run. split; [exact Hs' | discriminate].
  - eapply wp_post; [apply (run_worker_keeps h _ Hs)|]. cbv beta.
    intros _ s' Hs'. wp_run. split; [exact Hs' | discriminate].
  - eapply wp_post; [apply (deliver_message_keeps h _ Hs)|]. cbv beta.
    intros _ s' Hs'. wp_run. split; [exact Hs' | discriminate].
  - eapply wp_post; [apply (deliver_error_keeps h _ Hs)|]. cbv beta.
    intros _ s' Hs'. wp_run. split; [exact Hs' | discriminate].
  - eapply wp_post; [apply (deliver_exit_keeps h code _ Hs)|]. cbv beta.
    intros _ s' Hs'. wp_run. split; [exact Hs' | discriminate].
Qed.

End Stable.

(* ================================================================== *)
(** * [get()] is total                                                  *)
(* ================================================================== *)

Lemma Forall_list_update {A : Type} (P : A -> Prop) (l : list A) (i : nat) (x : A) :
  Forall P l -> P x -> Forall P (list_update l i x).
Proof.
  intros Hl Hx. revert i. induction Hl as [|y l Hy Hl IH]; intros i.
  - constructor.
  - destruct i; cbn; constructor; auto.
Qed.

Lemma Forall_get_thread (P : thread -> Prop) h t s :
  Forall P (threads s) -> get_thread h s = Some t -> P t.
Proof.
  intros Hl Ht. rewrite Forall_forall in Hl.
  apply Hl. eapply nth_error_In. exact Ht.
Qed.

Lemma cache_valid_put h t s :
  cache_valid s -> Forall message_ok (t_outbox t) ->
  cache_valid (put_thread h t s).
Proof.
  intros (Hc & Ht) Ho. split; [exact Hc|].
  cbn. now apply Forall_list_update.
Qed.

Lemma cache_valid_step (e : event) (s : State) :
  cache_valid s ->
  exists v s',
    step e s = Done v s' /\ cache_valid s' /\
    (act e = CallGet ->
       match controller_state s with
       | Promoted _ => v = Some (cached s)
       | DirectCompute => v = Some (encode48 (clock_ms s'))
       end).
Proof.
  intros Hs. apply (step_keeps cache_valid); try exact Hs.
  - intros s1 s2 Hv (Hc & Ht). unfold view in Hv.
    injection Hv as Hca Hth _ _ _. unfold cache_valid. now rewrite <- Hca, <- Hth.
  - intros s1 (Hc & Ht). unfold cache_valid. now autorewrite with tick.
  - intros s1 (Hc & Ht) _. split; [apply encode48_valid | exact Ht].
  - intros s1 b H. exact H.
  - intros s1 (Hc & Ht). split; [exact Hc|]. cbn.
    apply Forall_app. split; [exact Ht|]. repeat constructor.
  - intros s1 h t st ms H Hg. apply cache_valid_put; [exact H|]. cbn.
    exact (Forall_get_thread _ h t s1 (proj2 H) Hg).
  - intros s1 h t st ms H Hg. apply cache_valid_put; [exact H|]. constructor.
  - intros s1 h t H Hg. apply cache_valid_put; [exact H|]. cbn.
    apply Forall_app. split.
    + exact (Forall_get_thread _ h t s1 (proj2 H) Hg).
    + repeat constructor; cbn; apply encode48_valid.
  - intros s1 h t H Hg. apply cache_valid_put; [exact H|]. cbn.
    apply Forall_app. split.
    + exact (Forall_get_thread _ h t s1 (proj2 H) Hg).
    + repeat constructor.
  - intros s1 h t msg rest H Hg Ho.
    pose proof (Forall_get_thread _ h t s1 (proj2 H) Hg) as Hm. cbv beta in Hm.
    rewrite Ho in Hm. inversion Hm as [|? ? Hmsg Hrest]; subst.
    assert (Hp : cache_valid (put_thread h (with_outbox rest t) s1))
      by (apply cache_valid_put; assumption).
    destruct msg as [x|]; [|exact Hp].
    split; [exact Hmsg | exact (proj2 Hp)].
Qed.

Lemma createTSGen_cache_valid (opts : options) (h : host) (s : State) :
  createTSGen opts h = Done tt s -> cache_valid s.
Proof.
  intros Hc. unfold createTSGen in Hc.
  match type of Hc with ?m ?s0 = _ =>
    assert (Hw : wp m (fun _ s' => cache_valid s') no_throw s0)
  end.
  { wp_run. unfold cache_valid. tick_simpl.
    split; [apply encode48_valid | constructor]. }
  unfold wp in Hw. rewrite Hc in Hw. exact Hw.
Qed.

Lemma reachable_cache_valid (s : State) : reachable s -> cache_valid s.
Proof.
  induction 1 as [opts h s Hc | s e v s' _ IH Hstep].
  - eapply createTSGen_cache_valid, Hc.
  - destruct (cache_valid_step e s IH) as (v' & s'' & Hstep' & Hs'' & _).
    rewrite Hstep in Hstep'. now inversion Hstep'; subst.
Qed.

(** C3. [get()] is total.  In every state the controller can reach, in
    DirectCompute or Promoted with either strategy, a call of [get()] does
    not throw and does not hang: it returns a string of exactly 8 symbols of
    the alphabet -- the cache on the Promoted path, the encoding of the
    clock computed directly otherwise, also when the promotion it requests
    meets a failure. *)
Theorem get_never_fails (s : State) (e : event) :
  reachable s -> act e = CallGet ->
  exists v s',
    step e s = Done (Some v) s' /\
    String.length v = 8%nat /\ in_alphabet v = true /\
    match controller_state s with
    | Promoted _ => v = cached s
    | DirectCompute => v = encode48 (clock_ms s')
    end.
Proof.
  intros Hr He. pose proof (reachable_cache_valid s Hr) as Hs.
  destruct (cache_valid_step e s Hs) as (v & s' & Hstep & Hs' & Hv).
  specialize (Hv He).
  destruct (controller_state s) eqn:Hcs; subst v.
  - exists (encode48 (clock_ms s')), s'.
    repeat split; auto using encode48_length, encode48_in_alphabet.
  - exists (cached s), s'. destruct Hs as ((Hl & Ha) & _).
    repeat split; assumption.
Qed.

Lemma get_never_fails_witness :
  reachable sample_instance /\ act (get_at 100) = CallGet /\
  exists v s',
    step (get_at 100) sample_instance = Done (Some v) s' /\
    String.length v = 8%nat /\ in_alphabet v = true /\
    match controller_state sample_instance with
    | Promoted _ => v = cached sample_instance
    | DirectCompute => v = encode48 (clock_ms s')
    end.
Proof.
  assert (Hr : reachable sample_instance)
    by (apply (reach_create no_options sample_host); reflexivity).
  split; [exact Hr|]. split; [reflexivity|].
  exact (get_never_fails sample_instance (get_at 100) Hr eq_refl).
Defined.

(* ================================================================== *)
(** * [stop()]                                                          *)
(* ================================================================== *)

(** What [stop()] does itself: it cannot fail, it leaves both flags down
    with the stop flag of the loop raised and the worker terminated, and a
    second [stop()] changes nothing. *)
Lemma stop_idempotent (s : State) :
  exists s1,
    stop s = Done tt s1 /\
    stop s1 = Done tt s1 /\
    controller_state s1 = DirectCompute /\
    worker s1 = None /\
    internalController s1 <> Some false /\
    cached s1 = cached s /\ tasks s1 = tasks s.
Proof.
  destruct s as [c ca lm ciw wsn ir ic lh wr w ctor cm tm cn tn sf ts th co].
  unfold stop, stopInternalLoop, stopWorker, try_catch, bind, read, write, ret,
    terminate, on_thread, get_thread, put_thread, controller_state.
  cbn.
  destruct ic as [b|], w as [h|]; cbn;
    try (destruct (nth_error th h) as [t|]; cbn);
    eexists; repeat split; cbn; try reflexivity; discriminate.
Qed.

(** With an internal loop parked, the turn of the event loop that follows
    [stop()] ends the task without writing the cache. *)
Lemma resume_after_stop (s : State) (i : nat) :
  internalController s = Some true ->
  exists s',
    resume_loop i s = Done tt s' /\
    cached s' = cached s /\
    tasks s' = list_remove (tasks s) i /\
    threads s' = threads s /\
    (internalRunning s = false -> internalRunning s' = false).
Proof.
  intros Hc.
  destruct s as [c ca lm ciw wsn ir ic lh wr w ctor cm tm cn tn sf ts th co].
  cbn in Hc. subst ic.
  unfold resume_loop, bind at 1, read at 1. cbn [tasks].
  destruct (nth_error ts i) as [l|] eqn:Hl.
  - unfold run_async, internal_resume, idle_check, request_stop, fuel_of,
      bind, read, write, ret, Date_now.
    cbn. destruct tm as [|t tm]; cbn.
    + destruct (cm - lh >? perfCooldownMs c); cbn;
        eexists; repeat split; reflexivity.
    + destruct (t - lh >? perfCooldownMs c); cbn;
        eexists; repeat split; reflexivity.
  - eexists. split; [reflexivity|]. cbn. repeat split; auto.
    clear -Hl. revert i Hl. induction ts as [|x ts IH]; intros [|i] Hl;
      cbn in *; try discriminate; try reflexivity.
    f_equal. auto.
Qed.

(** C8 fails on the worker strategy.  After [start('worker')] and
    [stop()], the controller is in DirectCompute with no loop task; the
    'exit' event of the terminated worker then reaches the handler with
    code 1, which starts the internal loop: the cache is written and a loop
    task is parked, with [internalRunning] up, although [stop()] has
    returned. *)
Theorem stop_then_worker_exit_restarts_loop :
  final started_then_stopped worker_instance = Some stopped_state /\
  controller_state stopped_state = DirectCompute /\
  tasks stopped_state = [] /\
  map t_status (threads stopped_state) = [Exiting 1] /\
  cached stopped_state = encode48 1700000000002 /\
  step exit_of_terminated stopped_state = Done None state_after_exit /\
  controller_state state_after_exit = Promoted CooperativeLoop /\
  tasks state_after_exit = [1700000000005] /\
  cached state_after_exit = encode48 1700000000005.
Proof.
  repeat split; vm_compute; reflexivity.
Qed.

(* ================================================================== *)
(** * The fallback from the worker to the internal loop                 *)
(* ================================================================== *)

Lemma same_control_refl s : same_control s s.
Proof. unfold same_control. tauto. Qed.

Lemma same_control_trans s1 s2 s3 :
  same_control s1 s2 -> same_control s2 s3 -> same_control s1 s3.
Proof. unfold same_control. intuition congruence. Qed.

Lemma same_control_tick s : same_control s (tick_ms s).
Proof. unfold same_control. autorewrite with tick. tauto. Qed.

Lemma no_idle_gap_tick s : no_idle_gap s -> no_idle_gap (tick_ms s).
Proof.
  unfold no_idle_gap, tick_ms.
  destruct (tape_ms s) as [|t r] eqn:E; cbn; rewrite ?E; [auto|].
  intros (_ & H). exact H.
Qed.

Lemma no_idle_gap_same s s' :
  tape_ms s' = tape_ms s -> cfg s' = cfg s -> no_idle_gap s -> no_idle_gap s'.
Proof. unfold no_idle_gap. intros -> ->. auto. Qed.

(** A property of the clock and of the readings to come holds of the next
    reading, and again after it. *)
Lemma next_reading (P : Z -> Prop) s :
  Forall P (tape_ms s) -> P (clock_ms s) ->
  P (next_ms s) /\ Forall P (tape_ms (tick_ms s)) /\ P (clock_ms (tick_ms s)).
Proof.
  intros HF HC. rewrite tick_ms_clock. unfold next_ms, tick_ms.
  destruct (tape_ms s) as [|t r] eqn:E; cbn; rewrite ?E; [auto|].
  inversion HF; subst. auto.
Qed.

Section Loop.

Variables a cooldown : Z.

Lemma idle_check_passes s :
  perfCooldownMs (cfg s) = cooldown -> lastHighActivityAt s = a ->
  next_ms s - a <= cooldown ->
  idle_check s = Done tt (tick_ms s).
Proof.
  intros Hcd HL H.
  unfold idle_check, bind, read, Date_now, tick_ms, next_ms in *.
  destruct (tape_ms s) as [|t r]; cbn; rewrite Hcd, HL;
    (replace (_ >? cooldown) with false
       by (symmetry; rewrite Z.gtb_ltb; apply Z.ltb_ge; exact H));
    reflexivity.
Qed.

(** While the cooldown cannot expire, the loop runs until the clock repeats
    and parks. *)
Lemma internal_loop_parks (fuel : nat) : forall (local : Z) (s : State),
  fuel_ok fuel local s -> at_head a cooldown local s ->
  wp (internal_loop fuel local)
     (fun r s' => (exists l, r = Awaiting l) /\ same_control s s' /\
                  (local <> next_ms s -> cached s' = encode48 (clock_ms s')) /\
                  (local = next_ms s -> cached s' = cached s /\
                                        clock_ms s' = next_ms s))
     no_throw s.
Proof.
  induction fuel as [|fuel IH]; intros local s Hf Hs.
  - exfalso. destruct Hf as [Hf|(_ & _ & Hf)]; lia.
  - cbn [internal_loop]. unfold get_stopRequested. wp_run.
    destruct Hs as (Hc & Hcd & HL & HF & HD). rewrite Hc. wp_run.
    destruct (next_ms s =? local) eqn:Hcmp; cbn [negb]; wp_run.
    + apply Z.eqb_eq in Hcmp.
      split; [eauto|]. split; [apply same_control_tick|].
      split; [congruence|]. intros _. autorewrite with tick. auto.
    + apply Z.eqb_neq in Hcmp.
      set (P := fun b => b - a <= cooldown) in *.
      assert (H1 : Forall P (tape_ms (tick_ms s)) /\ P (clock_ms (tick_ms s))).
      { destruct HD as [HD|(Hnil & Hloc)].
        - apply (next_reading P s HF HD).
        - exfalso. apply Hcmp. rewrite (next_ms_nil s Hnil). congruence. }
      set (s1 := set_cached (encode48 (next_ms s)) (tick_ms s)).
      destruct (next_reading P s1 (proj1 H1) (proj2 H1)) as (Hn & HF2 & HC2).
      unfold wp at 1.
      rewrite (idle_check_passes s1);
        [| subst s1; cbn; now rewrite tick_ms_cfg
         | subst s1; cbn; now rewrite tick_ms_lastHighActivityAt
         | exact Hn].
      assert (Hs2 : at_head a cooldown (next_ms s) (tick_ms s1)).
      { unfold at_head. subst s1. autorewrite with tick. cbn.
        autorewrite with tick. repeat split; try assumption. now left. }
      assert (Hf2 : fuel_ok fuel (next_ms s) (tick_ms s1)).
      { apply (fuel_ok_next fuel local s); [assumption | congruence | |].
        - etransitivity; [apply tick_ms_tape_length|]. cbn. lia.
        - intros Hnil. rewrite tick_ms_clock. unfold next_ms. subst s1. cbn.
          rewrite (tick_ms_tape_nil s Hnil), Hnil. reflexivity. }
      eapply wp_post; [apply (IH _ _ Hf2 Hs2)|]. cbv beta.
      intros r s' (Hr & Hsc & Hne & Heq).
      split; [exact Hr|]. split.
      * eapply same_control_trans; [|exact Hsc].
        eapply same_control_trans; [apply same_control_tick|].
        eapply same_control_trans; [|apply same_control_tick].
        subst s1. unfold same_control. cbn. tauto.
      * split; [|congruence]. intros _.
        destruct (Z.eq_dec (next_ms s) (next_ms (tick_ms s1))) as [He|He].
        -- destruct (Heq He) as (Hca & Hck). rewrite Hca, Hck.
           rewrite tick_ms_cached. subst s1. cbn. congruence.
        -- apply Hne, He.
Qed.

End Loop.

(** Started with the activity timer at the clock and the readings to come
    within the cooldown of it, the loop is left parked. *)
Lemma internal_start_parks s :
  internalController s = Some false ->
  lastHighActivityAt s = clock_ms s ->
  Forall (fun b => b - clock_ms s <= perfCooldownMs (cfg s)) (tape_ms s) ->
  wp internal_start
     (fun r s' => (exists l, r = Awaiting l) /\ same_control s s' /\
                  cached s' = encode48 (clock_ms s'))
     no_throw s.
Proof.
  intros Hic HL HF. unfold internal_start. wp_run.
  remember (set_cached (encode48 (next_ms s)) (tick_ms s)) as s2 eqn:Es2.
  assert (Hsc2 : same_control s s2).
  { eapply same_control_trans; [apply same_control_tick|].
    subst s2. unfold same_control. cbn. tauto. }
  assert (Hca2 : cached s2 = encode48 (next_ms s)) by (subst s2; reflexivity).
  assert (Hck2 : clock_ms s2 = next_ms s)
    by (subst s2; cbn; apply tick_ms_clock).
  assert (Htp2 : tape_ms s2 = tape_ms (tick_ms s)) by (subst s2; reflexivity).
  assert (Hlen : (List.length (tape_ms s2) <= List.length (tape_ms s))%nat)
    by (rewrite Htp2; apply tick_ms_tape_length).
  assert (Hnil : tape_ms s = [] -> next_ms s2 = next_ms s).
  { intros Hn. unfold next_ms at 1. subst s2. cbn.
    rewrite (tick_ms_tape_nil s Hn), Hn. unfold next_ms. now rewrite Hn. }
  assert (Hhead : at_head (clock_ms s) (perfCooldownMs (cfg s)) (next_ms s) s2).
  { destruct Hsc2 as (Hcfg & _ & Hic2 & HL2 & _).
    unfold at_head. rewrite Hcfg, Hic2, HL2, Htp2, Hck2.
    split; [exact Hic|]. split; [reflexivity|]. split; [exact HL|].
    unfold tick_ms, next_ms.
    destruct (tape_ms s) as [|t r] eqn:E; cbn; rewrite ?E.
    - split; [constructor|]. right. auto.
    - inversion HF; subst. split; [assumption|]. now left. }
  clear Es2.
  eapply wp_post;
    [apply (internal_loop_parks (clock_ms s) (perfCooldownMs (cfg s))
              (fuel_of s) (next_ms s) s2)|].
  - apply fuel_of_ok. exact Hlen.
  - exact Hhead.
  - cbv beta. intros r s' (Hr & Hsc & Hne & Heq).
    split; [exact Hr|]. split; [eapply same_control_trans; eassumption|].
    destruct (Z.eq_dec (next_ms s) (next_ms s2)) as [He|He].
    + destruct (Heq He) as (Hca & Hck). rewrite Hca, Hck, Hca2, <- He.
      reflexivity.
    + apply Hne, He.
Qed.

Lemma startInternalLoop_promotes s :
  no_idle_gap s ->
  wp startInternalLoop
     (fun _ s' =>
        internalRunning s' = true /\
        workerRunning s' = workerRunning s /\ worker s' = worker s /\
        threads s' = threads s /\
        (internalRunning s = false ->
           (exists l, tasks s' = (tasks s ++ [l])%list) /\
           cached s' = encode48 (clock_ms s')))
     no_throw s.
Proof.
  intros Hgap. unfold startInternalLoop. wp_run.
  destruct (internalRunning s) eqn:Hir; wp_run.
  { split; [|split; [|split; [|split]]]; auto. intros; discriminate. }
  match goal with |- wp _ _ _ ?st => remember st as s1 eqn:Es1 end.
  assert (Hf : internalRunning s1 = true /\ internalController s1 = Some false /\
               lastHighActivityAt s1 = clock_ms s1 /\ cfg s1 = cfg s /\
               workerRunning s1 = workerRunning s /\ worker s1 = worker s /\
               threads s1 = threads s /\ tasks s1 = tasks s /\
               clock_ms s1 = next_ms s /\
               tape_ms s1 = tape_ms (tick_ms s)).
  { subst s1. cbn. autorewrite with tick. cbn.
    repeat split; try reflexivity.
    unfold tick_ms. cbn. destruct (tape_ms s); reflexivity. }
  destruct Hf as (Hir1 & Hic1 & HL1 & Hcfg1 & Hwr1 & Hw1 & Hth1 & Hts1 & Hck1 & Htp1).
  clear Es1.
  assert (HF1 : Forall (fun b => b - clock_ms s1 <= perfCooldownMs (cfg s1))
                       (tape_ms s1)).
  { rewrite Hcfg1, Hck1, Htp1. unfold no_idle_gap in Hgap.
    unfold tick_ms, next_ms.
    destruct (tape_ms s) as [|t r] eqn:E; cbn; rewrite ?E; [constructor|].
    exact (proj1 Hgap). }
  assert (Hb : wp internal_start
      (fun r s' => (exists l, r = Awaiting l) /\ same_control s1 s' /\
                   cached s' = encode48 (clock_ms s'))
      no_throw s1)
    by (apply internal_start_parks; assumption).
  unfold wp at 1, run_async. cbv beta. unfold wp in Hb.
  destruct (internal_start s1) as [r s'|e s'|]; try contradiction.
  destruct Hb as ((l & ->) & Hsc & Hca).
  destruct Hsc as (_ & Hir' & _ & _ & Hwr & Hw & Hts & Hth).
  cbn. rewrite Hir', Hwr, Hw, Hts, Hth, Hir1, Hwr1, Hw1, Hth1, Hts1.
  repeat split; auto. eauto.
Qed.

Lemma promoted_loop s :
  workerRunning s = false -> internalRunning s = true ->
  controller_state s = Promoted CooperativeLoop.
Proof. unfold controller_state. now intros -> ->. Qed.

Lemma stopWorker_done s :
  exists s',
    stopWorker s = Done tt s' /\
    workerRunning s' = false /\ worker s' = None /\
    cfg s' = cfg s /\ clock_ms s' = clock_ms s /\ tape_ms s' = tape_ms s /\
    internalRunning s' = internalRunning s /\ tasks s' = tasks s /\
    cached s' = cached s /\ console s' = console s.
Proof.
  destruct s as [c ca lm ciw wsn ir ic lh wr w ctor cm tm cn tn sf ts th co].
  unfold stopWorker, try_catch, bind, read, write, ret, terminate, on_thread,
    get_thread, put_thread.
  cbn. destruct w as [h|]; cbn;
    try (destruct (nth_error th h) as [t|]; cbn);
    eexists; repeat split; reflexivity.
Qed.

(** The loop is started from [m] when [m] first leaves the worker flag down
    without reading the clock. *)
Lemma ends_in_loop_via (m : M unit) (s : State) :
  no_idle_gap s ->
  (exists s1,
     m s = startInternalLoop s1 /\
     workerRunning s1 = false /\
     cfg s1 = cfg s /\ clock_ms s1 = clock_ms s /\ tape_ms s1 = tape_ms s /\
     internalRunning s1 = internalRunning s /\ tasks s1 = tasks s) ->
  ends_in_loop m s.
Proof.
  intros Hgap (s1 & Hm & Hwr & Hcfg & Hck & Htp & Hir & Hts).
  assert (Hc1 : no_idle_gap s1) by (eapply no_idle_gap_same; eassumption).
  destruct (wp_done _ _ _ (startInternalLoop_promotes s1 Hc1))
    as ([] & s' & Hrun & Hir' & Hwr' & _ & _ & Hnew).
  exists tt, s'. rewrite Hm. split; [exact Hrun|]. split.
  - apply promoted_loop; congruence.
  - intros Hoff. rewrite <- Hts. apply Hnew. congruence.
Qed.

Lemma startWorker_falls_back s :
  no_idle_gap s -> workerRunning s = false ->
  WorkerCtor s = false \/ spawn_fails s = true ->
  ends_in_loop startWorker s.
Proof.
  intros Hgap Hwr Hfail.
  destruct (WorkerCtor s) eqn:Hctor.
  - destruct Hfail as [Hf|Hf]; [discriminate|].
    (* the constructor throws *)
    set (s1 := set_console
                 ("tsgen: worker start failed, falling back to internal loop"
                    :: console s)
                 (set_lastHighActivityAt (next_ms s) (tick_ms s))).
    assert (Hc1 : no_idle_gap s1).
    { apply (no_idle_gap_same (tick_ms s)); try reflexivity. now apply no_idle_gap_tick. }
    destruct (wp_done _ _ _ (startInternalLoop_promotes s1 Hc1))
      as ([] & s' & Hrun & Hir' & Hwr' & _ & _ & Hnew).
    exists tt, s'. split.
    + unfold startWorker, bind, read, write, ret, try_catch, new_WorkerCtor,
        console_error, Date_now, next_ms, tick_ms in *.
      rewrite Hwr, Hctor. cbn.
      destruct (tape_ms s) as [|t r] eqn:Htape; cbn; rewrite Hf; cbn;
        subst s1; cbn in Hrun; rewrite ?Htape in Hrun; cbn in Hrun;
        rewrite Hrun; reflexivity.
    + split.
      * apply promoted_loop; [|exact Hir']. rewrite Hwr'. subst s1. cbn.
        now rewrite tick_ms_workerRunning.
      * intros Hoff. subst s1. cbn in Hnew. autorewrite with tick in Hnew.
        now apply Hnew.
  - apply ends_in_loop_via; [exact Hgap|]. exists s. split.
    + unfold startWorker, bind, read. rewrite Hwr, Hctor. reflexivity.
    + tauto.
Qed.

Lemma deliver_error_falls_back s h t :
  no_idle_gap s -> get_thread h s = Some t -> alive t = true ->
  ends_in_loop (deliver_error h) s.
Proof.
  intros Hgap Ht Halive.
  assert (H : exists s2,
            (on_thread h (with_status (Exiting 1)) ;; on_error) s
            = startInternalLoop s2 /\
            workerRunning s2 = false /\
            cfg s2 = cfg s /\ clock_ms s2 = clock_ms s /\
            tape_ms s2 = tape_ms s /\
            internalRunning s2 = internalRunning s /\ tasks s2 = tasks s).
  { unfold on_error, console_error, on_thread, bind, write.
    cbv beta iota. rewrite Ht. cbv beta iota.
    match goal with |- exists s2, match stopWorker ?st with _ => _ end = _ /\ _ =>
      destruct (stopWorker_done st)
        as (s2 & Hstop & Hwr & _ & Hcfg & Hck & Htp & Hir & Hts & _)
    end.
    exists s2. rewrite Hstop. cbn in *. tauto. }
  destruct H as (s2 & Hrun & Hrest).
  apply ends_in_loop_via; [exact Hgap|]. exists s2. split; [|exact Hrest].
  unfold deliver_error, bind at 1, read at 1. rewrite Ht.
  unfold alive in Halive. destruct (t_status t); try discriminate; exact Hrun.
Qed.

Lemma deliver_exit_falls_back s h t code c :
  no_idle_gap s -> get_thread h s = Some t -> exit_code t code = Some c -> c <> 0 ->
  ends_in_loop (deliver_exit h code) s.
Proof.
  intros Hgap Ht Hcode Hc.
  set (s1 := set_worker None
               (set_workerRunning false
                  (put_thread h (mkThread Gone (t_lastMs t) []) s))).
  apply ends_in_loop_via; [exact Hgap|]. exists s1. split.
  - unfold deliver_exit, bind at 1, read at 1. rewrite Ht.
    assert (H : (on_thread h (fun t => mkThread Gone (t_lastMs t) []) ;; on_exit c) s
                = startInternalLoop s1).
    { unfold on_exit, on_thread, bind, write. rewrite Ht.
      replace (c =? 0) with false by (symmetry; now apply Z.eqb_neq).
      reflexivity. }
    unfold exit_code in Hcode.
    destruct (t_status t); try discriminate; inversion Hcode; subst; exact H.
  - subst s1. cbn. tauto.
Qed.

Lemma get_falls_back s :
  no_idle_gap s -> controller_state s = DirectCompute ->
  prefer (cfg s) <> "basic" -> prefer (cfg s) <> "internal" ->
  WorkerCtor s = false \/ spawn_fails s = true ->
  signal s = true ->
  exists s',
    get s = Done (encode48 (clock_ms s')) s' /\
    controller_state s' = Promoted CooperativeLoop.
Proof.
  intros Hgap Hdc Hnb Hni Hfail Hsig.
  assert (Hflags : workerRunning s = false /\ internalRunning s = false).
  { unfold controller_state in Hdc.
    destruct (workerRunning s), (internalRunning s); try discriminate; auto. }
  destruct Hflags as (Hwr & Hir).
  assert (H : wp get (fun v s' => v = encode48 (clock_ms s') /\
                        controller_state s' = Promoted CooperativeLoop)
                 no_throw s).
  { unfold get. wp_run. rewrite Hwr. wp_run. rewrite Hir. wp_run.
    unfold wp at 1. destruct (markCall_shape s) as (w0 & c0 & ->).
    rewrite Hsig.
    set (s1 := set_windowStartNano _ _).
    assert (Hs1 : no_idle_gap s1 /\ workerRunning s1 = false /\
                  cfg s1 = cfg s /\ WorkerCtor s1 = WorkerCtor s /\
                  spawn_fails s1 = spawn_fails s).
    { subst s1. split.
      - apply (no_idle_gap_same s); cbn; autorewrite with tick; auto.
      - cbn. autorewrite with tick. auto. }
    destruct Hs1 as (Hc1 & Hwr1 & Hcfg1 & Hctor1 & Hsf1).
    wp_run. unfold requestPerf. wp_run. cbn [cfg set_lastHighActivityAt].
    rewrite tick_ms_cfg, Hcfg1.
    set (s2 := set_lastHighActivityAt (next_ms s1) (tick_ms s1)).
    assert (Hc2 : no_idle_gap s2).
    { apply (no_idle_gap_same (tick_ms s1)); try reflexivity.
      now apply no_idle_gap_tick. }
    assert (Hwr2 : workerRunning s2 = false)
      by (subst s2; cbn; now rewrite tick_ms_workerRunning).
    assert (Hfail2 : WorkerCtor s2 = false \/ spawn_fails s2 = true).
    { subst s2. cbn. rewrite tick_ms_WorkerCtor, tick_ms_spawn_fails.
      now rewrite Hctor1, Hsf1. }
    assert (Hcont : forall s3,
              controller_state s3 = Promoted CooperativeLoop ->
              wp basicGet (fun v s' => v = encode48 (clock_ms s') /\
                             controller_state s' = Promoted CooperativeLoop)
                 no_throw s3).
    { intros s3 H3. unfold basicGet. wp_run. split.
      - now rewrite tick_ms_clock.
      - unfold controller_state in *. now autorewrite with tick. }
    assert (Hsw : wp startWorker (fun _ s' => wp basicGet
                     (fun v s'' => v = encode48 (clock_ms s'') /\
                        controller_state s'' = Promoted CooperativeLoop)
                     no_throw s') no_throw s2).
    { destruct (startWorker_falls_back s2 Hc2 Hwr2 Hfail2)
        as ([] & s3 & Hrun & H3 & _).
      eapply wp_of_done; [exact Hrun|]. now apply Hcont. }
    destruct (String.eqb (prefer (cfg s)) "basic") eqn:Eb.
    { apply String.eqb_eq in Eb. contradiction. }
    destruct (String.eqb (prefer (cfg s)) "worker") eqn:Ew; [exact Hsw|].
    destruct (String.eqb (prefer (cfg s)) "internal") eqn:Ei.
    { apply String.eqb_eq in Ei. contradiction. }
    wp_run. destruct (WorkerCtor s2) eqn:Hctor2; [exact Hsw|].
    eapply wp_post; [apply (startInternalLoop_promotes s2 Hc2)|]. cbv beta.
    intros _ s3 (Hir3 & Hwr3 & _). apply Hcont.
    apply promoted_loop; congruence. }
  destruct (wp_done _ _ _ H) as (v & s' & Hrun & -> & Hcs).
  exists s'. split; assumption.
Qed.




(* ================================================================== *)
(** * Monotonicity of the cache                                         *)
(* ================================================================== *)

Lemma nondecreasing_from_weaken lo lo' l :
  lo' <= lo -> nondecreasing_from lo l -> nondecreasing_from lo' l.
Proof. destruct l; cbn; [auto|]. intros H (Hx & Hr). split; [lia | exact Hr]. Qed.

Lemma nondecreasing_from_drop lo l f :
  nondecreasing_from lo (l ++ f)%list -> nondecreasing_from lo f.
Proof.
  revert lo. induction l as [|x l IH]; intros lo; cbn; [auto|].
  intros (Hx & Hr). apply IH. eapply nondecreasing_from_weaken; [|exact Hr]. lia.
Qed.

Lemma pending_from_hi lo hi hi' o :
  hi <= hi' -> pending_from lo hi o -> pending_from lo hi' o.
Proof.
  intros Hh. revert lo. induction o as [|[x|] o IH]; intros lo; cbn; auto.
  intros (m & Hx & Hm & Hr). exists m. repeat split; try lia; auto.
Qed.

Lemma pending_from_post lo hi o :
  lo <= hi ->
  pending_from lo hi o ->
  pending_from lo hi (o ++ [MString (encode48 hi)])%list.
Proof.
  revert lo. induction o as [|[x|] o IH]; intros lo Hl; cbn.
  - intros _. exists hi. repeat split; lia.
  - intros (m & Hx & Hm & Hr). exists m. repeat split; try lia; auto.
    apply IH; [lia | exact Hr].
  - intros Hr. apply IH; assumption.
Qed.

Lemma pending_from_post_object lo hi o :
  pending_from lo hi o -> pending_from lo hi (o ++ [MObject])%list.
Proof.
  revert lo. induction o as [|[x|] o IH]; intros lo; cbn; auto.
  intros (m & Hx & Hm & Hr). exists m. repeat split; try lia; auto.
Qed.

Lemma list_update_nil_iff {A : Type} (l : list A) i x :
  list_update l i x = [] <-> l = [].
Proof. destruct l, i; cbn; split; intros; congruence. Qed.

Lemma list_update_single {A : Type} (l : list A) i x y :
  list_update l i x = [y] -> exists z, l = [z].
Proof.
  destruct l as [|a [|b l]]; cbn; [discriminate| |].
  - intros _. eauto.
  - intros H. destruct i as [|[|i]]; cbn in H; discriminate.
Qed.

Lemma single_refresher_put h t s :
  single_refresher (put_thread h t s) -> single_refresher s.
Proof.
  unfold single_refresher. cbn. intros [H|(Hc & y & H)].
  - left. now apply list_update_nil_iff in H.
  - right. split; [exact Hc|]. now apply list_update_single in H.
Qed.

Section Ordered.

Variable lo : Z.
Variable future : list Z.

Lemma ordered_view s s' : view s = view s' -> ordered lo future s -> ordered lo future s'.
Proof.
  unfold view. intros Hv. injection Hv as Hca Hth Hck Htp Hic.
  unfold ordered, single_refresher. now rewrite <- Hca, <- Hth, <- Hck, <- Htp, <- Hic.
Qed.

Lemma ordered_tick s : ordered lo future s -> ordered lo future (tick_ms s).
Proof.
  intros (Hlo & Hck & Hnd & Hbody). unfold ordered, single_refresher.
  rewrite tick_ms_cached, tick_ms_threads, tick_ms_internalController.
  unfold tick_ms. destruct (tape_ms s) as [|t r] eqn:Htape.
  - rewrite Htape. auto.
  - cbn. cbn in Hnd. destruct Hnd as (Ht & Hr).
    split; [exact Hlo|]. split; [lia|]. split; [exact Hr|].
    intros Hw. destruct (Hbody Hw) as (m & Hm & Hca & Hp).
    exists m. split; [lia|]. split; [exact Hca|].
    eapply Forall_impl; [|exact Hp]. intros th. apply pending_from_hi. lia.
Qed.

Lemma ordered_now s :
  ordered lo future s -> internalController s <> None \/ threads s = [] ->
  ordered lo future (set_cached (encode48 (clock_ms s)) s).
Proof.
  intros (Hlo & Hck & Hnd & Hbody) Hwho.
  split; [exact Hlo|]. split; [exact Hck|]. split; [exact Hnd|].
  intros Hw. cbn.
  assert (Hth : threads s = []).
  { destruct Hwho as [Hc|Hth]; [|exact Hth].
    destruct Hw as [Hth|(Hnone & _)]; [exact Hth | contradiction]. }
  destruct (Hbody (or_introl Hth)) as (m & Hm & _ & _).
  exists (clock_ms s). split; [lia|]. split; [reflexivity|].
  rewrite Hth. constructor.
Qed.

Lemma ordered_controller s b :
  ordered lo future s -> ordered lo future (set_internalController (Some b) s).
Proof.
  intros (Hlo & Hck & Hnd & Hbody).
  split; [exact Hlo|]. split; [exact Hck|]. split; [exact Hnd|].
  intros [Hth|(Hc & _)]; [|discriminate]. cbn in Hth |- *.
  exact (Hbody (or_introl Hth)).
Qed.

Lemma ordered_spawn s :
  ordered lo future s ->
  ordered lo future (set_threads (threads s ++ [mkThread Spawned 0 []]) s).
Proof.
  intros (Hlo & Hck & Hnd & Hbody).
  split; [exact Hlo|]. split; [exact Hck|]. split; [exact Hnd|].
  intros [Hth|(Hc & t & Hth)]; cbn in *.
  - destruct (threads s); discriminate.
  - assert (Hnil : threads s = []).
    { destruct (threads s) as [|a [|b l]]; [reflexivity | discriminate | discriminate]. }
    destruct (Hbody (or_introl Hnil)) as (m & Hm & Hca & _).
    exists m. split; [exact Hm|]. split; [exact Hca|].
    rewrite Hnil. cbn. repeat constructor.
Qed.

Lemma ordered_put s h t t' :
  ordered lo future s -> get_thread h s = Some t ->
  (forall m, m <= clock_ms s ->
             pending_from m (clock_ms s) (t_outbox t) ->
             pending_from m (clock_ms s) (t_outbox t')) ->
  ordered lo future (put_thread h t' s).
Proof.
  intros (Hlo & Hck & Hnd & Hbody) Hg Ht'.
  split; [exact Hlo|]. split; [exact Hck|]. split; [exact Hnd|].
  intros Hw. apply single_refresher_put in Hw.
  destruct (Hbody Hw) as (m & Hm & Hca & Hp).
  exists m. split; [exact Hm|]. split; [exact Hca|]. cbn.
  apply Forall_list_update; [exact Hp|].
  apply Ht'; [lia|]. exact (Forall_get_thread _ h t s Hp Hg).
Qed.

Lemma ordered_deliver s h t msg rest :
  ordered lo future s -> get_thread h s = Some t -> t_outbox t = msg :: rest ->
  ordered lo future (accept msg (put_thread h (with_outbox rest t) s)).
Proof.
  intros (Hlo & Hck & Hnd & Hbody) Hg Ho.
  destruct msg as [x|]; cbn [accept].
  - split; [exact Hlo|]. split; [exact Hck|]. split; [exact Hnd|].
    intros Hw.
    assert (Hw0 : single_refresher s).
    { apply (single_refresher_put h (with_outbox rest t)). exact Hw. }
    destruct (Hbody Hw0) as (m & Hm & Hca & Hp).
    pose proof (Forall_get_thread _ h t s Hp Hg) as Hpt. cbv beta in Hpt.
    rewrite Ho in Hpt. cbn in Hpt. destruct Hpt as (m1 & -> & Hm1 & Hrest).
    exists m1. cbn. split; [lia|]. split; [reflexivity|].
    (* the thread is the only one *)
    destruct Hw0 as [Hnil|(_ & t0 & Hone)].
    + unfold get_thread in Hg. rewrite Hnil in Hg. destruct h; discriminate.
    + rewrite Hone. unfold get_thread in Hg. rewrite Hone in Hg.
      destruct h as [|h]; cbn in *; [|destruct h; discriminate].
      repeat constructor. exact Hrest.
  - apply (ordered_put s h t);
      [exact (conj Hlo (conj Hck (conj Hnd Hbody))) | exact Hg |].
    intros m _. rewrite Ho. cbn. auto.
Qed.

(** A run keeps the invariant turn by turn. *)
Lemma ordered_step (e : event) (s : State) :
  ordered lo (ms_readings e ++ future)%list s ->
  exists v s',
    step e s = Done v s' /\ ordered lo future s' /\
    (act e = CallGet ->
       match controller_state s with
       | Promoted _ => v = Some (cached s)
       | DirectCompute => v = Some (encode48 (clock_ms s'))
       end).
Proof.
  intros (Hlo & Hck & Hnd & Hbody).
  apply (step_keeps (ordered lo future)).
  - exact ordered_view.
  - exact ordered_tick.
  - exact ordered_now.
  - intros; now apply ordered_controller.
  - exact ordered_spawn.
  - intros s1 h t st ms H Hg. apply (ordered_put s1 h t); auto.
  - intros s1 h t st ms H Hg. apply (ordered_put s1 h t); cbn; auto.
  - intros s1 h t H Hg. apply (ordered_put s1 h t); auto.
    intros m Hm Hp. cbn. now apply pending_from_post.
  - intros s1 h t H Hg. apply (ordered_put s1 h t); auto.
    intros m _ Hp. cbn. now apply pending_from_post_object.
  - exact ordered_deliver.
  - split; [exact Hlo|]. split; [exact Hck|]. split.
    + cbn. apply nondecreasing_from_drop in Hnd. exact Hnd.
    + exact Hbody.
Qed.

End Ordered.

Lemma clock_tick (future : list Z) (s : State) :
  0 <= clock_ms s < 2 ^ 48 ->
  nondecreasing_from (clock_ms s) (tape_ms s ++ future)%list ->
  0 <= clock_ms (tick_ms s) < 2 ^ 48 /\
  nondecreasing_from (clock_ms (tick_ms s)) (tape_ms (tick_ms s) ++ future)%list.
Proof.
  intros Hck Hnd. unfold tick_ms. destruct (tape_ms s) as [|t r] eqn:Htape.
  - rewrite Htape. auto.
  - cbn in *. destruct Hnd as (Ht & Hr). split; [lia | exact Hr].
Qed.

Lemma ordered_seed (future : list Z) (s : State) :
  0 <= clock_ms s < 2 ^ 48 ->
  nondecreasing_from (clock_ms s) (tape_ms s ++ future)%list ->
  threads s = [] ->
  ordered 0 future (set_cached (encode48 (clock_ms s)) s).
Proof.
  intros Hck Hnd Hth. split; [lia|]. split; [exact Hck|]. split; [exact Hnd|].
  intros _. exists (clock_ms s). cbn. split; [lia|]. split; [reflexivity|].
  rewrite Hth. constructor.
Qed.

Lemma createTSGen_ordered (opts : options) (h : host) (s0 : State)
    (future : list Z) :
  createTSGen opts h = Done tt s0 ->
  0 <= host_clock_ms h < 2 ^ 48 ->
  nondecreasing_from (host_clock_ms h) (host_ms_readings h ++ future)%list ->
  ordered 0 future s0.
Proof.
  intros Hc Hck Hnd. unfold createTSGen in Hc.
  match type of Hc with ?m ?d = _ =>
    assert (Hw : wp m (fun _ s' => ordered 0 future s') no_throw d);
      [set (s := d) | unfold wp in Hw; rewrite Hc in Hw; exact Hw]
  end.
  wp_run.
  destruct (clock_tick future s Hck Hnd) as (Hck1 & Hnd1).
  assert (H1 : ordered 0 future (set_cached (encode48 (next_ms s)) (tick_ms s))).
  { rewrite <- (tick_ms_clock s). apply ordered_seed; try assumption.
    now rewrite tick_ms_threads. }
  apply ordered_tick in H1.
  eapply ordered_view; [|exact H1]. unfold view.
  repeat (autorewrite with tick; cbn [cached threads clock_ms tape_ms
    internalController set_windowStartNano set_lastMs]).
  reflexivity.
Qed.

Lemma ordered_refine lo future s :
  ordered lo future s -> single_refresher s ->
  exists m, lo <= m < 2 ^ 48 /\ cached s = encode48 m /\ ordered m future s.
Proof.
  intros (Hlo & Hck & Hnd & Hbody) Hw.
  destruct (Hbody Hw) as (m & Hm & Hca & Hp).
  exists m. split; [lia|]. split; [exact Hca|].
  split; [lia|]. split; [exact Hck|]. split; [exact Hnd|].
  intros _. exists m. split; [lia|]. split; [exact Hca | exact Hp].
Qed.

Lemma above_weaken lo lo' x : lo' <= lo -> above lo x -> above lo' x.
Proof. intros H (m & Hx & Hm). exists m. split; [exact Hx | lia]. Qed.

Lemma above_le m x : 0 <= m -> above m x -> str_le (encode48 m) x.
Proof. intros H0 (m' & -> & Hm'). apply encode48_le; lia. Qed.

Lemma sorted_cons_above m l :
  0 <= m -> Forall (above m) l -> StronglySorted str_le l ->
  StronglySorted str_le (encode48 m :: l).
Proof.
  intros H0 Hall Hs. constructor; [exact Hs|].
  eapply Forall_impl; [|exact Hall]. intros x. now apply above_le.
Qed.

(** Along a run with a non-decreasing clock and a single refresher, the
    cache and the strings [get()] serves from it only go up. *)
Lemma run_ordered (evs : list event) :
  forall (lo : Z) (future : list Z) (s : State) (states : list State) (s' : State),
    ordered lo (List.concat (map ms_readings evs) ++ future)%list s ->
    run evs s = Done states s' ->
    Forall single_refresher states ->
    (Forall (above lo) (map cached states) /\
     StronglySorted str_le (map cached states)) /\
    (Forall (above lo) (promoted_gets evs s) /\
     StronglySorted str_le (promoted_gets evs s)).
Proof.
  induction evs as [|e rest IH]; intros lo future s states s' Hs Hrun Hw.
  - cbn in Hrun. inversion Hrun; subst. inversion Hw as [|? ? Hws _]; subst.
    destruct (ordered_refine _ _ _ Hs Hws) as (m & Hm & Hca & _).
    cbn. rewrite Hca. split.
    + split; [repeat constructor; exists m; auto|].
      repeat constructor.
    + split; constructor.
  - cbn [map List.concat] in Hs. rewrite <- app_assoc in Hs.
    cbn [run] in Hrun.
    assert (Hws : single_refresher s).
    { destruct (step e s) as [v s1|x s1|]; try discriminate.
      destruct (run rest s1) as [l s2|x s2|]; try discriminate.
      inversion Hrun; subst. now inversion Hw. }
    destruct (ordered_refine _ _ _ Hs Hws) as (m & Hm & Hca & Hsm).
    destruct (ordered_step m _ e s Hsm) as (v & s1 & Hstep & Hs1 & Hv).
    rewrite Hstep in Hrun.
    destruct (run rest s1) as [l s2|x s2|] eqn:Hrest; try discriminate.
    inversion Hrun; subst. inversion Hw as [|? ? _ Hwl]; subst.
    destruct (IH m future s1 l s' Hs1 Hrest Hwl) as ((Ha & Hsorted) & (Hga & Hgs)).
    assert (H0 : 0 <= m) by (destruct Hs as (H0 & _); lia).
    split.
    + cbn [map]. rewrite Hca. split.
      * constructor; [exists m; auto|].
        eapply Forall_impl; [|exact Ha]. intros x. apply above_weaken. lia.
      * now apply sorted_cons_above.
    + cbn [promoted_gets]. rewrite Hstep.
      assert (Hskip : Forall (above lo) (promoted_gets rest s1) /\
                      StronglySorted str_le (promoted_gets rest s1)).
      { split; [|exact Hgs].
        eapply Forall_impl; [|exact Hga]. intros x. apply above_weaken. lia. }
      destruct (act e) eqn:Hact; try exact Hskip.
      specialize (Hv eq_refl).
      destruct (controller_state s); [now subst v|]. subst v.
      rewrite Hca. split.
      * constructor; [exists m; auto | apply Hskip].
      * now apply sorted_cons_above.
Qed.

(** C7, amended. On the Promoted path, with a non-decreasing 48-bit clock
    and as long as a single refresher has been at work (no worker thread
    was ever created, or one was and no internal loop was ever started),
    the cache is only ever overwritten with the encoding of a later-or-equal
    millisecond: along every run from construction, the successive contents
    of the cache are encodings of 48-bit readings and form a non-decreasing
    sequence in lexicographic order, and so do the strings returned by the
    calls of [get()] that are served from the cache. *)
Theorem single_refresher_monotone (opts : options) (h : host) (s0 : State)
    (evs : list event) (states : list State) (s' : State) :
  createTSGen opts h = Done tt s0 ->
  clock_nondecreasing h evs ->
  run evs s0 = Done states s' ->
  Forall single_refresher states ->
  Forall (above 0) (map cached states) /\
  StronglySorted str_le (map cached states) /\
  StronglySorted str_le (promoted_gets evs s0).
Proof.
  intros Hc (Hck & Hnd) Hrun Hw.
  pose proof (createTSGen_ordered opts h s0 _ Hc Hck Hnd) as Hs0.
  rewrite <- (app_nil_r (List.concat _)) in Hs0.
  destruct (run_ordered evs 0 [] s0 states s' Hs0 Hrun Hw)
    as ((Ha & Hs) & (_ & Hg)).
  auto.
Qed.

Lemma single_refresher_monotone_witness :
  createTSGen worker_options sample_host = Done tt worker_instance /\
  clock_nondecreasing sample_host worker_only /\
  run worker_only worker_instance = Done worker_only_states worker_only_final /\
  Forall single_refresher worker_only_states /\
  Forall (above 0) (map cached worker_only_states) /\
  StronglySorted str_le (map cached worker_only_states) /\
  StronglySorted str_le (promoted_gets worker_only worker_instance).
Proof.
  assert (Hclock : clock_nondecreasing sample_host worker_only).
  { unfold clock_nondecreasing. cbn. repeat split; lia. }
  assert (Hrun : run worker_only worker_instance
                 = Done worker_only_states worker_only_final)
    by (vm_compute; reflexivity).
  assert (Hw : Forall single_refresher worker_only_states).
  { unfold worker_only_states.
    repeat match goal with
           | |- Forall _ (_ :: _) => apply Forall_cons
           | |- Forall _ [] => apply Forall_nil
           end;
      solve [left; reflexivity
            |right; split; [reflexivity | eexists; reflexivity]]. }
  split; [reflexivity|]. split; [exact Hclock|]. split; [exact Hrun|].
  split; [exact Hw|].
  exact (single_refresher_monotone worker_options sample_host worker_instance
           worker_only worker_only_states worker_only_final
           eq_refl Hclock Hrun Hw).
Defined.

(** C7, as stated, fails: with a non-decreasing clock, once an internal
    loop and a worker both refresh the cache, a message that was posted
    before the loop's last write is delivered after it and takes the cache
    back: two successive calls of [get()] on the Promoted path return the
    encoding of millisecond ...002 and then that of ...001. *)
Lemma promoted_get_can_decrease :
  createTSGen no_options sample_host = Done tt sample_instance /\
  clock_nondecreasing sample_host race /\
  promoted_gets race sample_instance
  = [encode48 1700000000002; encode48 1700000000001] /\
  str_lt (encode48 1700000000001) (encode48 1700000000002) /\
  ~ StronglySorted str_le (promoted_gets race sample_instance).
Proof.
  split; [reflexivity|]. split.
  { unfold clock_nondecreasing. cbn. repeat split; lia. }
  assert (Hg : promoted_gets race sample_instance
               = [encode48 1700000000002; encode48 1700000000001])
    by (vm_compute; reflexivity).
  split; [exact Hg|]. split; [vm_compute; reflexivity|].
  rewrite Hg. intros Hs. inversion Hs as [|? ? _ Hall]; subst.
  inversion Hall as [|? ? Hle _]; subst. apply Hle. vm_compute. reflexivity.
Qed.

(* ================================================================== *)
(** * Further properties of the encoder                                 *)
(* ================================================================== *)

(** X1. On 48-bit values, comparing two encodings as strings is comparing the
    values: the three outcomes agree. *)
Theorem encode48_compare (a b : Z) :
  0 <= a < 2 ^ 48 -> 0 <= b < 2 ^ 48 ->
  toBase64Url48 (VBigInt a) = Ok (encode48 a) /\
  toBase64Url48 (VBigInt b) = Ok (encode48 b) /\
  String.compare (encode48 a) (encode48 b) = (a ?= b).
Proof.
  intros Ha Hb. split; [reflexivity|]. split; [reflexivity|].
  destruct (Z.compare_spec a b) as [Heq|Hlt|Hgt].
  - subst b. apply str_compare_refl.
  - apply encode48_lt; lia.
  - rewrite String.compare_antisym.
    assert (H : str_lt (encode48 b) (encode48 a)) by (apply encode48_lt; lia).
    unfold str_lt in H. now rewrite H.
Qed.

Lemma encode48_compare_witness :
  0 <= 1700000000001 < 2 ^ 48 /\ 0 <= 1700000000000 < 2 ^ 48 /\
  toBase64Url48 (VBigInt 1700000000001) = Ok (encode48 1700000000001) /\
  toBase64Url48 (VBigInt 1700000000000) = Ok (encode48 1700000000000) /\
  String.compare (encode48 1700000000001) (encode48 1700000000000)
  = (1700000000001 ?= 1700000000000).
Proof.
  split; [lia|]. split; [lia|].
  apply (encode48_compare 1700000000001 1700000000000); lia.
Defined.

(** X2. Two integers of any size and sign have the same encoding exactly when
    they agree modulo 2^48: a timestamp beyond 48 bits, or a negative one,
    is encoded as the 48-bit value it wraps to. *)
Theorem toBase64Url48_eq_iff (a b : Z) :
  toBase64Url48 (VBigInt a) = toBase64Url48 (VBigInt b)
  <-> a mod 2 ^ 48 = b mod 2 ^ 48.
Proof.
  cbn [toBase64Url48 to_bigint]. split.
  - intros H. injection H as H.
    assert (Hd : decode_ordinal (encode48 a) = decode_ordinal (encode48 b))
      by now rewrite H.
    rewrite !decode_encode48 in Hd. now injection Hd.
  - intros H. f_equal. rewrite (encode48_mask a), (encode48_mask b).
    now rewrite H.
Qed.

(** X3. Outside the integers the conversion [BigInt(v)] of the encoder throws:
    a Number that is not an integer (a fraction, NaN, an infinity) gives a
    RangeError and no string. *)
Theorem encoder_rejects_non_integers (x : number) :
  is_integral x = false ->
  toBase64Url48 (VNumber x) = Err RangeError /\
  Worker.toBase64Url48 (VNumber x) = Err RangeError.
Proof.
  intros H. unfold toBase64Url48, Worker.toBase64Url48, to_bigint, BigInt.
  rewrite H. split; reflexivity.
Qed.

Lemma encoder_rejects_non_integers_witness :
  is_integral (Double 3 (-1)) = false /\
  toBase64Url48 (VNumber (Double 3 (-1))) = Err RangeError /\
  Worker.toBase64Url48 (VNumber (Double 3 (-1))) = Err RangeError.
Proof.
  split; [reflexivity|].
  exact (encoder_rejects_non_integers (Double 3 (-1)) eq_refl).
Defined.

(* ================================================================== *)
(** * Every run: totality, and the cache against the clock              *)
(* ================================================================== *)

Lemma step_done (e : event) (s : State) :
  exists v s', step e s = Done v s'.
Proof.
  destruct (step_keeps (fun _ => True) (fun _ _ _ _ => I) (fun _ _ => I)
              (fun _ _ _ => I) (fun _ _ _ => I) (fun _ _ => I)
              (fun _ _ _ _ _ _ _ => I) (fun _ _ _ _ _ _ _ => I)
              (fun _ _ _ _ _ => I) (fun _ _ _ _ _ => I)
              (fun _ _ _ _ _ _ _ _ => I) e s I)
    as (v & s' & Hstep & _).
  eauto.
Qed.

(** X4. No run throws or hangs, from any state and whatever the events: the
    calls of the interface, the resumption of a loop, a run of a worker and
    the delivery of its 'message', 'error' and 'exit' events all end
    normally, also when the Worker constructor throws. *)
Theorem run_total (evs : list event) (s : State) :
  exists states s',
    run evs s = Done states s' /\
    List.length states = S (List.length evs).
Proof.
  revert s. induction evs as [|e evs IH]; intros s.
  - exists [s], s. split; reflexivity.
  - destruct (step_done e s) as (v & s1 & Hstep).
    destruct (IH s1) as (states & s' & Hrun & Hlen).
    exists (s :: states), s'. cbn [run]. rewrite Hstep, Hrun.
    split; [reflexivity|]. cbn. now rewrite Hlen.
Qed.

Lemma message_between_hi (lo hi hi' : Z) (m : message) :
  hi <= hi' -> message_between lo hi m -> message_between lo hi' m.
Proof.
  intros Hh. destruct m as [x|]; cbn; [|auto].
  intros (r & Hx & Hr). exists r. split; [exact Hx | lia].
Qed.

Lemma clock_tick_up (future : list Z) (s : State) :
  nondecreasing_from (clock_ms s) (tape_ms s ++ future)%list ->
  clock_ms s <= clock_ms (tick_ms s).
Proof.
  intros Hnd. rewrite tick_ms_clock. unfold next_ms.
  destruct (tape_ms s); cbn in Hnd; lia.
Qed.

Section Lagging.

Variables lo floor : Z.
Variable future : list Z.

Lemma lagging_put s h t t' :
  lagging lo floor future s -> get_thread h s = Some t ->
  (Forall (message_between lo (clock_ms s)) (t_outbox t) ->
   Forall (message_between lo (clock_ms s)) (t_outbox t')) ->
  lagging lo floor future (put_thread h t' s).
Proof.
  intros (Hlo & Hfl & Hck & Hnd & Hca & Hp) Hg Ht'.
  repeat (split; [assumption|]). cbn.
  apply Forall_list_update; [exact Hp|].
  apply Ht'. exact (Forall_get_thread _ h t s Hp Hg).
Qed.

Lemma lagging_view s s' :
  view s = view s' -> lagging lo floor future s -> lagging lo floor future s'.
Proof.
  intros Hv. unfold view in Hv. injection Hv as H1 H2 H3 H4 _.
  unfold lagging. now rewrite <- H1, <- H2, <- H3, <- H4.
Qed.

Lemma lagging_tick s : lagging lo floor future s -> lagging lo floor future (tick_ms s).
Proof.
  intros (Hlo1 & Hfl1 & Hck1 & Hnd1 & (r & Hr & Hrr) & Hp1).
  destruct (clock_tick future s ltac:(lia) Hnd1) as (Hck2 & Hnd2).
  pose proof (clock_tick_up future s Hnd1) as Hup.
  unfold lagging. rewrite tick_ms_cached, tick_ms_threads.
  split; [exact Hlo1|]. split; [exact Hfl1|]. split; [lia|].
  split; [exact Hnd2|]. split; [exists r; split; [exact Hr | lia]|].
  eapply Forall_impl; [|exact Hp1]. intros t Ht.
  eapply Forall_impl; [|exact Ht]. intros m. now apply message_between_hi.
Qed.

Lemma lagging_step (e : event) (s : State) :
  lagging lo floor (ms_readings e ++ future)%list s ->
  exists v s',
    step e s = Done v s' /\ lagging lo floor future s' /\
    (act e = CallGet ->
       match controller_state s with
       | Promoted _ => v = Some (cached s)
       | DirectCompute => v = Some (encode48 (clock_ms s'))
       end).
Proof.
  intros (Hlo & Hfl & Hck & Hnd & Hca & Hp).
  apply (step_keeps (lagging lo floor future)).
  - exact lagging_view.
  - exact lagging_tick.
  - intros s1 (Hlo1 & Hfl1 & Hck1 & Hnd1 & _ & Hp1) _.
    repeat (split; [assumption|]). split; [|exact Hp1].
    exists (clock_ms s1). cbn. split; [reflexivity | lia].
  - intros s1 b H. exact H.
  - intros s1 (Hlo1 & Hfl1 & Hck1 & Hnd1 & Hca1 & Hp1).
    repeat (split; [assumption|]). cbn.
    apply Forall_app. split; [exact Hp1 | repeat constructor].
  - intros s1 h t st ms H Hg. apply (lagging_put s1 h t); auto.
  - intros s1 h t st ms H Hg. apply (lagging_put s1 h t); auto.
  - intros s1 h t H Hg. apply (lagging_put s1 h t); auto.
    intros Ho. cbn. apply Forall_app. split; [exact Ho|].
    destruct H as (Hlo1 & Hfl1 & Hck1 & _).
    repeat constructor. exists (clock_ms s1). split; [reflexivity | lia].
  - intros s1 h t H Hg. apply (lagging_put s1 h t); auto.
    intros Ho. cbn. apply Forall_app. split; [exact Ho | repeat constructor].
  - intros s1 h t msg rest H Hg Ho.
    pose proof H as (Hlo1 & Hfl1 & Hck1 & Hnd1 & Hca1 & Hp1).
    pose proof (Forall_get_thread _ h t s1 Hp1 Hg) as Hm. cbv beta in Hm.
    rewrite Ho in Hm. inversion Hm as [|? ? Hmsg Hrest]; subst.
    assert (Hput : lagging lo floor future (put_thread h (with_outbox rest t) s1)).
    { apply (lagging_put s1 h t); auto. }
    destruct msg as [x|]; [|exact Hput].
    destruct Hput as (? & ? & ? & ? & _ & ?).
    repeat (split; [assumption|]). assumption.
  - split; [exact Hlo|]. split; [exact Hfl|]. split; [exact Hck|].
    split; [|split; [exact Hca | exact Hp]].
    cbn. apply nondecreasing_from_drop in Hnd. exact Hnd.
Qed.

End Lagging.

Lemma lagging_floor lo floor future s :
  lagging lo floor future s -> lagging lo (clock_ms s) future s.
Proof.
  intros (Hlo & Hfl & Hck & Hnd & Hca & Hp).
  split; [exact Hlo|]. split; [lia|]. split; [lia|]. auto.
Qed.

Lemma lagging_seed (future : list Z) (s : State) :
  0 <= clock_ms s < 2 ^ 48 ->
  nondecreasing_from (clock_ms s) (tape_ms s ++ future)%list ->
  threads s = [] ->
  lagging (clock_ms s) (clock_ms s) future
          (set_cached (encode48 (clock_ms s)) s).
Proof.
  intros Hck Hnd Hth. split; [lia|]. split; [lia|]. cbn. split; [lia|].
  split; [exact Hnd|]. split.
  - exists (clock_ms s). split; [reflexivity | lia].
  - rewrite Hth. constructor.
Qed.

Lemma lagging_lower lo lo' floor floor' future s :
  0 <= lo' -> lo' <= lo -> lo' <= floor' -> floor' <= floor ->
  lagging lo floor future s -> lagging lo' floor' future s.
Proof.
  intros H0 Hl Hlf Hf (Hlo & Hfl & Hck & Hnd & (r & Hr & Hrr) & Hp).
  split; [exact H0|]. split; [exact Hlf|]. split; [lia|].
  split; [exact Hnd|]. split; [exists r; split; [exact Hr | lia]|].
  eapply Forall_impl; [|exact Hp]. intros t Ht.
  eapply Forall_impl; [|exact Ht]. intros [x|]; cbn; [|auto].
  intros (r' & Hx & Hr'). exists r'. split; [exact Hx | lia].
Qed.

Lemma createTSGen_lagging (opts : options) (h : host) (s0 : State)
    (future : list Z) :
  createTSGen opts h = Done tt s0 ->
  0 <= host_clock_ms h < 2 ^ 48 ->
  nondecreasing_from (host_clock_ms h) (host_ms_readings h ++ future)%list ->
  lagging (host_clock_ms h) (host_clock_ms h) future s0.
Proof.
  intros Hc Hck Hnd. unfold createTSGen in Hc.
  match type of Hc with ?m ?d = _ =>
    assert (Hw : wp m (fun _ s' => lagging (host_clock_ms h) (host_clock_ms h)
                                     future s') no_throw d);
      [set (s := d) | unfold wp in Hw; rewrite Hc in Hw; exact Hw]
  end.
  wp_run.
  assert (Hck0 : 0 <= clock_ms s < 2 ^ 48) by exact Hck.
  assert (Hnd0 : nondecreasing_from (clock_ms s) (tape_ms s ++ future)%list)
    by exact Hnd.
  destruct (clock_tick future s Hck0 Hnd0) as (Hck1 & Hnd1).
  pose proof (clock_tick_up future s Hnd0) as Hup1.
  assert (H1 : lagging (clock_ms (tick_ms s)) (clock_ms (tick_ms s)) future
                 (set_cached (encode48 (next_ms s)) (tick_ms s))).
  { rewrite <- (tick_ms_clock s). apply lagging_seed; try assumption.
    now rewrite tick_ms_threads. }
  apply lagging_tick in H1.
  apply (lagging_lower _ (host_clock_ms h) _ (host_clock_ms h)) in H1;
    try (change (host_clock_ms h) with (clock_ms s); lia).
  eapply lagging_view; [|exact H1]. unfold view.
  repeat (autorewrite with tick; cbn [cached threads clock_ms tape_ms
    internalController set_windowStartNano set_lastMs]).
  reflexivity.
Qed.

Lemma run_lagging (evs : list event) :
  forall (lo floor : Z) (future : list Z) (s : State),
    lagging lo floor (List.concat (map ms_readings evs) ++ future)%list s ->
    Forall (fun r => exists m, fst r = encode48 m /\ lo <= m <= snd r)
           (get_results evs s) /\
    Forall (above floor) (direct_gets evs s) /\
    StronglySorted str_le (direct_gets evs s).
Proof.
  induction evs as [|e rest IH]; intros lo floor future s Hs.
  - cbn. repeat split; constructor.
  - cbn [map List.concat] in Hs. rewrite <- app_assoc in Hs.
    pose proof Hs as (Hlo & Hfl & Hck & _ & (r & Hr & Hrr) & _).
    apply lagging_floor in Hs.
    destruct (lagging_step lo (clock_ms s) _ e s Hs) as (v & s1 & Hstep & Hs1 & Hv).
    pose proof Hs1 as (_ & _ & Hck1 & _).
    apply lagging_floor in Hs1.
    destruct (IH lo (clock_ms s1) future s1 Hs1) as (Hres & Habove & Hsorted).
    cbn [get_results direct_gets]. rewrite Hstep.
    assert (Hskip : Forall (above floor) (direct_gets rest s1)).
    { eapply Forall_impl; [|exact Habove]. intros x. apply above_weaken. lia. }
    destruct (act e) eqn:Hact; try (split; [exact Hres | split; assumption]).
    specialize (Hv eq_refl).
    destruct (controller_state s); subst v.
    + split; [|split].
      * constructor; [|exact Hres]. exists (clock_ms s1). cbn. split; [reflexivity | lia].
      * constructor; [|exact Hskip]. exists (clock_ms s1). split; [reflexivity | lia].
      * apply sorted_cons_above; [lia | exact Habove | exact Hsorted].
    + split; [|split; assumption].
      constructor; [|exact Hres]. exists r. cbn. split; [exact Hr | lia].
Qed.

(** X5. The calls of [get()] that compute directly return a non-decreasing
    sequence of strings when the clock is non-decreasing, whatever the
    policy and whatever happens in between (promotions, demotions, worker
    events). *)
Theorem direct_gets_monotone (opts : options) (h : host) (s0 : State)
    (evs : list event) :
  createTSGen opts h = Done tt s0 ->
  clock_nondecreasing h evs ->
  StronglySorted str_le (direct_gets evs s0).
Proof.
  intros Hc (Hck & Hnd).
  pose proof (createTSGen_lagging opts h s0 _ Hc Hck Hnd) as Hs0.
  rewrite <- (app_nil_r (List.concat _)) in Hs0.
  exact (proj2 (proj2 (run_lagging evs _ _ [] s0 Hs0))).
Qed.

Lemma direct_gets_monotone_witness :
  createTSGen basic_options sample_host = Done tt basic_instance /\
  clock_nondecreasing sample_host spaced_gets /\
  StronglySorted str_le (direct_gets spaced_gets basic_instance).
Proof.
  assert (Hc : createTSGen basic_options sample_host = Done tt basic_instance)
    by reflexivity.
  assert (Hclock : clock_nondecreasing sample_host spaced_gets).
  { unfold clock_nondecreasing. cbn. repeat split; lia. }
  split; [exact Hc|]. split; [exact Hclock|].
  exact (direct_gets_monotone basic_options sample_host basic_instance
           spaced_gets Hc Hclock).
Defined.

(** X6. Whatever the run, a call of [get()] returns the encoding of a reading of
    the millisecond clock taken between the construction of the controller
    and the return of the call: a stale value may be served, never one from
    the future or from before the controller existed. *)
Theorem get_between_construction_and_now (opts : options) (h : host)
    (s0 : State) (evs : list event) :
  createTSGen opts h = Done tt s0 ->
  clock_nondecreasing h evs ->
  Forall (fun r => exists m, fst r = encode48 m /\
                             host_clock_ms h <= m <= snd r)
         (get_results evs s0).
Proof.
  intros Hc (Hck & Hnd).
  pose proof (createTSGen_lagging opts h s0 _ Hc Hck Hnd) as Hs0.
  rewrite <- (app_nil_r (List.concat _)) in Hs0.
  exact (proj1 (run_lagging evs _ _ [] s0 Hs0)).
Qed.

Lemma get_between_construction_and_now_witness :
  createTSGen no_options sample_host = Done tt sample_instance /\
  clock_nondecreasing sample_host race /\
  Forall (fun r => exists m, fst r = encode48 m /\
                             host_clock_ms sample_host <= m <= snd r)
         (get_results race sample_instance).
Proof.
  assert (Hc : createTSGen no_options sample_host = Done tt sample_instance)
    by reflexivity.
  assert (Hclock : clock_nondecreasing sample_host race).
  { unfold clock_nondecreasing. cbn. repeat split; lia. }
  split; [exact Hc|]. split; [exact Hclock|].
  exact (get_between_construction_and_now no_options sample_host
           sample_instance race Hc Hclock).
Defined.
(* ================================================================== *)
(** * The Promoted path, [stop()] and explicit [start(mode)]            *)
(* ================================================================== *)

Lemma same_refreshers_refl s : same_refreshers s s.
Proof. unfold same_refreshers. tauto. Qed.

Lemma same_refreshers_trans s1 s2 s3 :
  same_refreshers s1 s2 -> same_refreshers s2 s3 -> same_refreshers s1 s3.
Proof. unfold same_refreshers. intuition congruence. Qed.

Lemma same_refreshers_state s s' :
  same_refreshers s s' -> controller_state s' = controller_state s.
Proof.
  unfold same_refreshers, controller_state.
  intros (_ & _ & -> & _ & -> & _). reflexivity.
Qed.

Lemma get_promoted s :
  controller_state s <> DirectCompute ->
  wp get (fun v s' => v = cached s /\ same_refreshers s s') no_throw s.
Proof.
  unfold controller_state, get. intros H. wp_run.
  assert (Hhot : wp (now <- Date_now ;;
                     write (set_lastHighActivityAt now) ;;
                     _ <- markCall ;; read cached)
                    (fun v s' => v = cached s /\ same_refreshers s s')
                    no_throw s).
  { wp_run. apply wp_markCall. intros b s' Hcfg Hca Hir Hic _ Hwr Hw Hct _ _ Hsf Hts Hth.
    wp_run. revert Hcfg Hca Hir Hic Hwr Hw Hct Hsf Hts Hth. tick_simpl.
    unfold same_refreshers. intuition congruence. }
  destruct (workerRunning s); [exact Hhot|]. wp_run.
  destruct (internalRunning s); [exact Hhot|]. now contradiction H.
Qed.

Lemma gets_promoted (n : nat) : forall s : State,
  controller_state s <> DirectCompute ->
  wp (gets n) (fun vs s' => vs = repeat (cached s) n /\ same_refreshers s s')
     no_throw s.
Proof.
  induction n as [|n IH]; intros s H; cbn [gets repeat].
  - wp_run. split; [reflexivity | apply same_refreshers_refl].
  - wp_run. eapply wp_post; [apply (get_promoted s H)|]. cbv beta.
    intros v s1 (-> & Hs1). wp_run.
    eapply wp_post; [apply (IH s1)|].
    + rewrite (same_refreshers_state _ _ Hs1). exact H.
    + cbv beta. intros vs s2 (-> & Hs2). wp_run. split.
      * destruct Hs1 as (_ & -> & _). reflexivity.
      * eapply same_refreshers_trans; eassumption.
Qed.

(** X7. The benchmark loop on a promoted controller: with a flag up, the calls
    of [get()] that [bench] times all return the string that was in the
    cache when [bench] began, whatever the clock reads meanwhile, and leave
    the cache, both flags, the worker and the loop tasks as they were (the
    calls are synchronous: no refresher runs between them). *)
Theorem bench_promoted_constant (loops : nat) (s : State) :
  controller_state s <> DirectCompute ->
  exists s',
    bench loops s = Done (repeat (cached s) loops) s' /\
    same_refreshers s s'.
Proof.
  intros H.
  assert (Hw : wp (bench loops)
                  (fun vs s' => vs = repeat (cached s) loops /\
                                same_refreshers s s') no_throw s).
  { unfold bench. wp_run.
    eapply wp_post; [apply (gets_promoted 2000 s H)|]. cbv beta.
    intros warm s1 (_ & Hs1). wp_run.
    assert (Ht1 : same_refreshers s (tick_ns s1)).
    { revert Hs1. unfold same_refreshers. now autorewrite with tick. }
    eapply wp_post; [apply (gets_promoted loops (tick_ns s1))|].
    - rewrite (same_refreshers_state _ _ Ht1). exact H.
    - cbv beta. intros vs s2 (-> & Hs2). wp_run. split.
      + destruct Ht1 as (_ & -> & _). reflexivity.
      + assert (Ht2 : same_refreshers s s2)
          by (eapply same_refreshers_trans; eassumption).
        revert Ht2. unfold same_refreshers. now autorewrite with tick. }
  destruct (wp_done _ _ _ Hw) as (vs & s' & Hrun & -> & Hs').
  exists s'. split; assumption.
Qed.

Lemma bench_promoted_constant_witness :
  controller_state with_worker <> DirectCompute /\
  exists s',
    bench 3 with_worker = Done (repeat (cached with_worker) 3) s' /\
    same_refreshers with_worker s'.
Proof.
  assert (H : controller_state with_worker <> DirectCompute)
    by (vm_compute; discriminate).
  split; [exact H|].
  exact (bench_promoted_constant 3 with_worker H).
Defined.

Lemma startWorker_spawns s :
  workerRunning s = false -> WorkerCtor s = true -> spawn_fails s = false ->
  wp startWorker
     (fun _ s' =>
        workerRunning s' = true /\
        worker s' = Some (List.length (threads s)) /\
        threads s' = (threads s ++ [mkThread Spawned 0 []])%list /\
        cached s' = cached s /\
        internalRunning s' = internalRunning s /\
        internalController s' = internalController s /\
        tasks s' = tasks s /\ console s' = console s)
     no_throw s.
Proof.
  intros Hwr Hctor Hsf. unfold startWorker. wp_run. rewrite Hwr. wp_run.
  rewrite Hctor. cbn [negb]. wp_run. apply wp_new_WorkerCtor.
  cbn [spawn_fails set_lastHighActivityAt]. rewrite tick_ms_spawn_fails, Hsf.
  wp_run. tick_simpl. repeat split; reflexivity.
Qed.

(** X8. Promotion to the worker does not refresh the cache: after
    [start('worker')] has created the worker, the calls of [get()] made
    before a message of the worker is delivered return the string the cache
    held before the promotion, whatever the clock reads. *)
Theorem worker_promotion_keeps_cache (n : nat) (s : State) :
  workerRunning s = false -> WorkerCtor s = true -> spawn_fails s = false ->
  exists s',
    (start (Some "worker") ;; gets n) s = Done (repeat (cached s) n) s' /\
    controller_state s' = Promoted WorkerThread /\
    worker s' = Some (List.length (threads s)) /\
    threads s' = (threads s ++ [mkThread Spawned 0 []])%list /\
    cached s' = cached s.
Proof.
  intros Hwr Hctor Hsf.
  change (start (Some "worker")) with startWorker.
  assert (Hw : wp (startWorker ;; gets n)
                  (fun vs s' =>
                     vs = repeat (cached s) n /\
                     controller_state s' = Promoted WorkerThread /\
                     worker s' = Some (List.length (threads s)) /\
                     threads s' = (threads s ++ [mkThread Spawned 0 []])%list /\
                     cached s' = cached s)
                  no_throw s).
  { wp_run.
    eapply wp_post; [apply (startWorker_spawns s Hwr Hctor Hsf)|]. cbv beta.
    intros _ s1 (Hwr1 & Hw1 & Hth1 & Hca1 & _).
    assert (Hst : controller_state s1 = Promoted WorkerThread)
      by (unfold controller_state; now rewrite Hwr1).
    eapply wp_post; [apply (gets_promoted n s1)|].
    - rewrite Hst. discriminate.
    - cbv beta. intros vs s2 (-> & Hs2).
      rewrite (same_refreshers_state _ _ Hs2).
      destruct Hs2 as (_ & Hca2 & _ & _ & _ & Hw2 & _ & _ & _ & Hth2).
      rewrite Hca2, Hw2, Hth2, Hca1. auto. }
  destruct (wp_done _ _ _ Hw) as (vs & s' & Hrun & -> & Hrest).
  exists s'. split; assumption.
Qed.

Lemma worker_promotion_keeps_cache_witness :
  workerRunning worker_instance = false /\
  WorkerCtor worker_instance = true /\
  spawn_fails worker_instance = false /\
  exists s',
    (start (Some "worker") ;; gets 3) worker_instance
    = Done (repeat (cached worker_instance) 3) s' /\
    controller_state s' = Promoted WorkerThread /\
    worker s' = Some (List.length (threads worker_instance)) /\
    threads s' = (threads worker_instance ++ [mkThread Spawned 0 []])%list /\
    cached s' = cached worker_instance.
Proof.
  split; [reflexivity|]. split; [reflexivity|]. split; [reflexivity|].
  exact (worker_promotion_keeps_cache 3 worker_instance
           eq_refl eq_refl eq_refl).
Defined.

(* ------------------------------------------------------------------ *)
(** ** [stop()]                                                         *)
(* ------------------------------------------------------------------ *)

Lemma stop_done (s : State) :
  exists s1,
    stop s = Done tt s1 /\
    stop s1 = Done tt s1 /\
    internalRunning s1 = false /\ workerRunning s1 = false /\
    worker s1 = None /\
    internalController s1
    = match internalController s with
      | Some _ => Some true
      | None => None
      end /\
    cached s1 = cached s /\ tasks s1 = tasks s /\
    clock_ms s1 = clock_ms s /\ tape_ms s1 = tape_ms s /\
    cfg s1 = cfg s /\ console s1 = console s /\
    lastHighActivityAt s1 = lastHighActivityAt s.
Proof.
  destruct s as [c ca lm ciw wsn ir ic lh wr w ctor cm tm cn tn sf ts th co].
  unfold stop, stopInternalLoop, stopWorker, try_catch, bind, read, write, ret,
    terminate, on_thread, get_thread, put_thread.
  cbn.
  destruct ic as [b|], w as [h|]; cbn;
    try (destruct (nth_error th h) as [t|]; cbn);
    eexists; repeat split; reflexivity.
Qed.

(** X9. [stop()] is idempotent as a program: calling it twice is calling it
    once.  It never fails and reads no clock; it leaves both flags down and
    no worker handle, and touches neither the cache nor the parked loop
    tasks, which end only when the event loop resumes them. *)
Theorem stop_twice_is_stop (s : State) :
  (stop ;; stop) s = stop s /\
  exists s1,
    stop s = Done tt s1 /\
    controller_state s1 = DirectCompute /\ worker s1 = None /\
    cached s1 = cached s /\ tasks s1 = tasks s /\
    clock_ms s1 = clock_ms s /\ tape_ms s1 = tape_ms s.
Proof.
  destruct (stop_done s)
    as (s1 & H1 & H2 & Hir & Hwr & Hw & _ & Hca & Hts & Hck & Htp & _).
  split.
  - unfold bind. rewrite H1. exact H2.
  - exists s1. unfold controller_state. rewrite Hir, Hwr. tauto.
Qed.

Lemma get_value (s : State) :
  wp get
     (fun v s' =>
        match controller_state s with
        | Promoted _ => v = cached s
        | DirectCompute => v = encode48 (clock_ms s')
        end)
     no_throw s.
Proof.
  eapply wp_post.
  - apply (get_keeps (fun _ => True)); intros; exact Logic.I.
  - cbv beta. intros v s' (_ & H). exact H.
Qed.


Lemma list_remove_out {A : Type} (l : list A) (i : nat) :
  nth_error l i = None -> list_remove l i = l.
Proof.
  revert i. induction l as [|x l IH]; intros [|i] H; cbn in *;
    try discriminate; try reflexivity.
  f_equal. auto.
Qed.

Lemma resume_stopped (s : State) (i : nat) :
  internalController s = Some true ->
  exists s',
    resume_loop i s = Done tt s' /\
    cached s' = cached s /\
    tasks s' = list_remove (tasks s) i /\
    threads s' = threads s /\
    workerRunning s' = workerRunning s /\ worker s' = worker s /\
    internalController s' = Some true /\
    console s' = console s /\
    (internalRunning s = false -> internalRunning s' = false).
Proof.
  intros Hc.
  destruct s as [c ca lm ciw wsn ir ic lh wr w ctor cm tm cn tn sf ts th co].
  cbn in Hc. subst ic.
  unfold resume_loop, bind at 1, read at 1. cbn [tasks].
  destruct (nth_error ts i) as [l|] eqn:Hl.
  - unfold run_async, internal_resume, idle_check, request_stop, fuel_of,
      bind, read, write, ret, Date_now.
    cbn. destruct tm as [|t tm]; cbn.
    + destruct (cm - lh >? perfCooldownMs c); cbn;
        eexists; repeat split; reflexivity.
    + destruct (t - lh >? perfCooldownMs c); cbn;
        eexists; repeat split; reflexivity.
  - eexists. split; [reflexivity|]. cbn. repeat split; auto.
    symmetry. now apply list_remove_out.
Qed.



(** X12. The idle demotion: a loop task resumed more than [perfCooldownMs]
    milliseconds after the last activity raises its own stop flag and ends;
    [internalRunning] goes down, the cache is not refreshed on the way out
    and nothing is logged. *)
Theorem idle_loop_demotes (s : State) (i : nat) (l : Z) :
  nth_error (tasks s) i = Some l ->
  internalController s = Some false ->
  next_ms s - lastHighActivityAt s > perfCooldownMs (cfg s) ->
  exists s',
    resume_loop i s = Done tt s' /\
    internalRunning s' = false /\
    internalController s' = Some true /\
    cached s' = cached s /\
    tasks s' = list_remove (tasks s) i /\
    workerRunning s' = workerRunning s /\
    console s' = console s.
Proof.
  intros Hl Hc Hidle.
  destruct s as [c ca lm ciw wsn ir ic lh wr w ctor cm tm cn tn sf ts th co].
  cbn in Hl, Hc, Hidle. subst ic.
  unfold resume_loop, bind at 1, read at 1. cbn [tasks]. rewrite Hl.
  unfold run_async, internal_resume, idle_check, request_stop, fuel_of,
    bind, read, write, ret, Date_now.
  unfold next_ms in Hidle. cbn in Hidle.
  cbn. destruct tm as [|t tm]; cbn.
  - replace (cm - lh >? perfCooldownMs c) with true
      by (symmetry; apply Z.gtb_lt; lia).
    cbn. eexists; repeat split; reflexivity.
  - replace (t - lh >? perfCooldownMs c) with true
      by (symmetry; apply Z.gtb_lt; lia).
    cbn. eexists; repeat split; reflexivity.
Qed.

Lemma idle_loop_demotes_witness :
  nth_error (tasks late_resume) 0 = Some 1700000000000 /\
  internalController late_resume = Some false /\
  next_ms late_resume - lastHighActivityAt late_resume
  > perfCooldownMs (cfg late_resume) /\
  exists s',
    resume_loop 0 late_resume = Done tt s' /\
    internalRunning s' = false /\
    internalController s' = Some true /\
    cached s' = cached late_resume /\
    tasks s' = list_remove (tasks late_resume) 0 /\
    workerRunning s' = workerRunning late_resume /\
    console s' = console late_resume.
Proof.
  assert (H1 : nth_error (tasks late_resume) 0 = Some 1700000000000)
    by reflexivity.
  assert (H2 : internalController late_resume = Some false) by reflexivity.
  assert (H3 : next_ms late_resume - lastHighActivityAt late_resume
               > perfCooldownMs (cfg late_resume))
    by (vm_compute; reflexivity).
  split; [exact H1|]. split; [exact H2|]. split; [exact H3|].
  exact (idle_loop_demotes late_resume 0 1700000000000 H1 H2 H3).
Defined.

(* ------------------------------------------------------------------ *)
(** ** Explicit [start(mode)]                                           *)
(* ------------------------------------------------------------------ *)

(** X13. [start('internal')] and [start('worker')] do not consult [cfg.prefer]:
    from DirectCompute, under any policy ('basic' included),
    [start('internal')], in a turn during which the idle cooldown does not
    expire, leaves an internal loop parked with
    the cache freshly written, and [start('worker')], where workers exist
    and the constructor does not throw, leaves a new worker thread attached
    and the cache as it was. *)
Theorem explicit_start_ignores_policy (s : State) :
  no_idle_gap s ->
  controller_state s = DirectCompute ->
  (exists s',
     start (Some "internal") s = Done tt s' /\
     controller_state s' = Promoted CooperativeLoop /\
     cached s' = encode48 (clock_ms s') /\
     exists l, tasks s' = (tasks s ++ [l])%list) /\
  (WorkerCtor s = true -> spawn_fails s = false ->
   exists s',
     start (Some "worker") s = Done tt s' /\
     controller_state s' = Promoted WorkerThread /\
     cached s' = cached s /\
     threads s' = (threads s ++ [mkThread Spawned 0 []])%list).
Proof.
  intros Hgap Hst.
  assert (Hflags : workerRunning s = false /\ internalRunning s = false).
  { unfold controller_state in Hst.
    destruct (workerRunning s); [discriminate|].
    destruct (internalRunning s); [discriminate|]. auto. }
  destruct Hflags as (Hwr & Hir). split.
  - change (start (Some "internal")) with startInternalLoop.
    destruct (wp_done _ _ _ (startInternalLoop_promotes s Hgap))
      as ([] & s' & Hrun & Hir' & Hwr' & _ & _ & Hnew).
    destruct (Hnew Hir) as (Htask & Hca).
    exists s'. split; [exact Hrun|]. split; [|split; assumption].
    apply promoted_loop; congruence.
  - intros Hctor Hsf.
    change (start (Some "worker")) with startWorker.
    destruct (wp_done _ _ _ (startWorker_spawns s Hwr Hctor Hsf))
      as ([] & s' & Hrun & Hwr' & _ & Hth & Hca & _).
    exists s'. split; [exact Hrun|].
    unfold controller_state. rewrite Hwr'. auto.
Qed.

Lemma explicit_start_ignores_policy_witness :
  no_idle_gap spaced_start /\
  controller_state spaced_start = DirectCompute /\
  prefer (cfg spaced_start) = "basic" /\
  (exists s',
     start (Some "internal") spaced_start = Done tt s' /\
     controller_state s' = Promoted CooperativeLoop /\
     cached s' = encode48 (clock_ms s') /\
     exists l, tasks s' = (tasks spaced_start ++ [l])%list) /\
  (WorkerCtor spaced_start = true -> spawn_fails spaced_start = false ->
   exists s',
     start (Some "worker") spaced_start = Done tt s' /\
     controller_state s' = Promoted WorkerThread /\
     cached s' = cached spaced_start /\
     threads s' = (threads spaced_start ++ [mkThread Spawned 0 []])%list).
Proof.
  assert (Hgap : no_idle_gap spaced_start).
  { unfold no_idle_gap. cbn. repeat constructor; lia. }
  split; [exact Hgap|]. split; [reflexivity|]. split; [reflexivity|].
  exact (explicit_start_ignores_policy spaced_start Hgap eq_refl).
Defined.
(* ================================================================== *)
(** * Promotion by [get()]                                              *)
(* ================================================================== *)

Lemma basicGet_value (P : State -> Prop) (s : State) :
  P (tick_ms s) ->
  wp basicGet (fun v s' => v = encode48 (clock_ms s') /\ P s') no_throw s.
Proof.
  intros H. unfold basicGet. wp_run. split; [|exact H].
  now rewrite tick_ms_clock.
Qed.

Lemma same_refreshers_tick_ms s s' :
  same_refreshers s s' -> same_refreshers s (tick_ms s').
Proof. unfold same_refreshers. now autorewrite with tick. Qed.

Lemma get_direct_head (Q : string -> State -> Prop) (s : State) :
  controller_state s = DirectCompute ->
  (forall s1,
     same_refreshers s s1 -> clock_ms s1 = clock_ms s ->
     tape_ms s1 = tape_ms s -> lastHighActivityAt s1 = lastHighActivityAt s ->
     console s1 = console s ->
     wp ((if signal s then requestPerf else ret tt) ;; basicGet) Q no_throw s1) ->
  wp get Q no_throw s.
Proof.
  intros Hdc H.
  assert (Hflags : workerRunning s = false /\ internalRunning s = false).
  { unfold controller_state in Hdc.
    destruct (workerRunning s), (internalRunning s); try discriminate; auto. }
  destruct Hflags as (Hwr & Hir).
  unfold get. wp_run. rewrite Hwr. wp_run. rewrite Hir. wp_run.
  unfold wp at 1. destruct (markCall_shape s) as (w0 & c0 & ->).
  apply H; cbn; autorewrite with tick; try reflexivity.
  unfold same_refreshers. cbn. autorewrite with tick. tauto.
Qed.

(** X14. [get()] in DirectCompute promotes exactly when the call-rate monitor
    signals and the policy is not 'basic'.  The call always returns the
    encoding of the clock as it stands at the return.  Without a signal, or
    under 'basic', the cache, both flags, the worker and the loop tasks are
    left as they were.  With a signal, under 'worker' or 'auto' (any string
    but 'basic' and 'internal') where workers exist and the constructor does
    not throw, a worker thread is created and attached, and the cache is
    left as it was; under 'internal', in a turn during which the idle
    cooldown does not expire, an internal loop is left parked. *)
Theorem get_promotes_exactly_on_signal (s : State) :
  controller_state s = DirectCompute ->
  (signal s = false \/ prefer (cfg s) = "basic" ->
   exists s',
     get s = Done (encode48 (clock_ms s')) s' /\ same_refreshers s s') /\
  (signal s = true ->
   prefer (cfg s) <> "basic" -> prefer (cfg s) <> "internal" ->
   WorkerCtor s = true -> spawn_fails s = false ->
   exists s',
     get s = Done (encode48 (clock_ms s')) s' /\
     controller_state s' = Promoted WorkerThread /\
     cached s' = cached s /\
     worker s' = Some (List.length (threads s)) /\
     threads s' = (threads s ++ [mkThread Spawned 0 []])%list) /\
  (signal s = true -> prefer (cfg s) = "internal" -> no_idle_gap s ->
   exists s',
     get s = Done (encode48 (clock_ms s')) s' /\
     controller_state s' = Promoted CooperativeLoop /\
     exists l, tasks s' = (tasks s ++ [l])%list).
Proof.
  intros Hdc.
  assert (Hflags : workerRunning s = false /\ internalRunning s = false).
  { unfold controller_state in Hdc.
    destruct (workerRunning s), (internalRunning s); try discriminate; auto. }
  destruct Hflags as (Hwr & Hir).
  split; [|split].
  - intros Hquiet.
    assert (Hw : wp get (fun v s' => v = encode48 (clock_ms s') /\
                           same_refreshers s s') no_throw s).
    { apply get_direct_head; [exact Hdc|].
      intros s1 Hs1 _ _ _ _. wp_run.
      destruct (signal s) eqn:Hsig.
      - destruct Hquiet as [Hq|Hq]; [discriminate|].
        unfold requestPerf. wp_run. cbn [cfg set_lastHighActivityAt].
        rewrite tick_ms_cfg. destruct Hs1 as (Hcfg & Hrest). rewrite Hcfg, Hq.
        cbn [String.eqb Ascii.eqb Bool.eqb]. wp_run.
        apply basicGet_value. apply same_refreshers_tick_ms.
        unfold same_refreshers. cbn. autorewrite with tick. tauto.
      - wp_run. apply basicGet_value.
        now apply same_refreshers_tick_ms. }
    destruct (wp_done _ _ _ Hw) as (v & s' & Hrun & -> & Hs').
    exists s'. split; assumption.
  - intros Hsig Hnb Hni Hctor Hsf.
    assert (Hw : wp get
                  (fun v s' => v = encode48 (clock_ms s') /\
                     controller_state s' = Promoted WorkerThread /\
                     cached s' = cached s /\
                     worker s' = Some (List.length (threads s)) /\
                     threads s' = (threads s ++ [mkThread Spawned 0 []])%list)
                  no_throw s).
    { apply get_direct_head; [exact Hdc|].
      intros s1 (Hcfg & Hca & _ & _ & Hwr1 & _ & Hctor1 & Hsf1 & _ & Hth1)
        _ _ _ _.
      rewrite Hsig. wp_run. unfold requestPerf. wp_run.
      cbn [cfg set_lastHighActivityAt]. rewrite tick_ms_cfg, Hcfg.
      set (s2 := set_lastHighActivityAt (next_ms s1) (tick_ms s1)).
      assert (Hsw : wp startWorker (fun _ s' => wp basicGet
                (fun v s'' => v = encode48 (clock_ms s'') /\
                   controller_state s'' = Promoted WorkerThread /\
                   cached s'' = cached s /\
                   worker s'' = Some (List.length (threads s)) /\
                   threads s'' = (threads s ++ [mkThread Spawned 0 []])%list)
                no_throw s') no_throw s2).
      { eapply wp_post; [apply (startWorker_spawns s2)|].
        - subst s2. cbn. autorewrite with tick. congruence.
        - subst s2. cbn. autorewrite with tick. congruence.
        - subst s2. cbn. autorewrite with tick. congruence.
        - cbv beta. intros _ s3 (Hwr3 & Hw3 & Hth3 & Hca3 & _).
          apply basicGet_value. unfold controller_state.
          autorewrite with tick. rewrite Hwr3, Hw3, Hth3, Hca3.
          subst s2. cbn. autorewrite with tick. rewrite Hth1, Hca. auto. }
      destruct (String.eqb (prefer (cfg s)) "basic") eqn:Eb.
      { apply String.eqb_eq in Eb. contradiction. }
      destruct (String.eqb (prefer (cfg s)) "worker") eqn:Ew; [exact Hsw|].
      destruct (String.eqb (prefer (cfg s)) "internal") eqn:Ei.
      { apply String.eqb_eq in Ei. contradiction. }
      wp_run.
      replace (WorkerCtor s2) with true
        by (subst s2; cbn; autorewrite with tick; congruence).
      exact Hsw. }
    destruct (wp_done _ _ _ Hw) as (v & s' & Hrun & -> & Hs').
    exists s'. split; assumption.
  - intros Hsig Hint Hgap.
    assert (Hw : wp get
                  (fun v s' => v = encode48 (clock_ms s') /\
                     controller_state s' = Promoted CooperativeLoop /\
                     exists l, tasks s' = (tasks s ++ [l])%list)
                  no_throw s).
    { apply get_direct_head; [exact Hdc|].
      intros s1 (Hcfg & _ & Hir1 & _ & Hwr1 & _ & _ & _ & Hts1 & _)
        Hck1 Htp1 _ _.
      rewrite Hsig. wp_run. unfold requestPerf. wp_run.
      cbn [cfg set_lastHighActivityAt]. rewrite tick_ms_cfg, Hcfg, Hint.
      cbn [String.eqb Ascii.eqb Bool.eqb].
      set (s2 := set_lastHighActivityAt (next_ms s1) (tick_ms s1)).
      assert (Hc1 : no_idle_gap s1) by (apply (no_idle_gap_same s); assumption).
      assert (Hc2 : no_idle_gap s2).
      { apply (no_idle_gap_same (tick_ms s1)); try reflexivity.
        now apply no_idle_gap_tick. }
      eapply wp_post; [apply (startInternalLoop_promotes s2 Hc2)|]. cbv beta.
      intros _ s3 (Hir3 & Hwr3 & _ & _ & Hnew).
      apply basicGet_value. unfold controller_state.
      autorewrite with tick. rewrite Hwr3, Hir3.
      replace (workerRunning s2) with false
        by (subst s2; cbn; autorewrite with tick; congruence).
      split; [reflexivity|].
      destruct Hnew as ((l & Hl) & _).
      { subst s2. cbn. autorewrite with tick. congruence. }
      exists l. rewrite Hl. subst s2. cbn. autorewrite with tick.
      now rewrite Hts1. }
    destruct (wp_done _ _ _ Hw) as (v & s' & Hrun & -> & Hs').
    exists s'. split; assumption.
Qed.

Lemma get_promotes_exactly_on_signal_witness :
  controller_state hot_get = DirectCompute /\
  signal hot_get = true /\ prefer (cfg hot_get) = "auto" /\
  exists s',
    get hot_get = Done (encode48 (clock_ms s')) s' /\
    controller_state s' = Promoted WorkerThread /\
    cached s' = cached hot_get /\
    worker s' = Some (List.length (threads hot_get)) /\
    threads s' = (threads hot_get ++ [mkThread Spawned 0 []])%list.
Proof.
  split; [reflexivity|]. split; [reflexivity|]. split; [reflexivity|].
  refine (proj1 (proj2 (get_promotes_exactly_on_signal hot_get eq_refl))
            eq_refl _ _ eq_refl eq_refl); discriminate.
Defined.
(* ================================================================== *)
(** * A turn of the worker script                                       *)
(* ================================================================== *)

Lemma list_update_length {A : Type} (l : list A) (i : nat) (x : A) :
  List.length (list_update l i x) = List.length l.
Proof.
  revert i. induction l as [|y l IH]; intros [|i]; cbn; auto.
Qed.

Lemma list_update_other {A : Type} (l : list A) (i j : nat) (x : A) :
  j <> i -> nth_error (list_update l i x) j = nth_error l j.
Proof.
  revert i j. induction l as [|y l IH]; intros [|i] [|j] H; cbn; auto;
    try congruence.
Qed.

Lemma only_thread_refl h s : only_thread h s s.
Proof. unfold only_thread. repeat split; auto. Qed.

Lemma only_thread_trans h s1 s2 s3 :
  only_thread h s1 s2 -> only_thread h s2 s3 -> only_thread h s1 s3.
Proof.
  unfold only_thread.
  intros (A1 & A2 & A3 & A4 & A5 & A6 & A7 & A8 & A9 & A10 & A11)
         (B1 & B2 & B3 & B4 & B5 & B6 & B7 & B8 & B9 & B10 & B11).
  repeat split; try congruence.
  intros h' Hh. rewrite B11, A11; auto.
Qed.

Lemma only_thread_tick h s : only_thread h s (tick_ms s).
Proof.
  unfold only_thread, get_thread. autorewrite with tick.
  repeat split; auto.
Qed.

Lemma only_thread_put h t s : only_thread h s (put_thread h t s).
Proof.
  unfold only_thread, get_thread, put_thread. cbn.
  repeat split; auto.
  - apply list_update_length.
  - intros h' Hh. now apply list_update_other.
Qed.

Lemma last_cons_encode (x : string) (posted : list string) (c : Z) :
  (posted = [] -> x = encode48 c) ->
  (posted <> [] -> last posted "" = encode48 c) ->
  last (x :: posted) "" = encode48 c.
Proof.
  destruct posted as [|y l]; intros H1 H2.
  - now apply H1.
  - change (last (y :: l) "" = encode48 c). apply H2. discriminate.
Qed.

Lemma worker_loop_turn (fuel : nat) : forall (h : nat) (t : thread) (s : State),
  get_thread h s = Some t -> fuel_ok fuel (t_lastMs t) s ->
  wp (WorkerScript.loop fuel h)
     (fun _ s' =>
        only_thread h s s' /\
        exists t' posted,
          get_thread h s' = Some t' /\
          t_status t' = t_status t /\
          t_lastMs t' = clock_ms s' /\
          t_outbox t' = (t_outbox t ++ map MString posted)%list /\
          (posted = [] -> t_lastMs t' = t_lastMs t) /\
          (posted <> [] -> last posted "" = encode48 (clock_ms s')))
     no_throw s.
Proof.
  induction fuel as [|fuel IH]; intros h t s Ht Hf.
  - exfalso. destruct Hf as [Hf|(_ & _ & Hf)]; lia.
  - cbn [WorkerScript.loop]. unfold WorkerScript.get_lastMs. wp_run.
    unfold get_thread. rewrite tick_ms_threads. fold (get_thread h s).
    rewrite Ht.
    assert (Ht1 : get_thread h (tick_ms s) = Some t)
      by (unfold get_thread; now rewrite tick_ms_threads).
    destruct (next_ms s =? t_lastMs t) eqn:Hcmp; cbn [negb]; wp_run.
    + apply Z.eqb_eq in Hcmp. split; [apply only_thread_tick|].
      exists t, []. rewrite tick_ms_clock, app_nil_r.
      repeat split; auto. congruence.
    + apply Z.eqb_neq in Hcmp.
      unfold WorkerScript.set_lastMs, on_thread at 1. wp_run.
      rewrite Ht1. rewrite worker_encode. wp_run.
      set (t1 := with_lastMs (next_ms s) t).
      set (s1 := put_thread h t1 (tick_ms s)).
      assert (Hg1 : get_thread h s1 = Some t1) by (eapply get_put_thread; eauto).
      unfold postMessage, on_thread. wp_run. rewrite Hg1.
      set (t2 := with_outbox _ t1). set (s2 := put_thread h t2 s1).
      assert (Hg2 : get_thread h s2 = Some t2) by (eapply get_put_thread; eauto).
      assert (Ho2 : only_thread h s s2).
      { eapply only_thread_trans; [apply only_thread_tick|].
        eapply only_thread_trans; apply only_thread_put. }
      eapply wp_post; [apply (IH h t2 s2 Hg2)|].
      * subst t2 t1. cbn [with_outbox with_lastMs t_lastMs].
        apply (fuel_ok_next fuel (t_lastMs t) s s2); [assumption | assumption | |].
        -- subst s2 s1. cbn. lia.
        -- intros Hnil. subst s2 s1. cbn. now rewrite (tick_ms_tape_nil s Hnil).
      * cbv beta. intros _ s' (Ho & t' & posted & Hg' & Hst & Hlast & Hout & Hnone & Hsome).
        split; [eapply only_thread_trans; eassumption|].
        exists t', (encode48 (next_ms s) :: posted).
        split; [exact Hg'|]. split; [exact Hst|]. split; [exact Hlast|].
        split; [|split].
        -- rewrite Hout. subst t2 t1. cbn [with_outbox with_lastMs t_outbox map].
           now rewrite <- app_assoc.
        -- discriminate.
        -- intros _. apply last_cons_encode; [|exact Hsome].
           intros Hp. rewrite <- Hlast, (Hnone Hp). reflexivity.
Qed.

Lemma worker_run_loop_turn (h : nat) (t : thread) (s : State) :
  get_thread h s = Some t ->
  wp (WorkerScript.run_loop h)
     (fun _ s' =>
        only_thread h s s' /\
        exists t' posted,
          get_thread h s' = Some t' /\
          t_status t' = t_status t /\
          t_lastMs t' = clock_ms s' /\
          t_outbox t' = (t_outbox t ++ map MString posted)%list /\
          (posted = [] -> t_lastMs t' = t_lastMs t) /\
          (posted <> [] -> last posted "" = encode48 (clock_ms s')))
     no_throw s.
Proof.
  intros Ht. unfold WorkerScript.run_loop. wp_run.
  eapply wp_mono; [apply (worker_loop_turn (fuel_of s) h t s Ht) | auto |].
  - apply fuel_of_ok. lia.
  - intros e s' [].
Qed.

Lemma run_worker_wp (s : State) (h : nat) (t : thread) :
  get_thread h s = Some t ->
  t_status t = Spawned \/ t_status t = Looping ->
  wp (run_worker h)
     (fun _ s' =>
        exists t' posted,
          get_thread h s' = Some t' /\
          caught_up t posted t' s' /\
          (t_status t = Spawned -> posted <> []) /\
          only_thread h s s')
     no_throw s.
Proof.
  intros Ht Hst.
  { unfold run_worker. wp_run. rewrite Ht.
    destruct Hst as [Hst|Hst]; rewrite Hst.
    - (* the script from its first line *)
      unfold WorkerScript.main. wp_run.
      unfold WorkerScript.set_lastMs, on_thread at 1. wp_run.
      assert (Ht1 : get_thread h (tick_ms s) = Some t)
        by (unfold get_thread; now rewrite tick_ms_threads).
      rewrite Ht1. rewrite worker_encode. wp_run.
      set (t1 := with_lastMs (next_ms s) t).
      set (s1 := put_thread h t1 (tick_ms s)).
      assert (Hg1 : get_thread h s1 = Some t1) by (eapply get_put_thread; eauto).
      unfold postMessage, on_thread. wp_run. rewrite Hg1.
      set (t2 := with_outbox _ t1). set (s2 := put_thread h t2 s1).
      assert (Hg2 : get_thread h s2 = Some t2) by (eapply get_put_thread; eauto).
      rewrite Hg2.
      set (t3 := with_status Looping t2). set (s3 := put_thread h t3 s2).
      assert (Hg3 : get_thread h s3 = Some t3) by (eapply get_put_thread; eauto).
      assert (Ho3 : only_thread h s s3).
      { eapply only_thread_trans; [apply only_thread_tick|].
        eapply only_thread_trans; [apply only_thread_put|].
        eapply only_thread_trans; apply only_thread_put. }
      eapply wp_mono; [apply (worker_run_loop_turn h t3 s3 Hg3) | | intros ? ? []].
      cbv beta.
      intros _ s' (Ho & t' & posted & Hg' & Hst' & Hlast & Hout & Hnone & Hsome).
      exists t', (encode48 (next_ms s) :: posted).
      split; [exact Hg'|]. split; [|split].
      + unfold caught_up. split; [exact Hst'|]. split; [exact Hlast|].
        split; [|split].
        * rewrite Hout. subst t3 t2 t1.
          cbn [with_status with_outbox with_lastMs t_outbox map].
          now rewrite <- app_assoc.
        * discriminate.
        * intros _. apply last_cons_encode; [|exact Hsome].
          intros Hp. rewrite <- Hlast, (Hnone Hp). reflexivity.
      + discriminate.
      + eapply only_thread_trans; eassumption.
    - (* the loop from its await *)
      eapply wp_post; [apply (worker_run_loop_turn h t s Ht)|]. cbv beta.
      intros _ s' (Ho & t' & posted & Hg' & Hst' & Hlast & Hout & Hnone & Hsome).
      exists t', posted. split; [exact Hg'|]. split; [|split].
      + unfold caught_up. rewrite Hst', Hst. auto.
      + discriminate.
      + exact Ho. }
Qed.

(** X15. A turn of the worker script, from its first line or from the [await] of
    its loop: it ends normally with the thread parked in the loop and its
    [lastMs] equal to the clock; what it posted is a list of strings, not
    empty on the first turn, whose last element is the encoding of the
    clock; the handler of [loop().catch] is never entered (no [__error]
    object is posted and the thread does not exit).  Nothing of the main
    thread changes, the cache included, and no other worker thread. *)
Theorem worker_turn_catches_up (s : State) (h : nat) (t : thread) :
  get_thread h s = Some t ->
  t_status t = Spawned \/ t_status t = Looping ->
  exists s' t' posted,
    run_worker h s = Done tt s' /\
    get_thread h s' = Some t' /\
    caught_up t posted t' s' /\
    (t_status t = Spawned -> posted <> []) /\
    only_thread h s s'.
Proof.
  intros Ht Hst.
  destruct (wp_done _ _ _ (run_worker_wp s h t Ht Hst))
    as ([] & s' & Hrun & t' & posted & Hg & Hup & Hfirst & Hsame).
  exists s', t', posted.
  split; [exact Hrun|]. split; [exact Hg|]. split; [exact Hup|].
  split; [exact Hfirst | exact Hsame].
Qed.

Lemma worker_turn_catches_up_witness :
  get_thread 0 first_worker_turn = Some (mkThread Spawned 0 []) /\
  exists s' t' posted,
    run_worker 0 first_worker_turn = Done tt s' /\
    get_thread 0 s' = Some t' /\
    caught_up (mkThread Spawned 0 []) posted t' s' /\
    (t_status (mkThread Spawned 0 []) = Spawned -> posted <> []) /\
    only_thread 0 first_worker_turn s'.
Proof.
  split; [reflexivity|].
  exact (worker_turn_catches_up first_worker_turn 0 (mkThread Spawned 0 [])
           eq_refl (or_introl eq_refl)).
Defined.

(* ------------------------------------------------------------------ *)
(** ** From the worker to the cache                                     *)
(* ------------------------------------------------------------------ *)

Lemma deliver_string (e : event) (s : State) (h : nat) (t : thread)
    (x : string) (rest : list message) :
  act e = DeliverMessage h ->
  get_thread h s = Some t -> t_status t <> Gone ->
  t_outbox t = MString x :: rest ->
  exists s',
    step e s = Done None s' /\
    cached s' = x /\
    get_thread h s' = Some (with_outbox rest t) /\
    lastHighActivityAt s' = clock_ms s' /\
    controller_state s' = controller_state s.
Proof.
  intros He Ht Hst Hout.
  assert (HtL : get_thread h (load e s) = Some t) by exact Ht.
  assert (HcL : controller_state (load e s) = controller_state s)
    by reflexivity.
  unfold step. rewrite He. unfold bind at 1.
  revert HtL HcL. generalize (load e s). intros sL HtL HcL.
  assert (Hw : wp (deliver_message h)
                  (fun _ s' => cached s' = x /\
                     get_thread h s' = Some (with_outbox rest t) /\
                     lastHighActivityAt s' = clock_ms s' /\
                     controller_state s' = controller_state s)
                  no_throw sL).
  { unfold deliver_message. wp_run. rewrite HtL, Hout.
    assert (H : wp (on_thread h (with_outbox rest) ;; on_message (MString x))
                   (fun _ s' => cached s' = x /\
                      get_thread h s' = Some (with_outbox rest t) /\
                      lastHighActivityAt s' = clock_ms s' /\
                      controller_state s' = controller_state s)
                   no_throw sL).
    { unfold on_thread, on_message. wp_run. rewrite HtL.
      rewrite <- HcL. unfold controller_state. tick_simpl.
      split; [reflexivity|]. split; [|split; reflexivity].
      unfold get_thread. cbn. autorewrite with tick.
      apply (get_put_thread h t _ sL). exact HtL. }
    destruct (t_status t); try exact H. now contradiction Hst. }
  destruct (wp_done _ _ _ Hw) as ([] & s' & Hrun & H).
  exists s'. rewrite Hrun. split; [reflexivity | exact H].
Qed.

Lemma last_cons_default {A : Type} (x d : A) (l : list A) :
  last (x :: l) d = last l x.
Proof.
  revert x d. induction l as [|y l IH]; intros x d; [reflexivity|].
  change (last (y :: l) d = last (y :: l) x). rewrite !IH. reflexivity.
Qed.

Lemma deliver_many (h : nat) (posted : list string) :
  forall (evs : list event) (s : State) (t : thread),
    deliveries h evs -> List.length evs = List.length posted ->
    get_thread h s = Some t -> t_status t = Looping ->
    t_outbox t = map MString posted ->
    exists states s',
      run evs s = Done states s' /\
      cached s' = last posted (cached s) /\
      get_thread h s' = Some (with_outbox [] t).
Proof.
  induction posted as [|x posted IH]; intros evs s t Hd Hlen Ht Hst Hout.
  - destruct evs; [|discriminate]. exists [s], s.
    split; [reflexivity|]. split; [reflexivity|].
    rewrite Ht. destruct t as [st ms o]. cbn in Hout. now subst o.
  - destruct evs as [|e evs]; [discriminate|].
    inversion Hd as [|? ? He Hd']; subst.
    destruct (deliver_string e s h t x (map MString posted) He Ht
                ltac:(rewrite Hst; discriminate) Hout)
      as (s1 & Hstep & Hca & Ht1 & _).
    destruct (IH evs s1 (with_outbox (map MString posted) t) Hd'
                ltac:(cbn in Hlen; congruence) Ht1 Hst eq_refl)
      as (states & s' & Hrun & Hca' & Ht').
    exists (s :: states), s'. cbn [run]. rewrite Hstep, Hrun.
    split; [reflexivity|]. split; [|exact Ht'].
    rewrite Hca', Hca. symmetry. apply last_cons_default.
Qed.


(* ================================================================== *)
(** * The flags of the controller                                       *)
(* ================================================================== *)

Lemma loop_frame_refl s : loop_frame s s.
Proof. unfold loop_frame. tauto. Qed.

Lemma loop_frame_trans s1 s2 s3 :
  loop_frame s1 s2 -> loop_frame s2 s3 -> loop_frame s1 s3.
Proof. unfold loop_frame. intuition congruence. Qed.

Lemma loop_frame_tick s : loop_frame s (tick_ms s).
Proof. unfold loop_frame. autorewrite with tick. tauto. Qed.

(** The idle check reads the clock once and may raise the stop flag. *)
Lemma idle_check_frame s :
  wp idle_check
     (fun _ s' =>
        loop_frame s s' /\ internalRunning s' = internalRunning s /\
        cached s' = cached s /\
        tape_ms s' = tape_ms (tick_ms s) /\ clock_ms s' = next_ms s)
     (fun _ s' => loop_frame s s') s.
Proof.
  unfold idle_check, request_stop. wp_run.
  destruct (_ >? _).
  - wp_run. destruct (internalController (tick_ms s)) eqn:Hc; wp_run.
    + unfold loop_frame. tick_simpl. tauto.
    + apply loop_frame_tick.
  - wp_run. unfold loop_frame. tick_simpl. tauto.
Qed.

(** The loop, from any state: it writes the cache and its own flags only;
    it parks with the stop flag down and [internalRunning] as it found it,
    or ends with [internalRunning] down. *)
Lemma internal_loop_frame (fuel : nat) : forall (local : Z) (s : State),
  fuel_ok fuel local s ->
  wp (internal_loop fuel local)
     (fun r s' =>
        loop_frame s s' /\
        match r with
        | Awaiting _ =>
            internalController s' = Some false /\
            internalRunning s' = internalRunning s
        | Finished => internalRunning s' = false
        end)
     (fun _ s' => loop_frame s s') s.
Proof.
  induction fuel as [|fuel IH]; intros local s Hf.
  - exfalso. destruct Hf as [Hf|(_ & _ & Hf)]; lia.
  - cbn [internal_loop]. unfold get_stopRequested. wp_run.
    destruct (internalController s) as [stop|] eqn:Hc; wp_run;
      [|apply loop_frame_refl].
    destruct stop; wp_run.
    { split; [|reflexivity]. unfold loop_frame. cbn. tauto. }
    destruct (next_ms s =? local) eqn:Hcmp; cbn [negb]; wp_run.
    { split; [apply loop_frame_tick|]. autorewrite with tick. auto. }
    apply Z.eqb_neq in Hcmp.
    set (s1 := set_cached (encode48 (next_ms s)) (tick_ms s)).
    assert (H1 : loop_frame s s1).
    { subst s1. unfold loop_frame. cbn. autorewrite with tick. tauto. }
    eapply wp_mono; [apply (idle_check_frame s1) | |].
    + cbv beta. intros _ s2 (H2 & Hir2 & _ & Ht2 & Hc2).
      eapply wp_mono; [apply (IH (next_ms s) s2) | |].
      * apply (fuel_ok_next fuel local s s2); [assumption | assumption | |].
        -- rewrite Ht2. etransitivity; [apply tick_ms_tape_length|].
           subst s1. cbn. lia.
        -- intros Hnil. rewrite Hc2. unfold next_ms. subst s1. cbn.
           rewrite (tick_ms_tape_nil s Hnil), Hnil. reflexivity.
      * cbv beta. intros r s' (H3 & Hr). split.
        -- eapply loop_frame_trans; [exact H1|].
           eapply loop_frame_trans; eassumption.
        -- destruct r; [|exact Hr]. destruct Hr as (Hr1 & Hr2).
           split; [exact Hr1|]. rewrite Hr2, Hir2. subst s1. cbn.
           now rewrite tick_ms_internalRunning.
      * cbv beta. intros _ s' H3.
        eapply loop_frame_trans; [exact H1|].
        eapply loop_frame_trans; eassumption.
    + cbv beta. intros _ s' H2. eapply loop_frame_trans; eassumption.
Qed.

Lemma internal_start_frame s :
  wp internal_start
     (fun r s' =>
        loop_frame s s' /\
        match r with
        | Awaiting _ =>
            internalController s' = Some false /\
            internalRunning s' = internalRunning s
        | Finished => internalRunning s' = false
        end)
     (fun _ s' => loop_frame s s') s.
Proof.
  unfold internal_start. wp_run.
  set (s1 := set_cached (encode48 (next_ms s)) (tick_ms s)).
  assert (H1 : loop_frame s s1).
  { subst s1. unfold loop_frame. cbn. autorewrite with tick. tauto. }
  eapply wp_mono; [apply (internal_loop_frame (fuel_of s) (next_ms s) s1) | |].
  - apply fuel_of_ok. subst s1. cbn. apply tick_ms_tape_length.
  - cbv beta. intros r s' (H2 & Hr).
    split; [eapply loop_frame_trans; eassumption|].
    destruct r; [|exact Hr]. destruct Hr as (Hr1 & Hr2).
    split; [exact Hr1|]. rewrite Hr2. subst s1. cbn.
    now rewrite tick_ms_internalRunning.
  - cbv beta. intros _ s' H2. eapply loop_frame_trans; eassumption.
Qed.

Lemma internal_resume_frame (local : Z) s :
  wp (internal_resume local)
     (fun r s' =>
        loop_frame s s' /\
        match r with
        | Awaiting _ =>
            internalController s' = Some false /\
            internalRunning s' = internalRunning s
        | Finished => internalRunning s' = false
        end)
     (fun _ s' => loop_frame s s') s.
Proof.
  unfold internal_resume. wp_run.
  eapply wp_mono; [apply (idle_check_frame s) | | auto].
  cbv beta. intros _ s1 (H1 & Hir1 & _ & Ht1 & _).
  eapply wp_mono; [apply (internal_loop_frame (fuel_of s) local s1) | |].
  - apply fuel_of_ok. rewrite Ht1. apply tick_ms_tape_length.
  - cbv beta. intros r s' (H2 & Hr).
    split; [eapply loop_frame_trans; eassumption|].
    destruct r; [|exact Hr]. destruct Hr as (Hr1 & Hr2).
    split; [exact Hr1|]. now rewrite Hr2.
  - cbv beta. intros _ s' H2. eapply loop_frame_trans; eassumption.
Qed.

(** An asynchronous run of the loop body either leaves a task parked, the
    stop flag down and [internalRunning] as it was, or leaves
    [internalRunning] down and the tasks as they were. *)
Lemma run_async_flags (body : M task_state) s :
  wp body
     (fun r s' =>
        loop_frame s s' /\
        match r with
        | Awaiting _ =>
            internalController s' = Some false /\
            internalRunning s' = internalRunning s
        | Finished => internalRunning s' = false
        end)
     (fun _ s' => loop_frame s s') s ->
  wp (run_async body)
     (fun _ s' =>
        workerRunning s' = workerRunning s /\ worker s' = worker s /\
        threads s' = threads s /\
        ((internalRunning s' = false /\ tasks s' = tasks s) \/
         (internalRunning s' = internalRunning s /\
          internalController s' = Some false /\
          exists l, tasks s' = (tasks s ++ [l])%list)))
     no_throw s.
Proof.
  unfold wp, run_async. destruct (body s) as [[l|] s'|e s'|]; auto.
  - intros ((_ & _ & Hwr & Hw & _ & _ & Hts & Hth & _) & Hic & Hir).
    cbn. repeat split; try assumption. right.
    repeat split; try assumption. exists l. now rewrite Hts.
  - intros ((_ & _ & Hwr & Hw & _ & _ & Hts & Hth & _) & Hir).
    repeat split; try assumption. left. auto.
  - intros (_ & _ & Hwr & Hw & _ & _ & Hts & Hth & _).
    cbn. repeat split; try assumption. left. auto.
Qed.

Lemma flags_consistent_same s s' :
  workerRunning s' = workerRunning s -> worker s' = worker s ->
  List.length (threads s') = List.length (threads s) ->
  (internalRunning s' = true ->
   internalController s' = Some false /\ tasks s' <> []) ->
  flags_consistent s -> flags_consistent s'.
Proof.
  unfold flags_consistent. intros -> -> -> H (H1 & H2 & _). auto.
Qed.

Lemma app_one_not_nil {A : Type} (l : list A) (x : A) : (l ++ [x])%list <> [].
Proof. destruct l; discriminate. Qed.

Lemma startInternalLoop_flags s :
  flags_consistent s ->
  wp startInternalLoop
     (fun _ s' =>
        flags_consistent s' /\
        workerRunning s' = workerRunning s /\ worker s' = worker s /\
        threads s' = threads s)
     no_throw s.
Proof.
  intros HJ. unfold startInternalLoop. wp_run.
  destruct (internalRunning s) eqn:Hir; wp_run; [auto|].
  match goal with |- wp _ _ _ ?st => set (s1 := st) end.
  eapply wp_post; [apply (run_async_flags internal_start s1),
                   internal_start_frame|].
  cbv beta. intros _ s' (Hwr & Hw & Hth & Hcase).
  assert (E : workerRunning s1 = workerRunning s /\ worker s1 = worker s /\
              threads s1 = threads s).
  { subst s1. cbn. autorewrite with tick. cbn. auto. }
  destruct E as (E1 & E2 & E3).
  split; [|repeat split; congruence].
  apply (flags_consistent_same s); try congruence.
  intros Hup. destruct Hcase as [(Hoff & _)|(_ & Hic & l & Hl)]; [congruence|].
  split; [exact Hic|]. rewrite Hl. apply app_one_not_nil.
Qed.

Lemma resume_loop_flags (i : nat) s :
  flags_consistent s ->
  wp (resume_loop i) (fun _ s' => flags_consistent s') no_throw s.
Proof.
  intros HJ. unfold resume_loop. wp_run.
  destruct (nth_error (tasks s) i) as [local|]; wp_run; [|exact HJ].
  set (s1 := set_tasks (list_remove (tasks s) i) s).
  eapply wp_post; [apply (run_async_flags (internal_resume local) s1),
                   internal_resume_frame|].
  cbv beta. intros _ s' (Hwr & Hw & Hth & Hcase).
  apply (flags_consistent_same s); try (subst s1; cbn in *; congruence).
  intros Hup. destruct Hcase as [(Hoff & _)|(_ & Hic & l & Hl)]; [congruence|].
  split; [exact Hic|]. rewrite Hl. apply app_one_not_nil.
Qed.

Lemma flags_consistent_frame s s' :
  workerRunning s' = workerRunning s -> worker s' = worker s ->
  List.length (threads s') = List.length (threads s) ->
  internalRunning s' = internalRunning s ->
  internalController s' = internalController s ->
  tasks s' = tasks s ->
  flags_consistent s -> flags_consistent s'.
Proof. unfold flags_consistent. intros -> -> -> -> -> ->. auto. Qed.

Lemma flags_consistent_detach s s' :
  workerRunning s' = false -> worker s' = None ->
  internalRunning s' = internalRunning s ->
  internalController s' = internalController s ->
  tasks s' = tasks s ->
  flags_consistent s -> flags_consistent s'.
Proof.
  unfold flags_consistent. intros -> -> -> -> -> (_ & _ & H).
  split; [split; [discriminate | congruence]|].
  split; [discriminate | exact H].
Qed.

Lemma flags_consistent_put h t s :
  flags_consistent s -> flags_consistent (put_thread h t s).
Proof.
  apply flags_consistent_frame; try reflexivity.
  unfold put_thread. cbn. apply list_update_length.
Qed.

Lemma stopWorker_flags s :
  flags_consistent s ->
  wp stopWorker (fun _ s' => flags_consistent s') no_throw s.
Proof.
  intros HJ. unfold stopWorker. wp_run.
  destruct (worker s) as [h|] eqn:Hw.
  - unfold terminate, on_thread. wp_run.
    destruct (get_thread h s) as [t|].
    + apply (flags_consistent_detach (put_thread h
               (match t_status t with
                | Gone => t
                | Exiting _ => t
                | _ => with_status (Exiting 1) t
                end) s)); try reflexivity.
      now apply flags_consistent_put.
    + now apply (flags_consistent_detach s).
  - wp_run. now apply (flags_consistent_detach s).
Qed.

Lemma stop_flags s :
  flags_consistent s -> wp stop (fun _ s' => flags_consistent s') no_throw s.
Proof.
  intros HJ. unfold stop, stopInternalLoop. wp_run.
  assert (H : forall s1,
            workerRunning s1 = workerRunning s -> worker s1 = worker s ->
            threads s1 = threads s -> internalRunning s1 = false ->
            flags_consistent s1).
  { intros s1 Hwr Hw Hth Hir. destruct HJ as (H1 & H2 & _).
    unfold flags_consistent. rewrite Hwr, Hw, Hth, Hir.
    split; [exact H1|]. split; [exact H2|]. discriminate. }
  destruct (internalController s); wp_run; apply stopWorker_flags, H;
    reflexivity.
Qed.

Lemma startWorker_flags s :
  flags_consistent s ->
  wp startWorker (fun _ s' => flags_consistent s') no_throw s.
Proof.
  intros HJ. unfold startWorker. wp_run.
  destruct (workerRunning s) eqn:Hwr; wp_run.
  { apply (flags_consistent_frame s); cbn; autorewrite with tick; auto. }
  destruct (WorkerCtor s); cbn [negb].
  2:{ eapply wp_post; [apply (startInternalLoop_flags s HJ)|].
      cbv beta. tauto. }
  wp_run. apply wp_new_WorkerCtor. cbn [spawn_fails set_lastHighActivityAt].
  rewrite tick_ms_spawn_fails.
  set (s1 := set_lastHighActivityAt (next_ms s) (tick_ms s)).
  assert (HJ1 : flags_consistent s1).
  { apply (flags_consistent_frame s); subst s1; cbn; autorewrite with tick;
      auto. }
  destruct (spawn_fails s); wp_run.
  - eapply wp_post; [apply startInternalLoop_flags|].
    + apply (flags_consistent_frame s1); auto.
    + cbv beta. intros _ s' (HJ' & _). wp_run. exact HJ'.
  - destruct HJ1 as (_ & _ & H3).
    unfold flags_consistent. cbn. rewrite length_app. cbn.
    split; [split; [intros _; discriminate | intros _; reflexivity]|].
    split; [|exact H3].
    intros h Hh. injection Hh as <-. lia.
Qed.

Lemma startInternalLoop_flags' s :
  flags_consistent s ->
  wp startInternalLoop (fun _ s' => flags_consistent s') no_throw s.
Proof.
  intros HJ. eapply wp_post; [apply (startInternalLoop_flags s HJ)|].
  cbv beta. tauto.
Qed.

Lemma on_exit_flags code s :
  flags_consistent s ->
  wp (on_exit code) (fun _ s' => flags_consistent s') no_throw s.
Proof.
  intros HJ. unfold on_exit. wp_run.
  assert (H : flags_consistent (set_worker None (set_workerRunning false s)))
    by now apply (flags_consistent_detach s).
  destruct (negb (code =? 0)); wp_run; [|exact H].
  now apply startInternalLoop_flags'.
Qed.

Lemma on_error_flags s :
  flags_consistent s ->
  wp on_error (fun _ s' => flags_consistent s') no_throw s.
Proof.
  intros HJ. unfold on_error. wp_run.
  eapply wp_post; [apply stopWorker_flags|].
  - now apply (flags_consistent_frame s).
  - cbv beta. intros _ s'. apply startInternalLoop_flags'.
Qed.

Lemma on_message_flags msg s :
  flags_consistent s ->
  wp (on_message msg) (fun _ s' => flags_consistent s') no_throw s.
Proof.
  intros HJ. unfold on_message. wp_run.
  destruct msg; wp_run;
    apply (flags_consistent_frame s); cbn; autorewrite with tick; auto.
Qed.

Lemma requestPerf_flags s :
  flags_consistent s ->
  wp requestPerf (fun _ s' => flags_consistent s') no_throw s.
Proof.
  intros HJ. unfold requestPerf. wp_run.
  set (s1 := set_lastHighActivityAt (next_ms s) (tick_ms s)).
  assert (HJ1 : flags_consistent s1).
  { apply (flags_consistent_frame s); subst s1; cbn; autorewrite with tick;
      auto. }
  destruct (String.eqb _ "basic"); wp_run; [exact HJ1|].
  destruct (String.eqb _ "worker"); [now apply startWorker_flags|].
  destruct (String.eqb _ "internal"); [now apply startInternalLoop_flags'|].
  wp_run. destruct (WorkerCtor s1);
    [now apply startWorker_flags | now apply startInternalLoop_flags'].
Qed.

Lemma start_flags mode s :
  flags_consistent s ->
  wp (start mode) (fun _ s' => flags_consistent s') no_throw s.
Proof.
  intros HJ. unfold start. destruct mode as [m|]; [|now apply requestPerf_flags].
  destruct (String.eqb m "worker"); [now apply startWorker_flags|].
  destruct (String.eqb m "internal"); [now apply startInternalLoop_flags'|].
  now apply requestPerf_flags.
Qed.

Lemma get_flags s :
  flags_consistent s ->
  wp get (fun _ s' => flags_consistent s') no_throw s.
Proof.
  intros HJ. unfold get. wp_run.
  assert (Hhot : wp (now <- Date_now ;;
                     write (set_lastHighActivityAt now) ;;
                     _ <- markCall ;; read cached)
                    (fun _ s' => flags_consistent s') no_throw s).
  { wp_run. apply wp_markCall.
    intros b s' _ _ Hir Hic _ Hwr Hw _ _ _ _ Hts Hth. wp_run.
    revert Hir Hic Hwr Hw Hts Hth. cbn. autorewrite with tick. intros.
    apply (flags_consistent_frame s); congruence. }
  destruct (workerRunning s); [exact Hhot|]. wp_run.
  destruct (internalRunning s); [exact Hhot|]. wp_run.
  apply wp_markCall. intros b s1 _ _ Hir Hic _ Hwr Hw _ _ _ _ Hts Hth.
  assert (HJ1 : flags_consistent s1)
    by (apply (flags_consistent_frame s); congruence).
  assert (Hb : forall s2, flags_consistent s2 ->
            wp basicGet (fun _ s' => flags_consistent s') no_throw s2).
  { intros s2 H2. unfold basicGet. wp_run.
    apply (flags_consistent_frame s2); autorewrite with tick; auto. }
  wp_run. destruct b; wp_run; [|now apply Hb].
  eapply wp_post; [apply (requestPerf_flags s1 HJ1)|]. cbv beta.
  intros _ s2. apply Hb.
Qed.

Lemma run_worker_flags h s :
  flags_consistent s ->
  wp (run_worker h) (fun _ s' => flags_consistent s') no_throw s.
Proof.
  intros HJ.
  assert (Hturn : forall t,
            get_thread h s = Some t ->
            t_status t = Spawned \/ t_status t = Looping ->
            wp (run_worker h) (fun _ s' => flags_consistent s') no_throw s).
  { intros t Ht Hst.
    eapply wp_post; [apply (run_worker_wp s h t Ht Hst)|]. cbv beta.
    intros _ s' (_ & _ & _ & _ & _ & Hsame).
    destruct Hsame as (_ & _ & Hir & Hic & _ & Hwr & Hw & Hts & _ & Hlen & _).
    now apply (flags_consistent_frame s). }
  destruct (get_thread h s) as [t|] eqn:Ht.
  - destruct (t_status t) eqn:Hst;
      try (apply (Hturn t eq_refl); auto; fail);
      unfold run_worker; wp_run; rewrite Ht, Hst; wp_run; exact HJ.
  - unfold run_worker. wp_run. rewrite Ht. wp_run. exact HJ.
Qed.

Lemma deliver_message_flags h s :
  flags_consistent s ->
  wp (deliver_message h) (fun _ s' => flags_consistent s') no_throw s.
Proof.
  intros HJ. unfold deliver_message. wp_run.
  destruct (get_thread h s) as [t|] eqn:Ht; wp_run; [|exact HJ].
  assert (H : forall msg rest,
            wp (on_thread h (with_outbox rest) ;; on_message msg)
               (fun _ s' => flags_consistent s') no_throw s).
  { intros msg rest. wp_run. unfold on_thread. wp_run. rewrite Ht.
    apply on_message_flags. now apply flags_consistent_put. }
  destruct (t_status t), (t_outbox t); wp_run; try exact HJ; apply H.
Qed.

Lemma deliver_error_flags h s :
  flags_consistent s ->
  wp (deliver_error h) (fun _ s' => flags_consistent s') no_throw s.
Proof.
  intros HJ. unfold deliver_error. wp_run.
  destruct (get_thread h s) as [t|] eqn:Ht; wp_run; [|exact HJ].
  assert (H : wp (on_thread h (with_status (Exiting 1)) ;; on_error)
                 (fun _ s' => flags_consistent s') no_throw s).
  { wp_run. unfold on_thread. wp_run. rewrite Ht.
    apply on_error_flags. now apply flags_consistent_put. }
  destruct (t_status t); wp_run; try exact HJ; exact H.
Qed.

Lemma deliver_exit_flags h code s :
  flags_consistent s ->
  wp (deliver_exit h code) (fun _ s' => flags_consistent s') no_throw s.
Proof.
  intros HJ. unfold deliver_exit. wp_run.
  destruct (get_thread h s) as [t|] eqn:Ht; wp_run; [|exact HJ].
  assert (H : forall c,
            wp (on_thread h (fun t => mkThread Gone (t_lastMs t) []) ;; on_exit c)
               (fun _ s' => flags_consistent s') no_throw s).
  { intros c. wp_run. unfold on_thread. wp_run. rewrite Ht.
    apply on_exit_flags. now apply flags_consistent_put. }
  destruct (t_status t); wp_run; try exact HJ; apply H.
Qed.

Lemma step_flags (e : event) (s : State) :
  flags_consistent s ->
  exists v s', step e s = Done v s' /\ flags_consistent s'.
Proof.
  intros HJ.
  assert (HL : flags_consistent (load e s))
    by now apply (flags_consistent_frame s).
  unfold step. apply wp_done.
  destruct (act e) as [|mode| |i|h|h|h|h code]; wp_run;
    (eapply wp_post;
     [ first [ apply (get_flags _ HL) | apply (start_flags mode _ HL)
             | apply (stop_flags _ HL) | apply (resume_loop_flags i _ HL)
             | apply (run_worker_flags h _ HL)
             | apply (deliver_message_flags h _ HL)
             | apply (deliver_error_flags h _ HL)
             | apply (deliver_exit_flags h code _ HL) ]
     | cbv beta; intros ? s' Hs'; wp_run; exact Hs' ]).
Qed.

Lemma createTSGen_flags (opts : options) (h : host) (s : State) :
  createTSGen opts h = Done tt s -> flags_consistent s.
Proof.
  unfold createTSGen. intros H.
  assert (Hw : wp (ms <- platformGetNowMs ;;
                   enc <- encode_ms ms ;;
                   write (set_cached enc) ;;
                   ms' <- platformGetNowMs ;;
                   write (set_lastMs ms') ;;
                   ns <- platformGetNano ;;
                   write (set_windowStartNano ns))
                  (fun _ s' => flags_consistent s') no_throw
                  (declare (Object_assign defaultOptions opts) h)).
  { wp_run.
    apply (flags_consistent_frame (declare (Object_assign defaultOptions opts) h));
      try (tick_simpl; reflexivity).
    unfold flags_consistent. cbn.
    split; [split; [intros Hf; discriminate Hf
                   | intros Hn; now contradiction Hn]|].
    split; [intros h0 Hh; discriminate Hh | intros Hf; discriminate Hf]. }
  unfold wp in Hw. rewrite H in Hw. exact Hw.
Qed.

(** X17. In every run from construction, whatever the events, the flags agree
    with what they stand for at each turn boundary: [workerRunning] is up
    exactly when a worker handle is held, the handle is that of a thread
    that was created, and while [internalRunning] is up a loop task is
    parked in the event loop with the stop flag down (a served cache always
    has a refresher attached). *)
Theorem flags_consistent_in_every_run (opts : options) (h : host)
    (s0 : State) (evs : list event) :
  createTSGen opts h = Done tt s0 ->
  exists states s',
    run evs s0 = Done states s' /\ Forall flags_consistent states.
Proof.
  intros Hc. pose proof (createTSGen_flags opts h s0 Hc) as HJ. clear Hc.
  revert s0 HJ. induction evs as [|e evs IH]; intros s HJ.
  - exists [s], s. split; [reflexivity|]. constructor; [exact HJ | constructor].
  - destruct (step_flags e s HJ) as (v & s1 & Hstep & HJ1).
    destruct (IH s1 HJ1) as (states & s' & Hrun & Hall).
    exists (s :: states), s'. cbn [run]. rewrite Hstep, Hrun.
    split; [reflexivity|]. constructor; assumption.
Qed.

Lemma flags_consistent_in_every_run_witness :
  createTSGen no_options sample_host = Done tt sample_instance /\
  exists states s',
    run race sample_instance = Done states s' /\
    Forall flags_consistent states.
Proof.
  split; [reflexivity|].
  exact (flags_consistent_in_every_run no_options sample_host sample_instance
           race eq_refl).
Defined.
(* ================================================================== *)
(** * Events of a worker that is no longer in use                       *)
(* ================================================================== *)

Lemma startInternalLoop_frame s :
  wp startInternalLoop
     (fun _ s' =>
        workerRunning s' = workerRunning s /\ worker s' = worker s /\
        threads s' = threads s)
     no_throw s.
Proof.
  unfold startInternalLoop. wp_run.
  destruct (internalRunning s); wp_run; [auto|].
  match goal with |- wp _ _ _ ?st => set (s1 := st) end.
  eapply wp_post; [apply (run_async_flags internal_start s1),
                   internal_start_frame|].
  cbv beta. intros _ s' (Hwr & Hw & Hth & _).
  rewrite Hwr, Hw, Hth. subst s1. cbn. autorewrite with tick. cbn. auto.
Qed.

(** What [stop()] does to the worker it detaches: the thread is told to
    stop and keeps what it had posted. *)
Lemma stop_thread (s : State) (h : nat) (t : thread) :
  worker s = Some h -> get_thread h s = Some t -> t_status t <> Gone ->
  wp stop
     (fun _ s' =>
        controller_state s' = DirectCompute /\ cached s' = cached s /\
        worker s' = None /\
        exists t', get_thread h s' = Some t' /\ t_status t' <> Gone /\
                   t_outbox t' = t_outbox t)
     no_throw s.
Proof.
  intros Hw Ht Hst. unfold stop, stopInternalLoop. wp_run.
  assert (H : forall s1,
            worker s1 = Some h -> get_thread h s1 = Some t ->
            internalRunning s1 = false -> cached s1 = cached s ->
            wp stopWorker
               (fun _ s' =>
                  controller_state s' = DirectCompute /\
                  cached s' = cached s /\ worker s' = None /\
                  exists t', get_thread h s' = Some t' /\
                             t_status t' <> Gone /\
                             t_outbox t' = t_outbox t)
               no_throw s1).
  { intros s1 Hw1 Ht1 Hir1 Hca1. unfold stopWorker. wp_run. rewrite Hw1.
    unfold terminate, on_thread. wp_run. rewrite Ht1.
    unfold controller_state. cbn. rewrite Hir1.
    split; [reflexivity|]. split; [exact Hca1|]. split; [reflexivity|].
    eexists. split; [apply (get_put_thread h t _ s1 Ht1)|].
    destruct (t_status t) eqn:E; cbn; rewrite ?E; split;
      try reflexivity; try discriminate; try assumption. }
  destruct (internalController s); wp_run; apply H; auto.
Qed.



Lemma get_thread_put_other h h' t s :
  h' <> h -> get_thread h' (put_thread h t s) = get_thread h' s.
Proof.
  intros H. unfold get_thread, put_thread. cbn. now apply list_update_other.
Qed.

(** X19. The 'exit' handler does not check which worker exited: the 'exit' event
    of a worker that is no longer in use (stopped and replaced by another)
    clears the handle and the flag of the worker in use.  That worker is
    left as it was, running, and a later [stop()] does not reach it. *)
Theorem stale_exit_detaches_worker (s : State) (h1 h2 : nat)
    (t1 t2 : thread) (code c : Z) :
  worker s = Some h2 -> h1 <> h2 ->
  get_thread h1 s = Some t1 -> exit_code t1 code = Some c ->
  get_thread h2 s = Some t2 ->
  exists s1 s2,
    deliver_exit h1 code s = Done tt s1 /\
    worker s1 = None /\ workerRunning s1 = false /\
    get_thread h2 s1 = Some t2 /\
    stop s1 = Done tt s2 /\
    get_thread h2 s2 = Some t2.
Proof.
  intros Hw Hne Ht1 Hcode Ht2.
  assert (H1 : wp (deliver_exit h1 code)
                  (fun _ s' => worker s' = None /\ workerRunning s' = false /\
                               get_thread h2 s' = Some t2)
                  no_throw s).
  { unfold deliver_exit. wp_run. rewrite Ht1.
    assert (H : wp (on_thread h1 (fun t => mkThread Gone (t_lastMs t) []) ;;
                    on_exit c)
                   (fun _ s' => worker s' = None /\ workerRunning s' = false /\
                                get_thread h2 s' = Some t2)
                   no_throw s).
    { wp_run. unfold on_thread. wp_run. rewrite Ht1.
      set (sa := put_thread h1 _ s).
      assert (Ha : get_thread h2 sa = Some t2).
      { subst sa. rewrite get_thread_put_other by congruence. exact Ht2. }
      unfold on_exit. wp_run.
      destruct (negb (c =? 0)); wp_run; [|auto].
      eapply wp_post; [apply startInternalLoop_frame|]. cbv beta.
      intros _ s' (Hwr & Hw' & Hth). rewrite Hwr, Hw'.
      split; [reflexivity|]. split; [reflexivity|].
      unfold get_thread in *. rewrite Hth. exact Ha. }
    unfold exit_code in Hcode.
    destruct (t_status t1); try discriminate; injection Hcode as <-; exact H. }
  destruct (wp_done _ _ _ H1) as ([] & s1 & Hrun1 & Hw1 & Hwr1 & Hg1).
  assert (H2 : wp stop (fun _ s' => get_thread h2 s' = Some t2) no_throw s1).
  { unfold stop, stopInternalLoop, stopWorker. wp_run.
    destruct (internalController s1); wp_run; cbn [worker set_internalRunning
      set_internalController]; rewrite Hw1; wp_run; exact Hg1. }
  destruct (wp_done _ _ _ H2) as ([] & s2 & Hrun2 & Hg2).
  exists s1, s2. auto 10.
Qed.

Lemma stale_exit_detaches_worker_witness :
  worker restarted_worker = Some 1%nat /\
  get_thread 0 restarted_worker = Some (mkThread (Exiting 1) 0 []) /\
  get_thread 1 restarted_worker = Some (mkThread Spawned 0 []) /\
  exists s1 s2,
    deliver_exit 0 0 restarted_worker = Done tt s1 /\
    worker s1 = None /\ workerRunning s1 = false /\
    get_thread 1 s1 = Some (mkThread Spawned 0 []) /\
    stop s1 = Done tt s2 /\
    get_thread 1 s2 = Some (mkThread Spawned 0 []).
Proof.
  split; [reflexivity|]. split; [reflexivity|]. split; [reflexivity|].
  refine (stale_exit_detaches_worker restarted_worker 0 1
            (mkThread (Exiting 1) 0 []) (mkThread Spawned 0 []) 0 1
            eq_refl _ eq_refl eq_refl eq_refl).
  discriminate.
Defined.
